(** * TipMe: Lightning tip vouchers

    A shallow embedding of the voucher payment engine of the TipMe server
    (lnurl.go, db.go, handlers.go and the gateway client) and the proofs of
    its specified properties: the bech32 LNURL codec, the voucher store, the
    voucher creation, the LNURL-Pay and LNURL-Withdraw endpoints with their
    detached tasks, and the refund job.

    Conventions.
    - Go's [int64]/[int] (amd64) and [uint32] are integers of [Z] with the
      wrap-around written out ([wrap64], [u32]); a [byte] is a [Z] in
      [0, 256) and [byte(x)] is [x mod 256].
    - A Go [string] is a sequence of bytes: Rocq's [string].
    - A table of the SQLite store is the list of its rows, in rowid order.
    - Go's [error] is the inductive [error]; a function returning
      [(T, error)] returns a [result T].
    - Go's [float64] is Rocq's primitive binary64 float.
    - A [time.Time] is a count of nanoseconds since the Unix epoch.
    - The network, the payment gateway, the clock and the faults of the
      storage layer are inputs of the model (the [*Env] records); the calls
      a function makes are recorded, in order, in a trace of [Event]s. *)

From Stdlib Require Import ZArith List String Ascii Bool Lia.
From Stdlib Require Import PrimFloat FloatOps SpecFloat Uint63 DecimalString.
Import ListNotations.
Local Open Scope string_scope.
Local Open Scope list_scope.
Local Open Scope Z_scope.

(* ================================================================== *)
(** * Part I: definitions *)
(* ================================================================== *)

(** ** Machine integers *)

(** Two's complement wrap-around of a 64-bit signed integer. *)
Definition wrap64 (z : Z) : Z := (z + 2 ^ 63) mod 2 ^ 64 - 2 ^ 63.

(** Wrap-around of [uint32]. *)
Definition u32 (z : Z) : Z := z mod 2 ^ 32.

(** The conversion [byte(x)]. *)
Definition to_byte (z : Z) : Z := z mod 256.

(** ** Errors *)

(** Go error values: a message ([fmt.Errorf] without [%w]), the two context
    sentinels, and an error wrapped with [%w] under a message prefix. *)
Inductive error : Type :=
| ErrMsg (msg : string)
| ErrDeadlineExceeded
| ErrCanceled
| ErrWrap (prefix : string) (inner : error).

(** [err.Error()]. *)
Fixpoint Error (e : error) : string :=
  match e with
  | ErrMsg msg => msg
  | ErrDeadlineExceeded => "context deadline exceeded"
  | ErrCanceled => "context canceled"
  | ErrWrap p inner => (p ++ Error inner)%string
  end.

(** [errors.Is(err, context.DeadlineExceeded)]. *)
Fixpoint is_deadline_exceeded (e : error) : bool :=
  match e with
  | ErrDeadlineExceeded => true
  | ErrWrap _ inner => is_deadline_exceeded inner
  | _ => false
  end.

(** [errors.Is(err, context.Canceled)]. *)
Fixpoint is_canceled (e : error) : bool :=
  match e with
  | ErrCanceled => true
  | ErrWrap _ inner => is_canceled inner
  | _ => false
  end.

(** The test both the withdrawal callback and the refund job apply to a
    payment error: the outcome is unknown. *)
Definition outcome_unknown (e : error) : bool :=
  is_deadline_exceeded e || is_canceled e.

Inductive result (A : Type) : Type :=
| Ok (a : A)
| Err (e : error).
Arguments Ok {A} a.
Arguments Err {A} e.

(** ** Strings and bytes *)

Definition bytes_of_string (s : string) : list Z :=
  map (fun c => Z.of_nat (nat_of_ascii c)) (list_ascii_of_string s).

Definition string_of_bytes (l : list Z) : string :=
  string_of_list_ascii (map (fun z => ascii_of_nat (Z.to_nat z)) l).

(** [fmt]'s verb [%d]. *)
Definition fmt_d (z : Z) : string := NilZero.string_of_int (Z.to_int z).

(** ASCII case mapping of one byte. *)
Definition upper_ascii (c : ascii) : ascii :=
  let n := nat_of_ascii c in
  if ((97 <=? n) && (n <=? 122))%nat then ascii_of_nat (n - 32) else c.

Definition lower_ascii (c : ascii) : ascii :=
  let n := nat_of_ascii c in
  if ((65 <=? n) && (n <=? 90))%nat then ascii_of_nat (n + 32) else c.

(** [strings.ToUpper] and [strings.ToLower] on ASCII text (the codec only
    applies them to the charset symbols and the prefix). *)
Fixpoint ToUpper (s : string) : string :=
  match s with
  | EmptyString => EmptyString
  | String c s' => String (upper_ascii c) (ToUpper s')
  end.

Fixpoint ToLower (s : string) : string :=
  match s with
  | EmptyString => EmptyString
  | String c s' => String (lower_ascii c) (ToLower s')
  end.

(** ** Bech32 LNURL codec (lnurl.go) *)

Module Bech32.

Definition bech32Charset : string := "qpzry9x8gf2tvdw0s3jn54khce6mua7l".

Definition bech32Generator : list Z :=
  [0x3b6a57b2; 0x26508e6d; 0x1ea119fa; 0x3d4233dd; 0x2a1462b3].

(** The inner loop of [bech32Polymod]: for [i] in [idx], xor generator [i]
    into [chk] when bit [i] of [top] is set. *)
Fixpoint polymod_taps (idx : list nat) (top chk : Z) : Z :=
  match idx with
  | [] => chk
  | i :: rest =>
      let chk :=
        if Z.land (Z.shiftr top (Z.of_nat i)) 1 =? 1
        then Z.lxor chk (nth i bech32Generator 0)
        else chk in
      polymod_taps rest top chk
  end.

(** One iteration of the outer loop of [bech32Polymod]. *)
Definition polymod_step (chk v : Z) : Z :=
  let top := Z.shiftr chk 25 in
  let chk := Z.lxor (u32 (Z.shiftl (Z.land chk 0x1ffffff) 5)) v in
  polymod_taps (seq 0 5) top chk.

Definition bech32Polymod (values : list Z) : Z :=
  fold_left polymod_step values 1.

(** [bech32HRPExpand]: the high three bits of every character, a zero, the
    low five bits of every character.  ([range] over a Go string yields
    runes; on the ASCII prefixes of the codec that is one per byte.) *)
Definition bech32HRPExpand (hrp : string) : list Z :=
  let cs := bytes_of_string hrp in
  map (fun c => Z.shiftr c 5) cs ++ [0] ++ map (fun c => Z.land c 31) cs.

Definition bech32CreateChecksum (hrp : string) (data : list Z) : list Z :=
  let values := bech32HRPExpand hrp ++ data in
  let values := values ++ [0; 0; 0; 0; 0; 0] in
  let pm := Z.lxor (bech32Polymod values) 1 in
  map (fun i => to_byte (Z.land (Z.shiftr pm (5 * (5 - Z.of_nat i))) 31))
      (seq 0 6).

(** The loop [for bits >= toBits] of [convertBits].  Each iteration lowers
    [bits] by [toBits], so [bits] iterations are enough when [toBits >= 1];
    [None] is the loop that does not end ([toBits = 0]). *)
Fixpoint emit_groups (fuel : nat) (acc bits toBits maxv : Z)
  (result : list Z) : option (Z * list Z) :=
  if toBits <=? bits then
    match fuel with
    | O => None
    | S fuel' =>
        let bits := bits - toBits in
        emit_groups fuel' acc bits toBits maxv
          (result ++ [to_byte (Z.land (Z.shiftr acc bits) maxv)])
    end
  else Some (bits, result).

(** The loop over [data] of [convertBits]; [acc] is an [int], and [bits], a
    [uint], stays below [fromBits + toBits]. *)
Fixpoint convert_loop (data : list Z) (fromBits toBits maxv : Z)
  (acc bits : Z) (result : list Z) : option (Z * Z * list Z) :=
  match data with
  | [] => Some (acc, bits, result)
  | value :: rest =>
      let acc := Z.lor (wrap64 (Z.shiftl acc fromBits)) value in
      let bits := bits + fromBits in
      match emit_groups (Z.to_nat bits) acc bits toBits maxv result with
      | None => None
      | Some (bits, result) =>
          convert_loop rest fromBits toBits maxv acc bits result
      end
  end.

Definition convertBits (data : list Z) (fromBits toBits : Z) (pad : bool)
  : option (result (list Z)) :=
  let maxv := wrap64 (wrap64 (Z.shiftl 1 toBits) - 1) in
  match convert_loop data fromBits toBits maxv 0 0 [] with
  | None => None
  | Some (acc, bits, result) =>
      if pad then
        if 0 <? bits then
          Some (Ok (result ++
            [to_byte (Z.land (wrap64 (Z.shiftl acc (toBits - bits))) maxv)]))
        else Some (Ok result)
      else if (fromBits <=? bits)
              || negb (Z.land (wrap64 (Z.shiftl acc (toBits - bits))) maxv =? 0)
      then Some (Err (ErrMsg "invalid padding in bit conversion"))
      else Some (Ok result)
  end.

(** The loop of [EncodeLNURL] that writes the charset symbol of every value
    to the string builder [sb]. *)
Fixpoint write_symbols (combined : list Z) (sb : string) : result string :=
  match combined with
  | [] => Ok sb
  | c :: rest =>
      if Z.of_nat (String.length bech32Charset) <=? c then
        Err (ErrMsg ("invalid data value " ++ fmt_d c)%string)
      else
        match String.get (Z.to_nat c) bech32Charset with
        | Some ch => write_symbols rest (sb ++ String ch EmptyString)%string
        | None => Err (ErrMsg "index out of range")
        end
  end.

(** [EncodeLNURL] bech32-encodes a URL as an upper-case LNURL string. *)
Definition EncodeLNURL (rawURL : string) : option (result string) :=
  match convertBits (bytes_of_string rawURL) 8 5 true with
  | None => None
  | Some (Err e) => Some (Err e)
  | Some (Ok converted) =>
      let checksum := bech32CreateChecksum "lnurl" converted in
      let combined := converted ++ checksum in
      match write_symbols combined "lnurl1" with
      | Err e => Some (Err e)
      | Ok s => Some (Ok (ToUpper s))
      end
  end.

End Bech32.

(** ** Decoding (the source of [DecodeLNURL], which handlers.go calls, is
    not part of the sources at hand) *)

Module Bech32Decode.
Import Bech32.

(** Modelled from the spec: the split of [DecodeLNURL] "at the last
    occurrence of '1' into prefix and data" (section 4.1); [None] when the
    string has no '1'. *)
Fixpoint split_last_one (s : string) : option (string * string) :=
  match s with
  | EmptyString => None
  | String c rest =>
      match split_last_one rest with
      | Some (p, d) => Some (String c p, d)
      | None =>
          if Ascii.eqb c "1"%char then Some (EmptyString, rest) else None
      end
  end.

(** Modelled from the spec: the reverse map of one charset symbol of
    [DecodeLNURL] to its 5-bit value (section 4.1: "reverse-map charset
    symbols to 5-bit values"); [pos] counts the symbols of [charset] already
    passed. *)
Fixpoint charset_index (charset : string) (pos : Z) (c : ascii) : option Z :=
  match charset with
  | EmptyString => None
  | String d rest =>
      if Ascii.eqb c d then Some pos else charset_index rest (pos + 1) c
  end.

(** Modelled from the spec: the reverse map of the data part of
    [DecodeLNURL] (section 4.1); it fails on a symbol outside the charset. *)
Fixpoint decode_symbols (s : string) : option (list Z) :=
  match s with
  | EmptyString => Some []
  | String c rest =>
      match charset_index bech32Charset 0 c, decode_symbols rest with
      | Some v, Some vs => Some (v :: vs)
      | _, _ => None
      end
  end.

(** Modelled from the spec: [DecodeLNURL], absent from the sources, after
    section 4.1: "case-normalize, split at the last occurrence of '1' into
    prefix and data, reverse-map charset symbols to 5-bit values, verify the
    checksum (polymod of expanded-prefix + data must equal 1), drop the 6
    checksum symbols, re-group the remainder from 5-bit to 8-bit without
    padding (trailing bits must be zero and fewer than 5, else fail), and
    return the original bytes as a string".  The re-grouping is the
    [convertBits] of the source. *)
Definition DecodeLNURL (lnurl : string) : option (result string) :=
  let s := ToLower lnurl in
  match split_last_one s with
  | None => Some (Err (ErrMsg "invalid LNURL: no separator"))
  | Some (hrp, datapart) =>
      match decode_symbols datapart with
      | None => Some (Err (ErrMsg "invalid LNURL: character not in charset"))
      | Some values =>
          if negb (bech32Polymod (bech32HRPExpand hrp ++ values) =? 1) then
            Some (Err (ErrMsg "invalid LNURL: checksum"))
          else if (List.length values <? 6)%nat then
            Some (Err (ErrMsg "invalid LNURL: too short"))
          else
            let payload := firstn (List.length values - 6) values in
            match convertBits payload 5 8 false with
            | None => None
            | Some (Err e) => Some (Err e)
            | Some (Ok decoded) => Some (Ok (string_of_bytes decoded))
            end
      end
  end.

End Bech32Decode.

(** ** Configuration (main.go) *)

Record Config : Type := {
  BaseURL : string;
  FeePerVoucherSats : Z;
  FundingFeeMinMsats : Z;
  FundingFeePercent : float;
  MaxVouchersPerRequest : Z;
  VoucherAbsoluteExpirySecs : Z;
  DefaultRelativeExpirySecs : Z;
  MinVoucherPayAmountSats : Z;
  MaxVoucherPayAmountSats : Z
}.

(** The defaults of [loadConfig]; the percentage is the [float64] nearest to
    0.004. *)
Definition defaultConfig : Config := {|
  BaseURL := "http://localhost:8080";
  FeePerVoucherSats := 10;
  FundingFeeMinMsats := 2000;
  FundingFeePercent := 0x1.0624dd2f1a9fcp-8%float;
  MaxVouchersPerRequest := 10;
  VoucherAbsoluteExpirySecs := 31536000;
  DefaultRelativeExpirySecs := 2592000;
  MinVoucherPayAmountSats := 100;
  MaxVoucherPayAmountSats := 200000
|}.

(** ** Time (package time) *)

(** A [time.Time] is an instant in nanoseconds since the Unix epoch; a
    [time.Duration] is an [int64] count of nanoseconds. *)
Definition Time : Type := Z.

Definition Second : Z := 1000000000.

(** [time.Duration(secs) * time.Second]: an [int64] product. *)
Definition seconds_duration (secs : Z) : Z := wrap64 (secs * Second).

(** [t.Add(d)]. *)
Definition Time_Add (t : Time) (d : Z) : Time := t + d.

(** [t.After(u)]. *)
Definition Time_After (t u : Time) : bool := u <? t.

(** The seconds the product above holds without wrapping: about 292
    years either way. *)
Definition duration_fits (secs : Z) : Prop :=
  - 2 ^ 63 <= secs * Second < 2 ^ 63.

(** ** Floating point (the fee of the funding callback) *)

Module F64.

(** The [float64] of a non-negative integer up to [2 ^ 63]. *)
Definition of_magnitude (z : Z) : float :=
  if z <? 2 ^ 63 then PrimFloat.of_uint63 (Uint63.of_Z z)
  else 0x1p63%float.

(** The conversion [float64(x)] of an [int64]: the nearest [float64]. *)
Definition of_int64 (z : Z) : float :=
  if z <? 0 then PrimFloat.opp (of_magnitude (- z)) else of_magnitude z.

(** [math.Floor]: infinities, NaN and integral values are left alone. *)
Definition Floor (f : float) : float :=
  match Prim2SF f with
  | S754_finite s m e =>
      if e <? 0
      then of_int64 (Z.shiftl (if s then Z.neg m else Z.pos m) e)
      else f
  | _ => f
  end.

(** The conversion [int64(f)]: truncation toward zero; on amd64 the
    conversion of NaN, of an infinity or of a value out of range gives the
    least [int64]. *)
Definition to_int64 (f : float) : Z :=
  match Prim2SF f with
  | S754_zero _ => 0
  | S754_finite s m e =>
      let mag := Z.shiftl (Z.pos m) e in
      let z := if s then - mag else mag in
      if (- 2 ^ 63 <=? z) && (z <? 2 ^ 63) then z else - 2 ^ 63
  | _ => - 2 ^ 63
  end.

(** [math.Max]. *)
Definition Max (x y : float) : float :=
  if PrimFloat.is_infinity x && negb (PrimFloat.get_sign x) then x
  else if PrimFloat.is_infinity y && negb (PrimFloat.get_sign y) then y
  else if PrimFloat.is_nan x then x
  else if PrimFloat.is_nan y then y
  else if PrimFloat.is_zero x && PrimFloat.is_zero y
       then (if PrimFloat.get_sign x then y else x)
  else if PrimFloat.ltb y x then x else y.

End F64.

(** ** The voucher store (db.go) *)

Module Store.

(** The Go struct [Voucher]. *)
Record Voucher : Type := {
  PayID : string;
  WithdrawID : string;
  CreationHash : string;
  LightningAddress : string;
  TotalPaidMsats : Z;
  LastFundedAt : option Time;
  ExpirySeconds : Z;
  Active : bool;
  CreatedAt : Time
}.

(** [Voucher.IsActive], with [now] the value of [time.Now()]. *)
Definition IsActive (cfg : Config) (now : Time) (v : Voucher) : bool :=
  if negb (Active v) then false
  else if Time_After now
            (Time_Add (CreatedAt v)
               (seconds_duration (VoucherAbsoluteExpirySecs cfg)))
  then false
  else match LastFundedAt v with
       | Some lastFunded =>
           if Time_After now
                (Time_Add lastFunded (seconds_duration (ExpirySeconds v)))
           then false
           else true
       | None => true
       end.

(** A row of the table [vouchers].  The DATETIME columns hold timestamps
    written by [CURRENT_TIMESTAMP]: whole seconds since the epoch. *)
Record VoucherRow : Type := {
  pay_id : string;
  withdraw_id : string;
  creation_request_hash : option string;
  lightning_address : string;
  total_paid_msats : Z;
  last_funded_at : option Z;
  expiry_seconds : Z;
  active : Z;
  created_at : Z
}.

(** A row of [withdraw_sessions]. *)
Record SessionRow : Type := {
  s_k1 : string;
  s_withdraw_id : string;
  s_created_at : Z;
  s_used : Z;
  s_used_at : option Z
}.

(** A row of [pay_invoices]. *)
Record PayInvoiceRow : Type := {
  pi_id : string;
  pi_pay_id : string;
  pi_payment_hash : string;
  pi_amount_msats : Z;
  pi_credited_msats : Z;
  pi_paid : Z;
  pi_created_at : Z;
  pi_paid_at : option Z
}.

(** A row of [voucher_creation_requests]. *)
Record CreationRow : Type := {
  cr_payment_hash : string;
  cr_lightning_address : string;
  cr_count : Z;
  cr_expiry_seconds : Z;
  cr_fee_msats : Z;
  cr_status : string;
  cr_created_at : Z
}.

Record DB : Type := {
  vouchers : list VoucherRow;
  withdraw_sessions : list SessionRow;
  pay_invoices : list PayInvoiceRow;
  creation_requests : list CreationRow
}.

Definition set_vouchers (db : DB) (vs : list VoucherRow) : DB :=
  {| vouchers := vs;
     withdraw_sessions := withdraw_sessions db;
     pay_invoices := pay_invoices db;
     creation_requests := creation_requests db |}.

Definition set_sessions (db : DB) (ss : list SessionRow) : DB :=
  {| vouchers := vouchers db;
     withdraw_sessions := ss;
     pay_invoices := pay_invoices db;
     creation_requests := creation_requests db |}.

Definition set_pay_invoices (db : DB) (ps : list PayInvoiceRow) : DB :=
  {| vouchers := vouchers db;
     withdraw_sessions := withdraw_sessions db;
     pay_invoices := ps;
     creation_requests := creation_requests db |}.

Definition set_creation_requests (db : DB) (cs : list CreationRow) : DB :=
  {| vouchers := vouchers db;
     withdraw_sessions := withdraw_sessions db;
     pay_invoices := pay_invoices db;
     creation_requests := cs |}.

(** [sql.ErrNoRows]. *)
Definition ErrNoRows : error := ErrMsg "sql: no rows in result set".

(** A constraint violation reported by SQLite. *)
Definition ErrConstraint : error := ErrMsg "constraint failed".

(** The seconds [CURRENT_TIMESTAMP] and [strftime('%s','now')] give at the
    instant [now]. *)
Definition unix_seconds (now : Time) : Z := now / Second.

(** [scanVoucher] / the loop body of [scanVouchers]. *)
Definition scanVoucher (r : VoucherRow) : Voucher := {|
  PayID := pay_id r;
  WithdrawID := withdraw_id r;
  CreationHash := match creation_request_hash r with
                  | Some h => h
                  | None => ""
                  end;
  LightningAddress := lightning_address r;
  TotalPaidMsats := total_paid_msats r;
  LastFundedAt := match last_funded_at r with
                  | Some s => Some (s * Second)
                  | None => None
                  end;
  ExpirySeconds := expiry_seconds r;
  Active := active r =? 1;
  CreatedAt := created_at r * Second
|}.

(** [SELECT ... FROM vouchers WHERE pay_id=?]. *)
Definition find_by_pay_id (payID : string) (db : DB) : option VoucherRow :=
  find (fun r => String.eqb (pay_id r) payID) (vouchers db).

(** [SELECT ... FROM vouchers WHERE withdraw_id=?]. *)
Definition find_by_withdraw_id (withdrawID : string) (db : DB)
  : option VoucherRow :=
  find (fun r => String.eqb (withdraw_id r) withdrawID) (vouchers db).

(** [SELECT withdraw_id, used FROM withdraw_sessions WHERE k1=?]. *)
Definition find_session (k1 : string) (db : DB) : option SessionRow :=
  find (fun s => String.eqb (s_k1 s) k1) (withdraw_sessions db).

(** [UPDATE vouchers SET ... WHERE pay_id=?]. *)
Definition update_vouchers (payID : string) (f : VoucherRow -> VoucherRow)
  (db : DB) : DB :=
  set_vouchers db
    (map (fun r => if String.eqb (pay_id r) payID then f r else r)
         (vouchers db)).

(** A read of the store either fails in the storage layer ([fault]) or
    returns the first matching row. *)
Definition query_voucher (fault : option error) (row : option VoucherRow)
  : result Voucher :=
  match fault with
  | Some e => Err e
  | None =>
      match row with
      | Some r => Ok (scanVoucher r)
      | None => Err ErrNoRows
      end
  end.

Definition GetVoucherByPayID (fault : option error) (payID : string)
  (db : DB) : result Voucher :=
  query_voucher fault (find_by_pay_id payID db).

Definition GetVoucherByWithdrawID (fault : option error)
  (withdrawID : string) (db : DB) : result Voucher :=
  query_voucher fault (find_by_withdraw_id withdrawID db).

(** [SET total_paid_msats=0, active=0]. *)
Definition deactivated (r : VoucherRow) : VoucherRow := {|
  pay_id := pay_id r;
  withdraw_id := withdraw_id r;
  creation_request_hash := creation_request_hash r;
  lightning_address := lightning_address r;
  total_paid_msats := 0;
  last_funded_at := last_funded_at r;
  expiry_seconds := expiry_seconds r;
  active := 0;
  created_at := created_at r
|}.

(** [SET total_paid_msats=?, active=1]. *)
Definition reactivated (balanceMsats : Z) (r : VoucherRow) : VoucherRow := {|
  pay_id := pay_id r;
  withdraw_id := withdraw_id r;
  creation_request_hash := creation_request_hash r;
  lightning_address := lightning_address r;
  total_paid_msats := balanceMsats;
  last_funded_at := last_funded_at r;
  expiry_seconds := expiry_seconds r;
  active := 1;
  created_at := created_at r
|}.

(** [SET total_paid_msats=total_paid_msats+?,
    last_funded_at=CURRENT_TIMESTAMP].  (Balances stay far below [2 ^ 63],
    where SQLite's integer addition stops being exact.) *)
Definition credited (creditedMsats : Z) (now : Time) (r : VoucherRow)
  : VoucherRow := {|
  pay_id := pay_id r;
  withdraw_id := withdraw_id r;
  creation_request_hash := creation_request_hash r;
  lightning_address := lightning_address r;
  total_paid_msats := total_paid_msats r + creditedMsats;
  last_funded_at := Some (unix_seconds now);
  expiry_seconds := expiry_seconds r;
  active := active r;
  created_at := created_at r
|}.

(** A statement run on the store either fails in the storage layer
    ([fault], the store is unchanged) or is applied. *)
Definition exec (fault : option error) (db db' : DB) : option error * DB :=
  match fault with
  | Some e => (Some e, db)
  | None => (None, db')
  end.

(** [DeactivateVoucherTx], on the transaction's view of the store. *)
Definition DeactivateVoucherTx (fault : option error) (payID : string)
  (db : DB) : option error * DB :=
  exec fault db (update_vouchers payID deactivated db).

(** [DeactivateVoucher] (standalone). *)
Definition DeactivateVoucher (fault : option error) (payID : string)
  (db : DB) : option error * DB :=
  exec fault db (update_vouchers payID deactivated db).

(** [ReactivateVoucher]. *)
Definition ReactivateVoucher (fault : option error) (payID : string)
  (balanceMsats : Z) (db : DB) : option error * DB :=
  exec fault db (update_vouchers payID (reactivated balanceMsats) db).

(** [UPDATE pay_invoices SET paid=1, paid_at=CURRENT_TIMESTAMP WHERE
    payment_hash=?]. *)
Definition mark_invoice_paid (paymentHash : string) (now : Time) (db : DB)
  : DB :=
  set_pay_invoices db
    (map (fun p =>
            if String.eqb (pi_payment_hash p) paymentHash
            then {| pi_id := pi_id p; pi_pay_id := pi_pay_id p;
                    pi_payment_hash := pi_payment_hash p;
                    pi_amount_msats := pi_amount_msats p;
                    pi_credited_msats := pi_credited_msats p;
                    pi_paid := 1; pi_created_at := pi_created_at p;
                    pi_paid_at := Some (unix_seconds now) |}
            else p)
         (pay_invoices db)).

(** [CreditVoucherTx]: two statements; the second is not run when the first
    fails. *)
Definition CreditVoucherTx (fault1 fault2 : option error) (now : Time)
  (payID : string) (creditedMsats : Z) (paymentHash : string) (db : DB)
  : option error * DB :=
  match exec fault1 db (update_vouchers payID (credited creditedMsats now) db) with
  | (Some e, db) => (Some e, db)
  | (None, db) => exec fault2 db (mark_invoice_paid paymentHash now db)
  end.

(** The predicate of the query of [GetExpiredVouchersForRefund]. *)
Definition refund_selected (cfg : Config) (now : Time) (r : VoucherRow)
  : bool :=
  (active r =? 1) && (0 <? total_paid_msats r)
  && ((match last_funded_at r with
       | Some lastFunded => expiry_seconds r <=? unix_seconds now - lastFunded
       | None => false
       end)
      || (VoucherAbsoluteExpirySecs cfg <=? unix_seconds now - created_at r)).

Definition GetExpiredVouchersForRefund (cfg : Config) (now : Time)
  (fault : option error) (db : DB) : result (list Voucher) :=
  match fault with
  | Some e => Err e
  | None => Ok (map scanVoucher (filter (refund_selected cfg now) (vouchers db)))
  end.

(** [InsertCreationRequest]: the payment hash is the primary key. *)
Definition InsertCreationRequest (fault : option error) (now : Time)
  (paymentHash address : string) (count expirySecs feeMsats : Z) (db : DB)
  : option error * DB :=
  if existsb (fun c => String.eqb (cr_payment_hash c) paymentHash)
       (creation_requests db)
  then (Some ErrConstraint, db)
  else exec fault db
         (set_creation_requests db
            (creation_requests db ++
             [{| cr_payment_hash := paymentHash;
                 cr_lightning_address := address;
                 cr_count := count; cr_expiry_seconds := expirySecs;
                 cr_fee_msats := feeMsats; cr_status := "pending";
                 cr_created_at := unix_seconds now |}])).

Definition UpdateCreationRequestStatus (fault : option error)
  (paymentHash status : string) (db : DB) : option error * DB :=
  exec fault db
    (set_creation_requests db
       (map (fun c =>
               if String.eqb (cr_payment_hash c) paymentHash
               then {| cr_payment_hash := cr_payment_hash c;
                       cr_lightning_address := cr_lightning_address c;
                       cr_count := cr_count c;
                       cr_expiry_seconds := cr_expiry_seconds c;
                       cr_fee_msats := cr_fee_msats c;
                       cr_status := status;
                       cr_created_at := cr_created_at c |}
               else c)
            (creation_requests db))).

(** One [stmt.Exec] of [InsertVouchers]: [pay_id] is the primary key,
    [withdraw_id] is unique, the creation request must exist. *)
Definition insert_voucher (now : Time) (payID withdrawID creationHash address : string)
  (expirySecs : Z) (db : DB) : option error * DB :=
  if existsb (fun r => String.eqb (pay_id r) payID
                       || String.eqb (withdraw_id r) withdrawID) (vouchers db)
     || negb (existsb (fun c => String.eqb (cr_payment_hash c) creationHash)
                (creation_requests db))
  then (Some ErrConstraint, db)
  else (None,
        set_vouchers db
          (vouchers db ++
           [{| pay_id := payID; withdraw_id := withdrawID;
               creation_request_hash := Some creationHash;
               lightning_address := address;
               total_paid_msats := 0; last_funded_at := None;
               expiry_seconds := expirySecs; active := 1;
               created_at := unix_seconds now |}])).

Fixpoint insert_vouchers_loop (now : Time) (ids : list (string * string))
  (creationHash address : string) (expirySecs : Z) (db : DB)
  : option error * DB :=
  match ids with
  | [] => (None, db)
  | (payID, withdrawID) :: rest =>
      match insert_voucher now payID withdrawID creationHash address expirySecs db with
      | (Some e, db) => (Some e, db)
      | (None, db) =>
          insert_vouchers_loop now rest creationHash address expirySecs db
      end
  end.

(** [InsertVouchers]: all rows or none ([payIDs] and [withdrawIDs] have the
    same length at its call site). *)
Definition InsertVouchers (fault : option error) (now : Time)
  (payIDs withdrawIDs : list string) (creationHash address : string)
  (expirySecs : Z) (db : DB) : option error * DB :=
  match fault with
  | Some e => (Some e, db)
  | None =>
      match insert_vouchers_loop now (combine payIDs withdrawIDs)
              creationHash address expirySecs db with
      | (Some e, _) => (Some e, db)
      | (None, db') => (None, db')
      end
  end.

(** [InsertPayInvoice]: [id] is the primary key, the payment hash is
    unique, the voucher must exist. *)
Definition InsertPayInvoice (fault : option error) (now : Time)
  (id payID paymentHash : string) (amountMsats creditedMsats : Z) (db : DB)
  : option error * DB :=
  if existsb (fun p => String.eqb (pi_id p) id
                       || String.eqb (pi_payment_hash p) paymentHash)
       (pay_invoices db)
     || negb (existsb (fun r => String.eqb (pay_id r) payID) (vouchers db))
  then (Some ErrConstraint, db)
  else exec fault db
         (set_pay_invoices db
            (pay_invoices db ++
             [{| pi_id := id; pi_pay_id := payID;
                 pi_payment_hash := paymentHash;
                 pi_amount_msats := amountMsats;
                 pi_credited_msats := creditedMsats; pi_paid := 0;
                 pi_created_at := unix_seconds now; pi_paid_at := None |}])).

(** [InsertWithdrawSession]: [k1] is the primary key, the voucher must
    exist. *)
Definition InsertWithdrawSession (fault : option error) (now : Time)
  (k1 withdrawID : string) (db : DB) : option error * DB :=
  if existsb (fun s => String.eqb (s_k1 s) k1) (withdraw_sessions db)
     || negb (existsb (fun r => String.eqb (withdraw_id r) withdrawID)
                (vouchers db))
  then (Some ErrConstraint, db)
  else exec fault db
         (set_sessions db
            (withdraw_sessions db ++
             [{| s_k1 := k1; s_withdraw_id := withdrawID;
                 s_created_at := unix_seconds now; s_used := 0;
                 s_used_at := None |}])).

(** [UPDATE withdraw_sessions SET used=1, used_at=CURRENT_TIMESTAMP WHERE
    k1=?]. *)
Definition mark_session_used (k1 : string) (now : Time) (db : DB) : DB :=
  set_sessions db
    (map (fun s =>
            if String.eqb (s_k1 s) k1
            then {| s_k1 := s_k1 s; s_withdraw_id := s_withdraw_id s;
                    s_created_at := s_created_at s; s_used := 1;
                    s_used_at := Some (unix_seconds now) |}
            else s)
         (withdraw_sessions db)).

(** The faults the storage layer can raise inside
    [ValidateAndUseWithdrawSession]: at [Begin], at either [Scan], at the
    [UPDATE] and at [Commit]. *)
Record SessionFaults : Type := {
  sf_begin : option error;
  sf_scan_session : bool;
  sf_update : option error;
  sf_scan_voucher : bool;
  sf_commit : option error
}.

Definition no_session_faults : SessionFaults := {|
  sf_begin := None; sf_scan_session := false; sf_update := None;
  sf_scan_voucher := false; sf_commit := None
|}.

(** [ValidateAndUseWithdrawSession].  Every error return leaves the store as
    it was: the deferred [tx.Rollback()] undoes the [UPDATE]. *)
Definition ValidateAndUseWithdrawSession (faults : SessionFaults)
  (now : Time) (k1 withdrawID : string) (db : DB) : result string * DB :=
  match sf_begin faults with
  | Some e => (Err e, db)
  | None =>
      match (if sf_scan_session faults then None else find_session k1 db) with
      | None => (Err (ErrMsg "k1 not found"), db)
      | Some s =>
          if negb (String.eqb (s_withdraw_id s) withdrawID)
          then (Err (ErrMsg "k1 mismatch"), db)
          else if negb (s_used s =? 0)
          then (Err (ErrMsg "k1 already used"), db)
          else
            match sf_update faults with
            | Some e => (Err e, db)
            | None =>
                let db1 := mark_session_used k1 now db in
                match (if sf_scan_voucher faults then None
                       else find_by_withdraw_id withdrawID db1) with
                | None => (Err (ErrMsg "voucher not found for withdraw_id"), db)
                | Some r =>
                    match sf_commit faults with
                    | Some e => (Err e, db)
                    | None => (Ok (pay_id r), db1)
                    end
                end
            end
      end
  end.

(** The writes of the store, as the rest of the server issues them. *)
Inductive StoreOp : Type :=
| OpInsertCreationRequest (now : Time) (paymentHash address : string)
    (count expirySecs feeMsats : Z)
| OpUpdateCreationRequestStatus (paymentHash status : string)
| OpInsertVouchers (now : Time) (payIDs withdrawIDs : list string)
    (creationHash address : string) (expirySecs : Z)
| OpCreditVoucher (now : Time) (payID : string) (creditedMsats : Z)
    (paymentHash : string)
| OpDeactivateVoucher (payID : string)
| OpReactivateVoucher (payID : string) (balanceMsats : Z)
| OpInsertPayInvoice (now : Time) (id payID paymentHash : string)
    (amountMsats creditedMsats : Z)
| OpInsertWithdrawSession (now : Time) (k1 withdrawID : string)
| OpValidateAndUseWithdrawSession (now : Time) (k1 withdrawID : string).

(** The store after a write (unchanged when the write is refused). *)
Definition run_op (op : StoreOp) (db : DB) : DB :=
  match op with
  | OpInsertCreationRequest now h a c e f =>
      snd (InsertCreationRequest None now h a c e f db)
  | OpUpdateCreationRequestStatus h s =>
      snd (UpdateCreationRequestStatus None h s db)
  | OpInsertVouchers now ps ws h a e =>
      snd (InsertVouchers None now ps ws h a e db)
  | OpCreditVoucher now p c h => snd (CreditVoucherTx None None now p c h db)
  | OpDeactivateVoucher p => snd (DeactivateVoucher None p db)
  | OpReactivateVoucher p b => snd (ReactivateVoucher None p b db)
  | OpInsertPayInvoice now i p h a c =>
      snd (InsertPayInvoice None now i p h a c db)
  | OpInsertWithdrawSession now k w =>
      snd (InsertWithdrawSession None now k w db)
  | OpValidateAndUseWithdrawSession now k w =>
      snd (ValidateAndUseWithdrawSession no_session_faults now k w db)
  end.

Definition run_ops (ops : list StoreOp) (db : DB) : DB :=
  fold_left (fun d op => run_op op d) ops db.

End Store.

(** ** Lightning-address refunds (lnurl.go) and the handlers (handlers.go) *)

Module Handlers.
Import Store.

(** JSON values of the response bodies. *)
Inductive json : Type :=
| JString (s : string)
| JNumber (n : Z)
| JEmptyArray.

(** What a handler wrote: the HTTP status and the JSON object of the body
    (a Go map: the order of the keys carries no meaning). *)
Record Response : Type := {
  http_status : Z;
  body : list (string * json)
}.

Definition writeJSON (status : Z) (v : list (string * json)) : Response :=
  {| http_status := status; body := v |}.

(** [lnurlError]: an LNURL error is an HTTP 200 with an error body. *)
Definition lnurlError (reason : string) : Response :=
  writeJSON 200 [("status", JString "ERROR"); ("reason", JString reason)].

(** The body [{"status": "OK"}] of a successful withdrawal. *)
Definition statusOK : Response := writeJSON 200 [("status", JString "OK")].

(** The calls a flow makes to the gateway, to other hosts and, where their
    order matters, to the store. *)
Inductive Event : Type :=
| EvCreateInvoice (amountMsats : Z) (description : string)
| EvPayInvoice (bolt11 : string)
| EvHTTPGet (url : string)
| EvGetInvoice (callbackURL : string) (amountMsats : Z)
| EvDeactivateVoucher (payID : string)
| EvReactivateVoucher (payID : string) (balanceMsats : Z).

Record LNURLPayParams : Type := {
  Callback : string;
  MinSendable : Z;
  MaxSendable : Z
}.

(** What the other hosts and the gateway answer: the GET of a lightning
    address's well-known URL with the status check and the JSON decoding of
    [ResolveLightningAddress], the whole of [GetInvoiceFromCallback], and
    [blitziClient.PayInvoice]. *)
Record Network : Type := {
  http_lnurlp : string -> result LNURLPayParams;
  http_callback : string -> Z -> result string;
  pay_invoice : string -> option error
}.

(** [strings.SplitN(address, "@", 2)] when it has two parts. *)
Fixpoint split_at_sign (s : string) : option (string * string) :=
  match s with
  | EmptyString => None
  | String c rest =>
      if Ascii.eqb c "@"%char then Some (EmptyString, rest)
      else match split_at_sign rest with
           | Some (user, domain) => Some (String c user, domain)
           | None => None
           end
  end.

(** [ResolveLightningAddress]. *)
Definition ResolveLightningAddress (net : Network) (address : string)
  : result LNURLPayParams * list Event :=
  match split_at_sign address with
  | None => (Err (ErrMsg ("invalid lightning address: " ++ address)%string), [])
  | Some (user, domain) =>
      let url := ("https://" ++ domain ++ "/.well-known/lnurlp/" ++ user)%string in
      match http_lnurlp net url with
      | Err e => (Err e, [EvHTTPGet url])
      | Ok params =>
          if String.eqb (Callback params) ""
          then (Err (ErrMsg ("empty callback from " ++ address)%string),
                [EvHTTPGet url])
          else (Ok params, [EvHTTPGet url])
      end
  end.

(** [RefundToLightningAddress]: the error it returns and the calls it
    made. *)
Definition RefundToLightningAddress (net : Network) (address : string)
  (amountMsats : Z) : option error * list Event :=
  match ResolveLightningAddress net address with
  | (Err e, tr) => (Some (ErrWrap "resolve address: " e), tr)
  | (Ok params, tr) =>
      if amountMsats <? MinSendable params then
        (Some (ErrMsg ("refund amount " ++ fmt_d amountMsats
                       ++ " msats is below target minSendable "
                       ++ fmt_d (MinSendable params) ++ " msats (dust)")%string),
         tr)
      else
        let amountMsats :=
          if MaxSendable params <? amountMsats then MaxSendable params
          else amountMsats in
        let amountMsats := wrap64 (Z.quot amountMsats 1000 * 1000) in
        match http_callback net (Callback params) amountMsats with
        | Err e =>
            (Some (ErrWrap "get invoice from callback: " e),
             tr ++ [EvGetInvoice (Callback params) amountMsats])
        | Ok invoice =>
            (pay_invoice net invoice,
             tr ++ [EvGetInvoice (Callback params) amountMsats;
                    EvPayInvoice invoice])
        end
  end.

(** *** The funding callback *)

(** The fee of [handleLNURLPayCallback] (handlers.go):
    [int64(float64(cfg.FundingFeeMinMsats) +
           math.Floor(float64(amountMsats)*cfg.FundingFeePercent))]. *)
Definition feeMsats (cfg : Config) (amountMsats : Z) : Z :=
  F64.to_int64
    (PrimFloat.add (F64.of_int64 (FundingFeeMinMsats cfg))
       (F64.Floor (PrimFloat.mul (F64.of_int64 amountMsats)
                     (FundingFeePercent cfg)))).

Definition creditedMsats (cfg : Config) (amountMsats : Z) : Z :=
  wrap64 (amountMsats - feeMsats cfg amountMsats).

(** The fee of the earlier copy of the handler that follows the codec in
    lnurl.go: [int64(math.Max(float64(cfg.FundingFeeMinMsats),
    math.Floor(float64(amountMsats)*cfg.FundingFeePercent)))]. *)
Definition feeMsats_earlier (cfg : Config) (amountMsats : Z) : Z :=
  F64.to_int64
    (F64.Max (F64.of_int64 (FundingFeeMinMsats cfg))
       (F64.Floor (PrimFloat.mul (F64.of_int64 amountMsats)
                     (FundingFeePercent cfg)))).

Record BlitziInvoice : Type := {
  PaymentHash : string;
  Invoice : string
}.

(** The detached task the funding callback starts: it waits for the payment
    and then credits the voucher or refunds the payer. *)
Record CreditTask : Type := {
  task_pay_id : string;
  task_credited_msats : Z;
  task_payment_hash : string
}.

(** The inputs of one run of the funding callback: the clock, [fmt.Sscan]
    on the amount parameter, the gateway's answer to [CreateInvoice], the
    fresh invoice id and the faults of the store. *)
Record PayEnv : Type := {
  p_now : Time;
  p_sscan : string -> option Z;
  p_get_voucher_fault : option error;
  p_create_invoice : result BlitziInvoice;
  p_invoice_id : string;
  p_insert_fault : option error
}.

(** [handleLNURLPayCallback]. *)
Definition handleLNURLPayCallback (cfg : Config) (env : PayEnv)
  (payID amountStr : string) (db : DB)
  : Response * DB * list Event * option CreditTask :=
  if String.eqb amountStr "" then
    (lnurlError "missing amount parameter", db, [], None)
  else
    match p_sscan env amountStr with
    | None => (lnurlError "invalid amount", db, [], None)
    | Some amountMsats =>
        if amountMsats <=? 0 then (lnurlError "invalid amount", db, [], None)
        else
          match GetVoucherByPayID (p_get_voucher_fault env) payID db with
          | Err _ => (lnurlError "voucher not found", db, [], None)
          | Ok v =>
              if negb (IsActive cfg (p_now env) v) then
                (lnurlError "voucher is not active", db, [], None)
              else
                let fee := feeMsats cfg amountMsats in
                let credited := wrap64 (amountMsats - fee) in
                if credited <=? 0 then
                  (lnurlError "amount too small to cover fee", db, [], None)
                else
                  let ev := EvCreateInvoice amountMsats "TipMe voucher funding" in
                  match p_create_invoice env with
                  | Err _ => (lnurlError "failed to create invoice", db, [ev], None)
                  | Ok inv =>
                      match InsertPayInvoice (p_insert_fault env) (p_now env)
                              (p_invoice_id env) payID (PaymentHash inv)
                              amountMsats credited db with
                      | (Some _, db) => (lnurlError "database error", db, [ev], None)
                      | (None, db) =>
                          (writeJSON 200 [("pr", JString (Invoice inv));
                                          ("routes", JEmptyArray)],
                           db, [ev],
                           Some {| task_pay_id := payID;
                                   task_credited_msats := credited;
                                   task_payment_hash := PaymentHash inv |})
                      end
                  end
          end
    end.

(** *** The withdrawal callback *)

(** The inputs of one run of the withdrawal callback: the clock, the
    gateway's answer to [PayInvoice] and the faults of the store at each of
    its uses. *)
Record WithdrawEnv : Type := {
  w_now : Time;
  w_session_faults : SessionFaults;
  w_get_voucher_fault : option error;
  w_pay : option error;
  w_deactivate_fault : option error;
  w_begin_fault : option error;
  w_deactivate_tx_fault : option error;
  w_commit_fault : option error
}.

(** The end of [handleLNURLWithdrawCallback], from the call of
    [blitziClient.PayInvoice] on: the payment of the invoice [pr] and what
    follows from its outcome for the voucher [payID]. *)
Definition withdraw_pay (env : WithdrawEnv) (payID pr : string) (db : DB)
  : Response * DB * list Event :=
  match w_pay env with
  | Some err =>
      if outcome_unknown err then
        (* Unknown outcome: deactivate to prevent a double pay. *)
        let '(_, db) := DeactivateVoucher (w_deactivate_fault env) payID db in
        (lnurlError "payment timed out", db,
         [EvPayInvoice pr; EvDeactivateVoucher payID])
      else
        (* Definitive failure: the voucher stays active. *)
        (lnurlError "payment failed", db, [EvPayInvoice pr])
  | None =>
      (* Payment succeeded: deactivate the voucher. *)
      match w_begin_fault env with
      | Some _ => (statusOK, db, [EvPayInvoice pr])
      | None =>
          match DeactivateVoucherTx (w_deactivate_tx_fault env) payID db with
          | (Some _, _) =>
              (statusOK, db, [EvPayInvoice pr; EvDeactivateVoucher payID])
          | (None, db1) =>
              match w_commit_fault env with
              | Some _ =>
                  (statusOK, db, [EvPayInvoice pr; EvDeactivateVoucher payID])
              | None =>
                  (statusOK, db1, [EvPayInvoice pr; EvDeactivateVoucher payID])
              end
          end
      end
  end.

(** [handleLNURLWithdrawCallback]. *)
Definition handleLNURLWithdrawCallback (cfg : Config) (env : WithdrawEnv)
  (withdrawID k1 pr : string) (db : DB) : Response * DB * list Event :=
  if String.eqb k1 "" || String.eqb pr "" then
    (lnurlError "missing k1 or pr parameter", db, [])
  else
    (* Validate k1 and mark it used atomically; get the payID. *)
    match ValidateAndUseWithdrawSession (w_session_faults env) (w_now env)
            k1 withdrawID db with
    | (Err err, db) =>
        (lnurlError ("invalid or already-used k1: " ++ Error err)%string, db, [])
    | (Ok payID, db) =>
        (* Re-check voucher active + balance. *)
        match GetVoucherByWithdrawID (w_get_voucher_fault env) withdrawID db with
        | Err _ => (lnurlError "voucher not found", db, [])
        | Ok v =>
            if negb (IsActive cfg (w_now env) v) then
              (lnurlError "voucher is not active", db, [])
            else if TotalPaidMsats v <=? 0 then
              (lnurlError "voucher has no balance", db, [])
            else withdraw_pay env payID pr db
        end
    end.

(** *** The refund job *)

(** The inputs of the refund of one voucher: the network and the faults of
    the two writes. *)
Record RefundEnv : Type := {
  j_deactivate_fault : option error;
  j_network : Network;
  j_reactivate_fault : option error
}.

(** The body of the loop of [runRefundJob], for the voucher [v]. *)
Definition refundVoucher (env : RefundEnv) (v : Voucher) (db : DB)
  : DB * list Event :=
  (* Deactivate before paying. *)
  match DeactivateVoucher (j_deactivate_fault env) (PayID v) db with
  | (Some _, db) => (db, [EvDeactivateVoucher (PayID v)])
  | (None, db) =>
      match RefundToLightningAddress (j_network env) (LightningAddress v)
              (TotalPaidMsats v) with
      | (Some err, tr) =>
          if outcome_unknown err then
            (* Unknown outcome: keep deactivated. *)
            (db, EvDeactivateVoucher (PayID v) :: tr)
          else
            (* Definitive failure: restore the voucher. *)
            let '(_, db) :=
              ReactivateVoucher (j_reactivate_fault env) (PayID v)
                (TotalPaidMsats v) db in
            (db, EvDeactivateVoucher (PayID v) :: tr
                 ++ [EvReactivateVoucher (PayID v) (TotalPaidMsats v)])
      | (None, tr) => (db, EvDeactivateVoucher (PayID v) :: tr)
      end
  end.

Fixpoint refund_loop (envs : Voucher -> RefundEnv) (expired : list Voucher)
  (db : DB) : DB * list Event :=
  match expired with
  | [] => (db, [])
  | v :: rest =>
      let '(db, tr) := refundVoucher (envs v) v db in
      let '(db, tr') := refund_loop envs rest db in
      (db, tr ++ tr')
  end.

(** [runRefundJob]. *)
Definition runRefundJob (cfg : Config) (now : Time)
  (query_fault : option error) (envs : Voucher -> RefundEnv) (db : DB)
  : option error * DB * list Event :=
  match GetExpiredVouchersForRefund cfg now query_fault db with
  | Err e => (Some (ErrWrap "GetExpiredVouchersForRefund: " e), db, [])
  | Ok expired =>
      let '(db, tr) := refund_loop envs expired db in
      (None, db, tr)
  end.

End Handlers.

(** ** The gateway client ([BlitziClient]) *)

Module Blitzi.

(** What happened to one HTTP request of [BlitziClient.do]: the request
    could not be built, [c.http.Do] failed, the body could not be read, or
    the gateway answered. *)
Inductive HTTPExchange : Type :=
| RequestInvalid (e : error)
| TransportFailed (e : error)
| BodyUnreadable (e : error)
| Responded (status : Z) (body : string).

(** [BlitziClient.do]. *)
Definition do (method path : string) (x : HTTPExchange) : result string :=
  match x with
  | RequestInvalid e => Err e
  | TransportFailed e =>
      Err (ErrWrap ("blitzi " ++ method ++ " " ++ path ++ ": ")%string e)
  | BodyUnreadable e => Err (ErrWrap "read blitzi response: " e)
  | Responded status body =>
      if 400 <=? status then
        Err (ErrMsg ("blitzi " ++ method ++ " " ++ path ++ " status "
                     ++ fmt_d status ++ ": " ++ body)%string)
      else Ok body
  end.

(** [BlitziClient.PayInvoice]; [decode] is [json.Unmarshal] into the
    struct with the fields [success] and [error] ([None]: not that JSON). *)
Definition PayInvoice (decode : string -> option (bool * string))
  (x : HTTPExchange) : option error :=
  match do "POST" "/pay" x with
  | Err e => Some e
  | Ok resp =>
      match decode resp with
      | None => None
      | Some (success, errtext) =>
          if negb success && negb (String.eqb errtext "") then
            Some (ErrMsg ("blitzi pay error: " ++ errtext)%string)
          else None
      end
  end.

End Blitzi.

(** ** The other flows of handlers.go and the reads of db.go they use *)

Module Flows.
Import Store Handlers.

(** [GetVouchersByCreationHash]: the rows of the batch, in rowid order. *)
Definition GetVouchersByCreationHash (fault : option error) (hash : string)
  (db : DB) : result (list Voucher) :=
  match fault with
  | Some e => Err e
  | None =>
      Ok (map scanVoucher
            (filter (fun r => match creation_request_hash r with
                              | Some h => String.eqb h hash
                              | None => false
                              end)
                    (vouchers db)))
  end.

(** [GetCreationRequest]. *)
Definition GetCreationRequest (fault : option error) (paymentHash : string)
  (db : DB) : result CreationRow :=
  match fault with
  | Some e => Err e
  | None =>
      match find (fun c => String.eqb (cr_payment_hash c) paymentHash)
              (creation_requests db) with
      | Some c => Ok c
      | None => Err ErrNoRows
      end
  end.

(** [hex.EncodeToString]. *)
Definition hex_digit (n : Z) : ascii :=
  match String.get (Z.to_nat n) "0123456789abcdef" with
  | Some c => c
  | None => "0"%char
  end.

Fixpoint hex_EncodeToString (src : list Z) : string :=
  match src with
  | [] => EmptyString
  | b :: rest =>
      String (hex_digit (Z.shiftr b 4))
        (String (hex_digit (Z.land b 15)) (hex_EncodeToString rest))
  end.

(** [lnurlEncoded, _ := EncodeLNURL(u)]: the error is dropped. *)
Definition encode_ignoring_error (u : string) : string :=
  match Bech32.EncodeLNURL u with
  | Some (Ok s) => s
  | _ => EmptyString
  end.

(** *** LNURL-Pay, step 1 *)

(** The raw string [[["text/plain","Tip via TipMe"]]]. *)
Definition payMetadata : string :=
  let q := String (Ascii.ascii_of_nat 34) EmptyString in
  ("[[" ++ q ++ "text/plain" ++ q ++ "," ++ q ++ "Tip via TipMe" ++ q ++ "]]")%string.

(** [handleLNURLPay]. *)
Definition handleLNURLPay (cfg : Config) (now : Time) (fault : option error)
  (payID : string) (db : DB) : Response :=
  match GetVoucherByPayID fault payID db with
  | Err _ => lnurlError "voucher not found"
  | Ok v =>
      if negb (IsActive cfg now v) then lnurlError "voucher is not active"
      else
        let payURL := (BaseURL cfg ++ "/pay/" ++ payID)%string in
        let lnurlEncoded := encode_ignoring_error payURL in
        let callbackURL := (BaseURL cfg ++ "/pay/" ++ payID ++ "/callback")%string in
        let infoURL := (BaseURL cfg ++ "/pay/info?lightning=" ++ lnurlEncoded)%string in
        writeJSON 200
          [("tag", JString "payRequest");
           ("callback", JString callbackURL);
           ("minSendable", JNumber (wrap64 (MinVoucherPayAmountSats cfg * 1000)));
           ("maxSendable", JNumber (wrap64 (MaxVoucherPayAmountSats cfg * 1000)));
           ("metadata", JString payMetadata);
           ("url", JString infoURL)]
  end.

(** *** The detached task of the funding callback *)

(** The inputs of one run of the task: what [WaitForPayment] returned, the
    clock, the faults of the store at [Begin], at the read, at the two
    statements of [CreditVoucherTx] and at [Commit], and the network of the
    refund. *)
Record CreditEnv : Type := {
  c_wait : option error;
  c_now : Time;
  c_begin_fault : option error;
  c_get_voucher_fault : option error;
  c_credit_fault : option error;
  c_mark_paid_fault : option error;
  c_commit_fault : option error;
  c_network : Network
}.

(** The goroutine [handleLNURLPayCallback] starts: wait for the payment,
    then credit the voucher if it is still active, else refund the payer. *)
Definition creditTask (cfg : Config) (env : CreditEnv) (task : CreditTask)
  (db : DB) : DB * list Event :=
  match c_wait env with
  | Some _ => (db, [])
  | None =>
      match c_begin_fault env with
      | Some _ => (db, [])
      | None =>
          match GetVoucherByPayID (c_get_voucher_fault env) (task_pay_id task) db with
          | Err _ => (db, [])
          | Ok voucher =>
              if IsActive cfg (c_now env) voucher then
                (* Still active: credit it. *)
                match CreditVoucherTx (c_credit_fault env) (c_mark_paid_fault env)
                        (c_now env) (task_pay_id task)
                        (task_credited_msats task) (task_payment_hash task) db with
                | (Some _, _) => (db, [])
                | (None, db1) =>
                    match c_commit_fault env with
                    | Some _ => (db, [])
                    | None => (db1, [])
                    end
                end
              else
                (* The voucher became inactive: refund the payer. *)
                let '(_, tr) :=
                  RefundToLightningAddress (c_network env)
                    (LightningAddress voucher) (task_credited_msats task) in
                (db, tr)
          end
      end
  end.

(** *** LNURL-Withdraw, step 1 *)

(** The inputs of one run: the clock, the 32 bytes of [rand.Read] and the
    faults of the store. *)
Record WithdrawInfoEnv : Type := {
  i_now : Time;
  i_get_voucher_fault : option error;
  i_rand : result (list Z);
  i_insert_fault : option error
}.

(** [handleLNURLWithdraw]. *)
Definition handleLNURLWithdraw (cfg : Config) (env : WithdrawInfoEnv)
  (withdrawID : string) (db : DB) : Response * DB :=
  match GetVoucherByWithdrawID (i_get_voucher_fault env) withdrawID db with
  | Err _ => (lnurlError "voucher not found", db)
  | Ok v =>
      if negb (IsActive cfg (i_now env) v) then
        (lnurlError "voucher is not active", db)
      else if TotalPaidMsats v <=? 0 then
        (lnurlError "voucher has no balance", db)
      else
        match i_rand env with
        | Err _ => (lnurlError "internal error", db)
        | Ok k1Bytes =>
            let k1 := hex_EncodeToString k1Bytes in
            match InsertWithdrawSession (i_insert_fault env) (i_now env)
                    k1 withdrawID db with
            | (Some _, db) => (lnurlError "database error", db)
            | (None, db) =>
                let withURL := (BaseURL cfg ++ "/withdraw/" ++ withdrawID)%string in
                let lnurlEncoded := encode_ignoring_error withURL in
                let callbackURL :=
                  (BaseURL cfg ++ "/withdraw/" ++ withdrawID ++ "/callback")%string in
                let infoURL :=
                  (BaseURL cfg ++ "/withdraw/info?lightning=" ++ lnurlEncoded)%string in
                let balance := TotalPaidMsats v in
                (writeJSON 200
                   [("tag", JString "withdrawRequest");
                    ("callback", JString callbackURL);
                    ("k1", JString k1);
                    ("defaultDescription", JString "TipMe withdrawal");
                    ("minWithdrawable", JNumber balance);
                    ("maxWithdrawable", JNumber balance);
                    ("url", JString infoURL)],
                 db)
            end
        end
  end.

(** *** Voucher creation *)

(** The JSON body of [POST /api/vouchers/invoice]. *)
Record createInvoiceRequest : Type := {
  req_lightning_address : string;
  req_count : Z;
  req_expiry_seconds : Z
}.

(** The detached task [handleCreateInvoice] starts. *)
Record CreationTask : Type := {
  ct_payment_hash : string;
  ct_lightning_address : string;
  ct_count : Z;
  ct_expiry_seconds : Z
}.

(** The inputs of one run of [handleCreateInvoice]: the clock,
    [lightningAddressRE.MatchString], the gateway's answer to
    [CreateInvoice] and the fault of the insertion. *)
Record CreateEnv : Type := {
  ce_now : Time;
  ce_address_matches : string -> bool;
  ce_create_invoice : result BlitziInvoice;
  ce_insert_fault : option error
}.

(** [handleCreateInvoice]; [body] is the decoded request ([None]: the body
    is not that JSON). *)
Definition handleCreateInvoice (cfg : Config) (env : CreateEnv)
  (body : option createInvoiceRequest) (db : DB)
  : Response * DB * list Event * option CreationTask :=
  match body with
  | None => (writeJSON 400 [("error", JString "invalid JSON")], db, [], None)
  | Some req =>
      if negb (ce_address_matches env (req_lightning_address req)) then
        (writeJSON 400 [("error", JString "invalid lightning_address")],
         db, [], None)
      else if (req_count req <? 1) || (MaxVouchersPerRequest cfg <? req_count req)
      then
        (writeJSON 400
           [("error", JString ("count must be between 1 and "
                               ++ fmt_d (MaxVouchersPerRequest cfg))%string)],
         db, [], None)
      else
        let expirySeconds :=
          if req_expiry_seconds req <=? 0 then DefaultRelativeExpirySecs cfg
          else req_expiry_seconds req in
        let feeSats := wrap64 (FeePerVoucherSats cfg * req_count req) in
        let feeMsats := wrap64 (feeSats * 1000) in
        let ev :=
          EvCreateInvoice feeMsats
            ("TipMe: create " ++ fmt_d (req_count req) ++ " voucher(s)")%string in
        match ce_create_invoice env with
        | Err _ =>
            (writeJSON 502 [("error", JString "failed to create payment invoice")],
             db, [ev], None)
        | Ok inv =>
            match InsertCreationRequest (ce_insert_fault env) (ce_now env)
                    (PaymentHash inv) (req_lightning_address req)
                    (req_count req) expirySeconds feeMsats db with
            | (Some _, db) =>
                (writeJSON 500 [("error", JString "database error")],
                 db, [ev], None)
            | (None, db) =>
                (writeJSON 200
                   [("invoice", JString (Invoice inv));
                    ("payment_hash", JString (PaymentHash inv));
                    ("fee_sats", JNumber feeSats)],
                 db, [ev],
                 Some {| ct_payment_hash := PaymentHash inv;
                         ct_lightning_address := req_lightning_address req;
                         ct_count := req_count req;
                         ct_expiry_seconds := expirySeconds |})
            end
        end
  end.

(** The inputs of one run of the creation task: what [WaitForPayment]
    returned, the clock, the successive values of [uuid.New().String()] and
    the faults of the store. *)
Record CreationTaskEnv : Type := {
  t_wait : option error;
  t_now : Time;
  t_uuid : nat -> string;
  t_insert_fault : option error;
  t_status_fault : option error
}.

(** The goroutine of [handleCreateInvoice]: the [i]-th voucher takes the
    uuids number [2 * i] and [2 * i + 1]. *)
Definition creationTask (env : CreationTaskEnv) (task : CreationTask)
  (db : DB) : DB :=
  match t_wait env with
  | Some _ =>
      (* Timed out or cancelled. *)
      snd (UpdateCreationRequestStatus (t_status_fault env)
             (ct_payment_hash task) "expired" db)
  | None =>
      (* Payment confirmed: create the vouchers. *)
      let indices := seq 0 (Z.to_nat (ct_count task)) in
      let payIDs := map (fun i => t_uuid env (2 * i)%nat) indices in
      let withdrawIDs := map (fun i => t_uuid env (2 * i + 1)%nat) indices in
      match InsertVouchers (t_insert_fault env) (t_now env) payIDs withdrawIDs
              (ct_payment_hash task) (ct_lightning_address task)
              (ct_expiry_seconds task) db with
      | (Some _, db) =>
          snd (UpdateCreationRequestStatus (t_status_fault env)
                 (ct_payment_hash task) "expired" db)
      | (None, db) =>
          snd (UpdateCreationRequestStatus (t_status_fault env)
                 (ct_payment_hash task) "complete" db)
      end
  end.

End Flows.

(** ** Positional values, used to state the re-grouping of [convertBits] *)

(** The number written by the digits [l], most significant first, in base
    [2 ^ w], after the digits that already made [init]. *)
Definition digits_from (w : Z) (init : Z) (l : list Z) : Z :=
  fold_left (fun a v => a * 2 ^ w + v) l init.

Definition digits_val (w : Z) (l : list Z) : Z := digits_from w 0 l.

(** All elements of [l] are [w]-bit values. *)
Definition all_below (w : Z) (l : list Z) : Prop :=
  Forall (fun v => 0 <= v < 2 ^ w) l.

(** The charset symbols of a list of 5-bit values. *)
Fixpoint symbols (l : list Z) : string :=
  match l with
  | [] => EmptyString
  | c :: rest =>
      match String.get (Z.to_nat c) Bech32.bech32Charset with
      | Some ch => String ch (symbols rest)
      | None => symbols rest
      end
  end.

(** ** Predicates on the store used by the statements *)

(** The session [k1] exists and is marked used. *)
Definition session_used (k1 : string) (db : Store.DB) : Prop :=
  exists s, Store.find_session k1 db = Some s /\ Store.s_used s <> 0.

(** The keys the schema declares [PRIMARY KEY] or [UNIQUE] occur once. *)
Definition keys_unique (db : Store.DB) : Prop :=
  NoDup (map Store.pay_id (Store.vouchers db))
  /\ NoDup (map Store.withdraw_id (Store.vouchers db))
  /\ NoDup (map Store.s_k1 (Store.withdraw_sessions db))
  /\ NoDup (map Store.pi_id (Store.pay_invoices db))
  /\ NoDup (map Store.pi_payment_hash (Store.pay_invoices db))
  /\ NoDup (map Store.cr_payment_hash (Store.creation_requests db)).

(** The columns the schema declares [REFERENCES] name an existing row. *)
Definition references_valid (db : Store.DB) : Prop :=
  (forall s, In s (Store.withdraw_sessions db) ->
     In (Store.s_withdraw_id s) (map Store.withdraw_id (Store.vouchers db)))
  /\ (forall p, In p (Store.pay_invoices db) ->
        In (Store.pi_pay_id p) (map Store.pay_id (Store.vouchers db)))
  /\ (forall r h, In r (Store.vouchers db) ->
        Store.creation_request_hash r = Some h ->
        In h (map Store.cr_payment_hash (Store.creation_requests db))).

(** The columns of a voucher no statement of db.go updates. *)
Definition voucher_identity (r : Store.VoucherRow)
  : string * string * option string * string * Z * Z :=
  (Store.pay_id r, Store.withdraw_id r, Store.creation_request_hash r,
   Store.lightning_address r, Store.expiry_seconds r, Store.created_at r).

(** The row one [stmt.Exec] of [InsertVouchers] writes. *)
Definition new_voucher (now : Time) (creationHash address : string)
  (expirySecs : Z) (ids : string * string) : Store.VoucherRow := {|
  Store.pay_id := fst ids; Store.withdraw_id := snd ids;
  Store.creation_request_hash := Some creationHash;
  Store.lightning_address := address;
  Store.total_paid_msats := 0; Store.last_funded_at := None;
  Store.expiry_seconds := expirySecs; Store.active := 1;
  Store.created_at := Store.unix_seconds now
|}.

(** ** Concrete stores, vouchers and environments used by the examples *)

Module Examples.
Import Store Handlers.

(** A funded voucher, created at the epoch and funded 100 seconds later. *)
Definition voucher_example : Voucher := {|
  PayID := "p1"; WithdrawID := "w1"; CreationHash := "h1";
  LightningAddress := "alice@example.com";
  TotalPaidMsats := 48000; LastFundedAt := Some (100 * Second);
  ExpirySeconds := 2592000; Active := true; CreatedAt := 0
|}.

(** Its row. *)
Definition row_example : VoucherRow := {|
  pay_id := "p1"; withdraw_id := "w1"; creation_request_hash := Some "h1";
  lightning_address := "alice@example.com";
  total_paid_msats := 48000; last_funded_at := Some 100;
  expiry_seconds := 2592000; active := 1; created_at := 0
|}.

(** The voucher [voucher_example] with an expiry of 9223372037 seconds, one more than a
    [time.Duration] holds. *)
Definition voucher_long_expiry : Voucher := {|
  PayID := "p1"; WithdrawID := "w1"; CreationHash := "h1";
  LightningAddress := "alice@example.com";
  TotalPaidMsats := 48000; LastFundedAt := Some (100 * Second);
  ExpirySeconds := 9223372037; Active := true; CreatedAt := 0
|}.

(** A row created at the epoch and funded a few days before its first
    anniversary, and the store that holds it. *)
Definition row_boundary : VoucherRow := {|
  pay_id := "p1"; withdraw_id := "w1"; creation_request_hash := Some "h1";
  lightning_address := "alice@example.com";
  total_paid_msats := 48000; last_funded_at := Some 31000000;
  expiry_seconds := 2592000; active := 1; created_at := 0
|}.

Definition db_boundary : DB := {|
  vouchers := [row_boundary];
  withdraw_sessions := [];
  pay_invoices := [];
  creation_requests := []
|}.

(** A second voucher, never funded. *)
Definition row_other : VoucherRow := {|
  pay_id := "p2"; withdraw_id := "w2"; creation_request_hash := Some "h1";
  lightning_address := "bob@example.com";
  total_paid_msats := 0; last_funded_at := None;
  expiry_seconds := 2592000; active := 1; created_at := 0
|}.

(** A store with the two vouchers and three sessions: a fresh one and a
    used one for the first voucher, a fresh one for the second. *)
Definition db_example : DB := {|
  vouchers := [row_example; row_other];
  withdraw_sessions :=
    [{| s_k1 := "k1a"; s_withdraw_id := "w1"; s_created_at := 900;
        s_used := 0; s_used_at := None |};
     {| s_k1 := "k1b"; s_withdraw_id := "w1"; s_created_at := 800;
        s_used := 1; s_used_at := Some 850 |};
     {| s_k1 := "k1c"; s_withdraw_id := "w2"; s_created_at := 900;
        s_used := 0; s_used_at := None |}];
  pay_invoices := [];
  creation_requests := []
|}.

(** A run of the withdrawal callback at second 1000, with no fault of the
    store, in which the gateway answers [pay]. *)
Definition withdraw_env (pay : option error) : WithdrawEnv := {|
  w_now := 1000 * Second;
  w_session_faults := no_session_faults;
  w_get_voucher_fault := None;
  w_pay := pay;
  w_deactivate_fault := None;
  w_begin_fault := None;
  w_deactivate_tx_fault := None;
  w_commit_fault := None
|}.

(** The same, with the store failing at the [Commit] of the deactivation. *)
Definition withdraw_env_commit_fails : WithdrawEnv := {|
  w_now := 1000 * Second;
  w_session_faults := no_session_faults;
  w_get_voucher_fault := None;
  w_pay := None;
  w_deactivate_fault := None;
  w_begin_fault := None;
  w_deactivate_tx_fault := None;
  w_commit_fault := Some (ErrMsg "database is locked")
|}.

(** The gateway's timeout, as [BlitziClient.do] wraps it. *)
Definition err_timeout : error :=
  ErrWrap "blitzi POST /pay: " ErrDeadlineExceeded.

(** A rejection by the gateway. *)
Definition err_rejected : error := ErrMsg "blitzi pay error: no route".

(** A network in which every lightning address resolves to an endpoint
    with the given bounds, every callback returns an invoice and the
    gateway answers [pay]. *)
Definition network_example (minSendable maxSendable : Z) (pay : option error)
  : Network := {|
  http_lnurlp := fun _ =>
    Ok {| Callback := "https://example.com/cb";
          MinSendable := minSendable; MaxSendable := maxSendable |};
  http_callback := fun _ _ => Ok "lnbc-refund";
  pay_invoice := fun _ => pay
|}.

Definition refund_env (pay : option error) : RefundEnv := {|
  j_deactivate_fault := None;
  j_network := network_example 1000 100000000 pay;
  j_reactivate_fault := None
|}.

(** A run of the funding callback at second 1000: the amount parameter
    "50000" scans as 50000, the gateway issues an invoice. *)
Definition pay_env : PayEnv := {|
  p_now := 1000 * Second;
  p_sscan := fun s => if String.eqb s "50000" then Some 50000 else None;
  p_get_voucher_fault := None;
  p_create_invoice := Ok {| PaymentHash := "hash1"; Invoice := "lnbc-fund" |};
  p_invoice_id := "inv1";
  p_insert_fault := None
|}.

End Examples.

(** ** Further concrete stores and environments *)

Module FlowExamples.
Import Store Handlers Flows Examples.

(** The store [db_example] with the creation request of its vouchers. *)
Definition db_funded : DB := {|
  vouchers := vouchers db_example;
  withdraw_sessions := withdraw_sessions db_example;
  pay_invoices := [];
  creation_requests :=
    [{| cr_payment_hash := "h1";
        cr_lightning_address := "alice@example.com";
        cr_count := 2; cr_expiry_seconds := 2592000;
        cr_fee_msats := 20000; cr_status := "complete";
        cr_created_at := 0 |}]
|}.

(** A run of the first step of a withdrawal at second 1000, with no fault
    of the store; [rand.Read] fills the 32 bytes with 0xab. *)
Definition withdraw_info_env : WithdrawInfoEnv := {|
  i_now := 1000 * Second;
  i_get_voucher_fault := None;
  i_rand := Ok (repeat 171 32);
  i_insert_fault := None
|}.

(** A run of the task of the funding callback at the instant [now]: the
    payment was confirmed, the store does not fail, refunds go through the
    network of the examples. *)
Definition credit_env (now : Time) : CreditEnv := {|
  c_wait := None;
  c_now := now;
  c_begin_fault := None;
  c_get_voucher_fault := None;
  c_credit_fault := None;
  c_mark_paid_fault := None;
  c_commit_fault := None;
  c_network := network_example 1000 100000000 None
|}.

(** The task of a payment of 50,000 msats to the first voucher, and that of
    a later, smaller payment. *)
Definition credit_task : CreditTask := {|
  task_pay_id := "p1"; task_credited_msats := 47800;
  task_payment_hash := "hash1"
|}.

Definition credit_task_small : CreditTask := {|
  task_pay_id := "p1"; task_credited_msats := 1000;
  task_payment_hash := "hash2"
|}.

(** A request for three vouchers with the default expiry, and a run of
    [handleCreateInvoice] on it: the address matches, the gateway issues an
    invoice, the store does not fail. *)
Definition create_request : createInvoiceRequest := {|
  req_lightning_address := "carol@example.com";
  req_count := 3;
  req_expiry_seconds := 0
|}.

Definition create_env : CreateEnv := {|
  ce_now := 1000 * Second;
  ce_address_matches := fun _ => true;
  ce_create_invoice := Ok {| PaymentHash := "h2"; Invoice := "lnbc-create" |};
  ce_insert_fault := None
|}.

(** The task of a creation request for two vouchers, and a run of it: the
    payment is confirmed, the store does not fail, the uuids are u0, u1,
    ... *)
Definition creation_task : CreationTask := {|
  ct_payment_hash := "h1";
  ct_lightning_address := "alice@example.com";
  ct_count := 2;
  ct_expiry_seconds := 2592000
|}.

Definition creation_env : CreationTaskEnv := {|
  t_wait := None;
  t_now := 1000 * Second;
  t_uuid := fun i => ("u" ++ fmt_d (Z.of_nat i))%string;
  t_insert_fault := None;
  t_status_fault := None
|}.

End FlowExamples.

(* ================================================================== *)
(** * Part II: proofs *)
(* ================================================================== *)

(** ** Machine integers *)

Lemma pow2_pos (n : Z) : 0 <= n -> 0 < 2 ^ n.
Proof. intros; apply Z.pow_pos_nonneg; lia. Qed.

(** The low [n] bits of an [int] are those of the unbounded value. *)
Lemma wrap64_mod_pow2 (n z : Z) :
  0 <= n <= 64 -> wrap64 z mod 2 ^ n = z mod 2 ^ n.
Proof.
  intros Hn. unfold wrap64.
  rewrite (Z.mod_eq (z + 2 ^ 63) (2 ^ 64)) by (apply Z.pow_nonzero; lia).
  replace (2 ^ 64) with (2 ^ (64 - n) * 2 ^ n)
    by (rewrite <- Z.pow_add_r by lia; f_equal; lia).
  set (q := (z + 2 ^ 63) / (2 ^ (64 - n) * 2 ^ n)).
  replace (z + 2 ^ 63 - 2 ^ (64 - n) * 2 ^ n * q - 2 ^ 63)
    with (z + (- (2 ^ (64 - n) * q)) * 2 ^ n) by ring.
  apply Z.mod_add. apply Z.pow_nonzero; lia.
Qed.

Lemma land_shiftl_low (a v k : Z) :
  0 <= k -> 0 <= v < 2 ^ k -> a mod 2 ^ k = 0 -> Z.land a v = 0.
Proof.
  intros Hk Hv Ha. apply Z.bits_inj'. intros n Hn.
  rewrite Z.land_spec, Z.bits_0.
  destruct (Z.lt_ge_cases n k) as [Hlt | Hge].
  - rewrite <- (Z.mod_pow2_bits_low a k n) by lia. rewrite Ha, Z.bits_0.
    reflexivity.
  - destruct (Z.eq_dec v 0) as [-> | Hnz].
    + rewrite Z.bits_0. apply andb_false_r.
    + assert (Z.log2 v < k) by (apply Z.log2_lt_pow2; lia).
      rewrite (Z.bits_above_log2 v n) by lia. apply andb_false_r.
Qed.

(** [|] adds when the operands share no bit. *)
Lemma lor_low_add (a v k : Z) :
  0 <= k -> 0 <= v < 2 ^ k -> a mod 2 ^ k = 0 -> Z.lor a v = a + v.
Proof.
  intros Hk Hv Ha.
  pose proof (land_shiftl_low a v k Hk Hv Ha) as Hland.
  rewrite <- Z.lxor_lor by exact Hland.
  symmetry. apply Z.add_nocarry_lxor. exact Hland.
Qed.

Lemma lxor_low_add (a v k : Z) :
  0 <= k -> 0 <= v < 2 ^ k -> a mod 2 ^ k = 0 -> Z.lxor a v = a + v.
Proof.
  intros Hk Hv Ha. symmetry. apply Z.add_nocarry_lxor.
  exact (land_shiftl_low a v k Hk Hv Ha).
Qed.

Lemma lxor_bound (n a b : Z) :
  0 <= n -> 0 <= a < 2 ^ n -> 0 <= b < 2 ^ n -> 0 <= Z.lxor a b < 2 ^ n.
Proof.
  intros Hn Ha Hb.
  assert (Hnn : 0 <= Z.lxor a b) by (apply Z.lxor_nonneg; lia).
  split; [exact Hnn |].
  destruct (Z.eq_dec (Z.lxor a b) 0) as [-> | Hnz]; [apply pow2_pos; lia |].
  assert (0 < n).
  { destruct (Z.eq_dec n 0) as [-> | ?]; [| lia].
    exfalso. apply Hnz. change (2 ^ 0) with 1 in *.
    replace a with 0 by lia. replace b with 0 by lia. reflexivity. }
  apply Z.log2_lt_pow2; [lia |].
  pose proof (Z.log2_lxor a b ltac:(lia) ltac:(lia)) as Hl.
  assert (Z.log2 a < n).
  { destruct (Z.eq_dec a 0) as [-> | ?]; [simpl; lia |].
    apply Z.log2_lt_pow2; lia. }
  assert (Z.log2 b < n).
  { destruct (Z.eq_dec b 0) as [-> | ?]; [simpl; lia |].
    apply Z.log2_lt_pow2; lia. }
  lia.
Qed.

Lemma wrap64_small (z : Z) : - 2 ^ 63 <= z < 2 ^ 63 -> wrap64 z = z.
Proof. intros H. unfold wrap64. rewrite Z.mod_small; lia. Qed.

(** ** Positional values *)

Lemma digits_from_app (w init : Z) (l1 l2 : list Z) :
  digits_from w init (l1 ++ l2) = digits_from w (digits_from w init l1) l2.
Proof. unfold digits_from. apply fold_left_app. Qed.

Lemma digits_val_snoc (w : Z) (l : list Z) (d : Z) :
  digits_val w (l ++ [d]) = digits_val w l * 2 ^ w + d.
Proof. unfold digits_val. rewrite digits_from_app. reflexivity. Qed.

Lemma all_below_snoc (w : Z) (l : list Z) (d : Z) :
  all_below w l -> 0 <= d < 2 ^ w -> all_below w (l ++ [d]).
Proof.
  intros Hl Hd. apply Forall_app. split; [exact Hl |].
  constructor; [exact Hd | constructor].
Qed.

(** Two digit strings of the same length that write the same number are
    equal. *)
Lemma digits_val_inj (w : Z) (l1 : list Z) :
  0 <= w ->
  forall l2, List.length l1 = List.length l2 ->
  all_below w l1 -> all_below w l2 ->
  digits_val w l1 = digits_val w l2 -> l1 = l2.
Proof.
  intros Hw. induction l1 as [| x l1 IH] using rev_ind; intros l2 Hlen H1 H2 Hv.
  - destruct l2; [reflexivity | discriminate].
  - destruct l2 as [| y l2 _] using rev_ind.
    + rewrite length_app in Hlen. simpl in Hlen. lia.
    + rewrite !length_app in Hlen. simpl in Hlen.
      apply Forall_app in H1 as [H1 Hx]. apply Forall_app in H2 as [H2 Hy].
      inversion Hx as [| ? ? Hx' _]; subst. inversion Hy as [| ? ? Hy' _]; subst.
      rewrite !digits_val_snoc in Hv.
      pose proof (pow2_pos w Hw) as Hp.
      assert (digits_val w l1 = digits_val w l2 /\ x = y) as [Hd ->].
      { set (a := digits_val w l1) in *. set (b := digits_val w l2) in *.
        set (p := 2 ^ w) in *.
        assert (Ha : a = (a * p + x) / p)
          by (apply (Z.div_unique (a * p + x) p a x); [left; lia | ring]).
        assert (Hb : b = (b * p + y) / p)
          by (apply (Z.div_unique (b * p + y) p b y); [left; lia | ring]).
        assert (a = b) by (rewrite Ha, Hb, Hv; reflexivity).
        split; [assumption | nia]. }
      f_equal. apply IH; [lia | assumption | assumption | exact Hd].
Qed.

(** ** [convertBits] *)

Section ConvertBits.
Import Bech32.

Variables fromBits toBits : Z.
Hypothesis Hfrom : 1 <= fromBits <= 8.
Hypothesis Hto : 1 <= toBits <= 8.

Lemma pow2_le_256 (n : Z) : 0 <= n <= 8 -> 0 < 2 ^ n <= 256.
Proof.
  intros Hn. split; [apply pow2_pos; lia |].
  change 256 with (2 ^ 8). apply Z.pow_le_mono_r; lia.
Qed.

Lemma maxv_ones : wrap64 (wrap64 (Z.shiftl 1 toBits) - 1) = Z.ones toBits.
Proof.
  rewrite Z.shiftl_1_l, Z.ones_equiv.
  pose proof (pow2_le_256 toBits ltac:(lia)).
  rewrite (wrap64_small (2 ^ toBits)) by lia.
  rewrite wrap64_small by lia. lia.
Qed.

(** The group written by one iteration of the inner loop. *)
Lemma group_value (acc bits : Z) :
  0 <= bits ->
  to_byte (Z.land (Z.shiftr acc bits) (Z.ones toBits))
  = (acc / 2 ^ bits) mod 2 ^ toBits.
Proof.
  intros Hb. rewrite Z.land_ones by lia. rewrite Z.shiftr_div_pow2 by lia.
  unfold to_byte. apply Z.mod_small.
  pose proof (pow2_le_256 toBits ltac:(lia)).
  pose proof (Z.mod_pos_bound (acc / 2 ^ bits) (2 ^ toBits) ltac:(lia)). lia.
Qed.

Lemma emit_groups_spec (fuel : nat) (acc : Z) :
  forall bits result,
  0 <= bits -> bits <= Z.of_nat fuel -> all_below toBits result ->
  exists bits' result',
    emit_groups fuel acc bits toBits (Z.ones toBits) result
      = Some (bits', result')
    /\ 0 <= bits' < toBits
    /\ all_below toBits result'
    /\ digits_val toBits result' * 2 ^ bits' + acc mod 2 ^ bits'
       = digits_val toBits result * 2 ^ bits + acc mod 2 ^ bits
    /\ Z.of_nat (List.length result') * toBits + bits'
       = Z.of_nat (List.length result) * toBits + bits.
Proof.
  induction fuel as [| fuel IH]; intros bits result Hb Hfuel Hres;
    simpl; destruct (Z.leb_spec toBits bits) as [Hge | Hlt].
  - lia.
  - exists bits, result. repeat split; try assumption; lia.
  - set (d := to_byte (Z.land (Z.shiftr acc (bits - toBits)) (Z.ones toBits))).
    assert (Hd : d = (acc / 2 ^ (bits - toBits)) mod 2 ^ toBits)
      by (apply group_value; lia).
    pose proof (pow2_pos toBits ltac:(lia)) as Hpt.
    pose proof (pow2_pos (bits - toBits) ltac:(lia)) as Hpb.
    destruct (IH (bits - toBits) (result ++ [d])) as (b' & r' & E & Hb' & Hr' & Hv & Hl).
    + lia.
    + lia.
    + apply all_below_snoc; [exact Hres |]. rewrite Hd.
      apply Z.mod_pos_bound. lia.
    + exists b', r'. split; [exact E |]. split; [exact Hb' |].
      split; [exact Hr' |]. split.
      * rewrite Hv, digits_val_snoc.
        replace (2 ^ bits) with (2 ^ (bits - toBits) * 2 ^ toBits)
          by (rewrite <- Z.pow_add_r by lia; f_equal; lia).
        rewrite Z.rem_mul_r by lia. rewrite Hd. ring.
      * rewrite Hl, length_app. simpl. lia.
  - exists bits, result. repeat split; try assumption; lia.
Qed.

(** The accumulator after one more input value, seen through its low
    [bits + fromBits] bits. *)
Lemma acc_step (acc bits v : Z) :
  0 <= bits <= 8 -> 0 <= v < 2 ^ fromBits ->
  Z.lor (wrap64 (Z.shiftl acc fromBits)) v mod 2 ^ (bits + fromBits)
  = (acc mod 2 ^ bits) * 2 ^ fromBits + v.
Proof.
  intros Hb Hv.
  pose proof (pow2_pos fromBits ltac:(lia)) as Hpf.
  pose proof (pow2_pos bits ltac:(lia)) as Hpb.
  rewrite Z.shiftl_mul_pow2 by lia.
  rewrite (lor_low_add _ v fromBits); [| lia | exact Hv |].
  2:{ rewrite wrap64_mod_pow2 by lia. apply Z.mod_mul. lia. }
  rewrite <- Z.add_mod_idemp_l by (apply Z.pow_nonzero; lia).
  rewrite wrap64_mod_pow2 by lia.
  rewrite Z.pow_add_r by lia.
  rewrite Z.mul_mod_distr_r by lia.
  apply Z.mod_small.
  pose proof (Z.mod_pos_bound acc (2 ^ bits) Hpb). nia.
Qed.

Lemma convert_loop_spec (data : list Z) :
  forall acc bits result,
  all_below fromBits data -> 0 <= bits < toBits -> all_below toBits result ->
  exists acc' bits' result',
    convert_loop data fromBits toBits (Z.ones toBits) acc bits result
      = Some (acc', bits', result')
    /\ 0 <= bits' < toBits
    /\ all_below toBits result'
    /\ digits_val toBits result' * 2 ^ bits' + acc' mod 2 ^ bits'
       = digits_from fromBits
           (digits_val toBits result * 2 ^ bits + acc mod 2 ^ bits) data
    /\ Z.of_nat (List.length result') * toBits + bits'
       = Z.of_nat (List.length result) * toBits + bits
         + fromBits * Z.of_nat (List.length data).
Proof.
  induction data as [| v rest IH]; intros acc bits result Hdata Hb Hres.
  - exists acc, bits, result. simpl. repeat split; try assumption; lia.
  - inversion Hdata as [| ? ? Hv Hrest]; subst. simpl.
    set (acc1 := Z.lor (wrap64 (Z.shiftl acc fromBits)) v).
    destruct (emit_groups_spec (Z.to_nat (bits + fromBits)) acc1
                (bits + fromBits) result)
      as (b2 & r2 & E & Hb2 & Hr2 & Hv2 & Hl2); [lia | lia | exact Hres |].
    rewrite E.
    destruct (IH acc1 b2 r2 Hrest Hb2 Hr2) as (a3 & b3 & r3 & E3 & Hb3 & Hr3 & Hv3 & Hl3).
    exists a3, b3, r3. split; [exact E3 |]. split; [exact Hb3 |].
    split; [exact Hr3 |]. split.
    + rewrite Hv3, Hv2. unfold acc1. rewrite acc_step by lia.
      unfold digits_from. simpl. f_equal.
      rewrite Z.pow_add_r by lia. ring.
    + rewrite Hl3, Hl2. simpl List.length. lia.
Qed.

(** The last, partial group: the low [bits] bits of the accumulator moved
    to the top of a [toBits]-bit group. *)
Lemma pad_value (acc bits : Z) :
  0 <= bits < toBits ->
  to_byte (Z.land (wrap64 (Z.shiftl acc (toBits - bits))) (Z.ones toBits))
  = (acc mod 2 ^ bits) * 2 ^ (toBits - bits).
Proof.
  intros Hb.
  pose proof (pow2_le_256 toBits ltac:(lia)) as Hpt.
  pose proof (pow2_pos bits ltac:(lia)) as Hpb.
  pose proof (pow2_pos (toBits - bits) ltac:(lia)) as Hpd.
  rewrite Z.land_ones by lia. rewrite wrap64_mod_pow2 by lia.
  rewrite Z.shiftl_mul_pow2 by lia.
  replace (2 ^ toBits) with (2 ^ bits * 2 ^ (toBits - bits))
    by (rewrite <- Z.pow_add_r by lia; f_equal; lia).
  rewrite Z.mul_mod_distr_r by lia.
  unfold to_byte. apply Z.mod_small.
  pose proof (Z.mod_pos_bound acc (2 ^ bits) Hpb).
  assert (2 ^ bits * 2 ^ (toBits - bits) <= 256).
  { rewrite <- Z.pow_add_r by lia.
    replace (bits + (toBits - bits)) with toBits by lia. lia. }
  nia.
Qed.

(** Re-grouping with padding keeps the number written by the data, shifted
    left by the [p] padding bits. *)
Lemma convertBits_pad (data : list Z) :
  all_below fromBits data ->
  exists out p,
    convertBits data fromBits toBits true = Some (Ok out)
    /\ all_below toBits out
    /\ 0 <= p < toBits
    /\ digits_val toBits out = digits_val fromBits data * 2 ^ p
    /\ Z.of_nat (List.length out) * toBits
       = fromBits * Z.of_nat (List.length data) + p.
Proof.
  intros Hdata. unfold convertBits. rewrite maxv_ones.
  destruct (convert_loop_spec data 0 0 [] Hdata ltac:(lia) (Forall_nil _))
    as (acc & bits & res & E & Hb & Hres & Hv & Hl).
  rewrite E. cbn [digits_val digits_from fold_left] in Hv.
  change (2 ^ 0) with 1 in Hv. rewrite Z.mod_1_r in Hv.
  simpl (0 * 1 + 0) in Hv. fold (digits_val fromBits data) in Hv.
  simpl List.length in Hl.
  destruct (Z.ltb_spec 0 bits) as [Hpos | Hzero].
  - exists (res ++ [to_byte (Z.land (wrap64 (Z.shiftl acc (toBits - bits)))
                                     (Z.ones toBits))]), (toBits - bits).
    rewrite pad_value by lia.
    pose proof (pow2_pos bits ltac:(lia)) as Hpb.
    pose proof (pow2_pos (toBits - bits) ltac:(lia)) as Hpd.
    pose proof (Z.mod_pos_bound acc (2 ^ bits) Hpb) as Hm.
    assert (Hsplit : 2 ^ toBits = 2 ^ bits * 2 ^ (toBits - bits)).
    { rewrite <- Z.pow_add_r by lia. f_equal. lia. }
    split; [reflexivity |]. split.
    { apply all_below_snoc; [exact Hres |]. rewrite Hsplit. nia. }
    split; [lia |]. split.
    + rewrite digits_val_snoc, <- Hv, Hsplit. ring.
    + rewrite length_app. simpl List.length. lia.
  - exists res, 0. assert (bits = 0) by lia. subst bits.
    change (2 ^ 0) with 1 in *. rewrite Z.mod_1_r in Hv.
    split; [reflexivity |]. split; [exact Hres |]. split; [lia |].
    split; lia.
Qed.

(** Re-grouping without padding gives back the digit string [s] whose
    number, followed by [p] zero bits, the data writes. *)
Lemma convertBits_unpad (data s : list Z) (p : Z) :
  all_below fromBits data -> all_below toBits s ->
  0 <= p < fromBits -> p < toBits ->
  digits_val fromBits data = digits_val toBits s * 2 ^ p ->
  fromBits * Z.of_nat (List.length data)
    = Z.of_nat (List.length s) * toBits + p ->
  convertBits data fromBits toBits false = Some (Ok s).
Proof.
  intros Hdata Hs Hp Hpt Hval Hlen. unfold convertBits. rewrite maxv_ones.
  destruct (convert_loop_spec data 0 0 [] Hdata ltac:(lia) (Forall_nil _))
    as (acc & bits & res & E & Hb & Hres & Hv & Hl).
  rewrite E. cbn [digits_val digits_from fold_left] in Hv.
  change (2 ^ 0) with 1 in Hv. rewrite Z.mod_1_r in Hv.
  simpl (0 * 1 + 0) in Hv. fold (digits_val fromBits data) in Hv.
  simpl List.length in Hl.
  assert (Hbits : bits = p /\ List.length res = List.length s).
  { assert (Z.of_nat (List.length res) = Z.of_nat (List.length s)) by nia.
    split; [nia | lia]. }
  destruct Hbits as [-> Hlen'].
  pose proof (pow2_pos p ltac:(lia)) as Hpp.
  pose proof (Z.mod_pos_bound acc (2 ^ p) Hpp) as Hm.
  rewrite Hval in Hv.
  assert (Hdv : digits_val toBits res = digits_val toBits s /\ acc mod 2 ^ p = 0).
  { set (a := digits_val toBits res) in *. set (b := digits_val toBits s) in *.
    set (r := acc mod 2 ^ p) in *. set (q := 2 ^ p) in *.
    assert (Ha : a = (a * q + r) / q)
      by (apply (Z.div_unique (a * q + r) q a r); [left; lia | ring]).
    assert (Hb' : b = (b * q) / q) by (rewrite Z.div_mul; lia).
    assert (a = b) by (rewrite Ha, Hb', Hv; reflexivity).
    split; [assumption | nia]. }
  destruct Hdv as [Hd Hr].
  destruct (Z.leb_spec fromBits p) as [Hge | _]; [lia |].
  pose proof (pad_value acc p ltac:(lia)) as Hpad. rewrite Hr in Hpad.
  simpl in Hpad. unfold to_byte in Hpad.
  assert (Hz : Z.land (wrap64 (Z.shiftl acc (toBits - p))) (Z.ones toBits) = 0).
  { pose proof (pow2_le_256 toBits ltac:(lia)).
    rewrite Z.land_ones in * by lia.
    rewrite Z.mod_small in Hpad; [exact Hpad |].
    pose proof (Z.mod_pos_bound (wrap64 (Z.shiftl acc (toBits - p)))
                  (2 ^ toBits) ltac:(lia)). lia. }
  rewrite Hz. simpl. do 2 f_equal. symmetry.
  apply (digits_val_inj toBits s); [lia | lia | exact Hs | exact Hres |].
  symmetry. exact Hd.
Qed.

End ConvertBits.

(** Eight-to-five re-grouping with padding, then five-to-eight without, is
    the identity on byte strings. *)
Lemma convertBits_roundtrip (s : list Z) :
  all_below 8 s ->
  exists out,
    Bech32.convertBits s 8 5 true = Some (Ok out)
    /\ all_below 5 out
    /\ Bech32.convertBits out 5 8 false = Some (Ok s).
Proof.
  intros Hs.
  destruct (convertBits_pad 8 5 ltac:(lia) ltac:(lia) s Hs)
    as (out & p & E & Hout & Hp & Hv & Hl).
  exists out. split; [exact E |]. split; [exact Hout |].
  apply (convertBits_unpad 5 8 ltac:(lia) ltac:(lia) out s p);
    try assumption; lia.
Qed.

(** ** The checksum *)

Section Polymod.
Import Bech32.

Lemma polymod_taps_lxor (idx : list nat) (top : Z) :
  forall x y,
  polymod_taps idx top (Z.lxor x y) = Z.lxor (polymod_taps idx top x) y.
Proof.
  induction idx as [| i rest IH]; intros x y; simpl; [reflexivity |].
  destruct (Z.land (Z.shiftr top (Z.of_nat i)) 1 =? 1).
  - rewrite <- IH. f_equal.
    rewrite !Z.lxor_assoc. f_equal. apply Z.lxor_comm.
  - apply IH.
Qed.

Lemma polymod_taps_bound (idx : list nat) (top : Z) :
  forall x, 0 <= x < 2 ^ 30 -> 0 <= polymod_taps idx top x < 2 ^ 30.
Proof.
  induction idx as [| i rest IH]; intros x Hx; simpl; [exact Hx |].
  destruct (Z.land (Z.shiftr top (Z.of_nat i)) 1 =? 1); [| apply IH; exact Hx].
  apply IH. apply lxor_bound; [lia | exact Hx |].
  destruct i as [| [| [| [| [| i]]]]]; simpl; try lia.
  destruct i; simpl; lia.
Qed.

(** The shifted part of a step: below [2 ^ 30], so [uint32] does not wrap. *)
Lemma shifted_part (c : Z) :
  u32 (Z.shiftl (Z.land c 0x1ffffff) 5) = (c mod 2 ^ 25) * 32
  /\ 0 <= (c mod 2 ^ 25) * 32 < 2 ^ 30.
Proof.
  change 0x1ffffff with (Z.ones 25). rewrite Z.land_ones by lia.
  rewrite Z.shiftl_mul_pow2 by lia. change (2 ^ 5) with 32.
  pose proof (Z.mod_pos_bound c (2 ^ 25) ltac:(lia)) as Hm.
  unfold u32. split; [apply Z.mod_small |]; lia.
Qed.

Lemma polymod_step_bound (c v : Z) :
  0 <= v < 2 ^ 30 -> 0 <= polymod_step c v < 2 ^ 30.
Proof.
  intros Hv. unfold polymod_step. apply polymod_taps_bound.
  destruct (shifted_part c) as [-> Hb]. apply lxor_bound; [lia | exact Hb | exact Hv].
Qed.

Lemma fold_polymod_bound (values : list Z) :
  forall c, 0 <= c < 2 ^ 30 -> all_below 8 values ->
  0 <= fold_left polymod_step values c < 2 ^ 30.
Proof.
  induction values as [| v rest IH]; intros c Hc Hall; simpl; [exact Hc |].
  inversion Hall as [| ? ? Hv Hrest]; subst.
  apply IH; [| exact Hrest].
  apply polymod_step_bound. change (2 ^ 8) with 256 in Hv. lia.
Qed.

Lemma bech32Polymod_bound (values : list Z) :
  all_below 8 values -> 0 <= bech32Polymod values < 2 ^ 30.
Proof. intros H. apply fold_polymod_bound; [lia | exact H]. Qed.

(** Feeding the value [v] after xoring [e] (below [2 ^ 25]) into the
    state: both come out xored into the result of feeding zero. *)
Lemma polymod_step_lxor (c e v : Z) :
  0 <= e < 2 ^ 25 -> 0 <= v < 32 ->
  polymod_step (Z.lxor c e) v = Z.lxor (polymod_step c 0) (e * 32 + v).
Proof.
  intros He Hv. unfold polymod_step.
  assert (Htop : Z.shiftr (Z.lxor c e) 25 = Z.shiftr c 25).
  { rewrite Z.shiftr_lxor. rewrite (Z.shiftr_div_pow2 e) by lia.
    rewrite Z.div_small by lia. apply Z.lxor_0_r. }
  rewrite Htop.
  assert (Hlow : Z.land (Z.lxor c e) 0x1ffffff
                 = Z.lxor (Z.land c 0x1ffffff) e).
  { apply Z.bits_inj'. intros n Hn.
    rewrite Z.lxor_spec, !Z.land_spec, Z.lxor_spec.
    change 0x1ffffff with (Z.ones 25).
    destruct (Z.lt_ge_cases n 25) as [Hlt | Hge].
    - rewrite Z.ones_spec_low by lia. rewrite !andb_true_r. reflexivity.
    - rewrite Z.ones_spec_high by lia. rewrite !andb_false_r.
      destruct (Z.eq_dec e 0) as [-> | Hnz]; [rewrite Z.bits_0; reflexivity |].
      assert (Z.log2 e < 25) by (apply Z.log2_lt_pow2; lia).
      rewrite (Z.bits_above_log2 e n) by lia. reflexivity. }
  rewrite Hlow, Z.shiftl_lxor.
  destruct (shifted_part c) as [Hs Hsb].
  assert (Hu : u32 (Z.lxor (Z.shiftl (Z.land c 0x1ffffff) 5) (Z.shiftl e 5))
               = Z.lxor (u32 (Z.shiftl (Z.land c 0x1ffffff) 5)) (e * 32)).
  { rewrite Hs. change 0x1ffffff with (Z.ones 25).
    rewrite Z.land_ones by lia. rewrite !Z.shiftl_mul_pow2 by lia.
    change (2 ^ 5) with 32. unfold u32. apply Z.mod_small.
    pose proof (lxor_bound 30 (c mod 2 ^ 25 * 32) (e * 32)
                  ltac:(lia) Hsb ltac:(lia)). lia. }
  rewrite Hu, Z.lxor_0_r.
  rewrite (Z.lxor_assoc _ (e * 32) v).
  rewrite (lxor_low_add (e * 32) v 5); [| lia | change (2 ^ 5) with 32; lia |].
  2:{ change (2 ^ 5) with 32. apply Z.mod_mul. lia. }
  apply polymod_taps_lxor.
Qed.

(** Six symbols fed after the state [c] come out, as the number they
    write in base 32, xored into the result of feeding six zeros. *)
Lemma polymod_six (c d0 d1 d2 d3 d4 d5 : Z) :
  0 <= d0 < 32 -> 0 <= d1 < 32 -> 0 <= d2 < 32 ->
  0 <= d3 < 32 -> 0 <= d4 < 32 -> 0 <= d5 < 32 ->
  fold_left polymod_step [d0; d1; d2; d3; d4; d5] c
  = Z.lxor (fold_left polymod_step [0; 0; 0; 0; 0; 0] c)
           (digits_val 5 [d0; d1; d2; d3; d4; d5]).
Proof.
  intros H0 H1 H2 H3 H4 H5. cbn [fold_left digits_val digits_from].
  change (2 ^ 5) with 32.
  rewrite <- (Z.lxor_0_r c) at 1.
  rewrite (polymod_step_lxor c 0 d0) by lia.
  rewrite polymod_step_lxor by lia.
  rewrite polymod_step_lxor by lia.
  rewrite polymod_step_lxor by lia.
  rewrite polymod_step_lxor by lia.
  rewrite polymod_step_lxor by lia.
  reflexivity.
Qed.

(** A checksum symbol is a 5-bit value. *)
Lemma five_bit (x : Z) : 0 <= to_byte (Z.land x 31) < 32.
Proof.
  change 31 with (Z.ones 5). rewrite Z.land_ones by lia.
  change (2 ^ 5) with 32. unfold to_byte.
  pose proof (Z.mod_pos_bound x 32 ltac:(lia)).
  rewrite Z.mod_small; lia.
Qed.

(** The list of the six checksum symbols of [pm]. *)
Lemma checksum_symbols_eq (pm : Z) :
  map (fun i => to_byte (Z.land (Z.shiftr pm (5 * (5 - Z.of_nat i))) 31))
      (seq 0 6)
  = [to_byte (Z.land (Z.shiftr pm 25) 31); to_byte (Z.land (Z.shiftr pm 20) 31);
     to_byte (Z.land (Z.shiftr pm 15) 31); to_byte (Z.land (Z.shiftr pm 10) 31);
     to_byte (Z.land (Z.shiftr pm 5) 31); to_byte (Z.land (Z.shiftr pm 0) 31)].
Proof. reflexivity. Qed.

(** The six checksum symbols are the base-32 digits of [pm]. *)
Lemma checksum_digits (pm : Z) :
  0 <= pm < 2 ^ 30 ->
  digits_val 5
    [to_byte (Z.land (Z.shiftr pm 25) 31); to_byte (Z.land (Z.shiftr pm 20) 31);
     to_byte (Z.land (Z.shiftr pm 15) 31); to_byte (Z.land (Z.shiftr pm 10) 31);
     to_byte (Z.land (Z.shiftr pm 5) 31); to_byte (Z.land (Z.shiftr pm 0) 31)]
  = pm.
Proof.
  intros Hpm. cbn [digits_val digits_from fold_left].
  change 31 with (Z.ones 5). rewrite !Z.land_ones by lia.
  rewrite !Z.shiftr_div_pow2 by lia. unfold to_byte.
  change (2 ^ 25) with 33554432. change (2 ^ 20) with 1048576.
  change (2 ^ 15) with 32768. change (2 ^ 10) with 1024.
  change (2 ^ 5) with 32. change (2 ^ 0) with 1.
  change (2 ^ 30) with 1073741824 in Hpm.
  Z.div_mod_to_equations. lia.
Qed.

End Polymod.

Section Checksum.
Import Bech32.

Lemma all_below_mono (w w' : Z) (l : list Z) :
  0 <= w <= w' -> all_below w l -> all_below w' l.
Proof.
  intros Hw. apply Forall_impl. intros v Hv.
  assert (2 ^ w <= 2 ^ w') by (apply Z.pow_le_mono_r; lia). lia.
Qed.

Lemma bytes_of_string_below (s : string) : all_below 8 (bytes_of_string s).
Proof.
  unfold bytes_of_string, all_below. apply Forall_forall. intros v Hin.
  apply in_map_iff in Hin as (c & <- & _).
  pose proof (nat_ascii_bounded c). change (2 ^ 8) with 256. lia.
Qed.

Lemma bech32HRPExpand_below (hrp : string) :
  all_below 8 (bech32HRPExpand hrp).
Proof.
  unfold bech32HRPExpand.
  pose proof (bytes_of_string_below hrp) as Hb. unfold all_below in *.
  rewrite Forall_forall in Hb. change (2 ^ 8) with 256 in *.
  apply Forall_app. split; [| apply Forall_app; split].
  - apply Forall_forall. intros v Hin. apply in_map_iff in Hin as (c & <- & Hc).
    specialize (Hb c Hc). rewrite Z.shiftr_div_pow2 by lia.
    change (2 ^ 5) with 32. Z.div_mod_to_equations. lia.
  - repeat constructor; lia.
  - apply Forall_forall. intros v Hin. apply in_map_iff in Hin as (c & <- & Hc).
    change 31 with (Z.ones 5). rewrite Z.land_ones by lia.
    change (2 ^ 5) with 32. Z.div_mod_to_equations. lia.
Qed.

Lemma bech32CreateChecksum_below (hrp : string) (data : list Z) :
  all_below 5 (bech32CreateChecksum hrp data).
Proof.
  unfold bech32CreateChecksum. rewrite checksum_symbols_eq.
  unfold all_below. change (2 ^ 5) with 32.
  repeat (constructor; [apply five_bit |]). constructor.
Qed.

Lemma bech32CreateChecksum_length (hrp : string) (data : list Z) :
  List.length (bech32CreateChecksum hrp data) = 6%nat.
Proof.
  unfold bech32CreateChecksum. rewrite checksum_symbols_eq. reflexivity.
Qed.

(** The checksum makes the polymod of prefix, data and checksum equal 1:
    what a decoder verifies. *)
Lemma checksum_verifies (hrp : string) (data : list Z) :
  all_below 5 data ->
  bech32Polymod (bech32HRPExpand hrp ++ data ++ bech32CreateChecksum hrp data)
  = 1.
Proof.
  intros Hd. unfold bech32CreateChecksum. rewrite checksum_symbols_eq.
  remember (fold_left polymod_step (bech32HRPExpand hrp ++ data) 1) as c eqn:Hc.
  assert (Hcb : 0 <= c < 2 ^ 30).
  { subst c. apply fold_polymod_bound; [lia |]. apply Forall_app. split.
    - apply bech32HRPExpand_below.
    - apply (all_below_mono 5 8); [lia | exact Hd]. }
  assert (Hpm0 : bech32Polymod ((bech32HRPExpand hrp ++ data) ++ [0; 0; 0; 0; 0; 0])
                 = fold_left polymod_step [0; 0; 0; 0; 0; 0] c)
    by (unfold bech32Polymod; rewrite fold_left_app, <- Hc; reflexivity).
  rewrite Hpm0.
  remember (fold_left polymod_step [0; 0; 0; 0; 0; 0] c) as z eqn:Hz.
  assert (Hzb : 0 <= z < 2 ^ 30).
  { subst z. apply fold_polymod_bound; [exact Hcb |]. repeat constructor; lia. }
  remember (Z.lxor z 1) as pm eqn:Hpm.
  assert (Hpmb : 0 <= pm < 2 ^ 30)
    by (subst pm; apply lxor_bound; [lia | exact Hzb | lia]).
  unfold bech32Polymod. rewrite app_assoc, fold_left_app, <- Hc.
  rewrite polymod_six by apply five_bit.
  rewrite <- Hz, checksum_digits by exact Hpmb.
  subst pm. rewrite <- Z.lxor_assoc, Z.lxor_nilpotent. reflexivity.
Qed.

End Checksum.

(** ** Strings of charset symbols *)

Section Symbols.
Import Bech32 Bech32Decode.

Lemma string_of_bytes_of_string (s : string) :
  string_of_bytes (bytes_of_string s) = s.
Proof.
  unfold string_of_bytes, bytes_of_string. rewrite map_map.
  rewrite <- (string_of_list_ascii_of_string s) at 2. f_equal.
  rewrite <- (map_id (list_ascii_of_string s)) at 2.
  apply map_ext. intros c. rewrite Nat2Z.id. apply ascii_nat_embedding.
Qed.

(** Every 5-bit value has a charset symbol, which maps back to the value, is
    not the separator and is left alone by upper-casing then lower-casing. *)
Lemma symbol_facts (c : Z) :
  0 <= c < 32 ->
  exists ch,
    String.get (Z.to_nat c) bech32Charset = Some ch
    /\ charset_index bech32Charset 0 ch = Some c
    /\ Ascii.eqb ch "1"%char = false
    /\ lower_ascii (upper_ascii ch) = ch.
Proof.
  intros Hc.
  assert (Hn : (Z.to_nat c < 32)%nat) by lia.
  assert (Hc' : c = Z.of_nat (Z.to_nat c)) by lia.
  revert Hn Hc'. generalize (Z.to_nat c). intros n Hn ->. clear Hc.
  do 32 (destruct n as [| n];
         [eexists; split; [reflexivity | repeat split; reflexivity] |]).
  lia.
Qed.

Lemma append_assoc_one (sb : string) (ch : ascii) (t : string) :
  ((sb ++ String ch EmptyString) ++ t)%string = (sb ++ String ch t)%string.
Proof. induction sb as [| a sb IH]; simpl; [reflexivity | rewrite IH; reflexivity]. Qed.

Lemma append_empty_r (sb : string) : (sb ++ "")%string = sb.
Proof. induction sb as [| a sb IH]; simpl; [reflexivity | rewrite IH; reflexivity]. Qed.

Lemma write_symbols_spec (l : list Z) :
  forall sb, all_below 5 l ->
  write_symbols l sb = Ok (sb ++ symbols l)%string.
Proof.
  induction l as [| c rest IH]; intros sb Hl; cbn [write_symbols symbols].
  - rewrite append_empty_r. reflexivity.
  - inversion Hl as [| ? ? Hc Hrest]; subst. change (2 ^ 5) with 32 in Hc.
    destruct (symbol_facts c Hc) as (ch & Hget & _).
    change (Z.of_nat (String.length bech32Charset)) with 32.
    destruct (Z.leb_spec 32 c); [lia |].
    rewrite Hget. rewrite IH by exact Hrest.
    rewrite append_assoc_one. reflexivity.
Qed.

Lemma ToLower_ToUpper_symbols (l : list Z) :
  all_below 5 l -> ToLower (ToUpper (symbols l)) = symbols l.
Proof.
  induction 1 as [| c rest Hc _ IH]; cbn [symbols]; [reflexivity |].
  change (2 ^ 5) with 32 in Hc.
  destruct (symbol_facts c Hc) as (ch & Hget & _ & _ & Hcase).
  rewrite Hget. cbn [ToUpper ToLower]. rewrite Hcase, IH. reflexivity.
Qed.

Lemma split_last_one_symbols (l : list Z) :
  all_below 5 l -> split_last_one (symbols l) = None.
Proof.
  induction 1 as [| c rest Hc _ IH]; cbn [symbols]; [reflexivity |].
  change (2 ^ 5) with 32 in Hc.
  destruct (symbol_facts c Hc) as (ch & Hget & _ & Hone & _).
  rewrite Hget. cbn [split_last_one]. rewrite IH, Hone. reflexivity.
Qed.

Lemma decode_symbols_symbols (l : list Z) :
  all_below 5 l -> decode_symbols (symbols l) = Some l.
Proof.
  induction 1 as [| c rest Hc _ IH]; cbn [symbols]; [reflexivity |].
  change (2 ^ 5) with 32 in Hc.
  destruct (symbol_facts c Hc) as (ch & Hget & Hidx & _).
  rewrite Hget. cbn [decode_symbols]. rewrite Hidx, IH. reflexivity.
Qed.

End Symbols.

(** ** The LNURL codec round trip *)

(** C8: for every byte string [s], [EncodeLNURL s] returns a string [e] that
    begins with "LNURL1" (the upper-cased "lnurl1", the symbols of the 5-bit
    re-grouping of [s] and the 6 checksum symbols), and [DecodeLNURL e]
    returns [s]. *)
Theorem lnurl_roundtrip (s : string) :
  exists e converted,
    Bech32.EncodeLNURL s = Some (Ok e)
    /\ Bech32.convertBits (bytes_of_string s) 8 5 true = Some (Ok converted)
    /\ e = ToUpper ("lnurl1" ++
                    symbols (converted ++
                             Bech32.bech32CreateChecksum "lnurl" converted))%string
    /\ List.length (Bech32.bech32CreateChecksum "lnurl" converted) = 6%nat
    /\ (exists rest, e = ("LNURL1" ++ rest)%string)
    /\ Bech32Decode.DecodeLNURL e = Some (Ok s).
Proof.
  destruct (convertBits_roundtrip (bytes_of_string s) (bytes_of_string_below s))
    as (converted & Henc & Hconv & Hdec).
  set (checksum := Bech32.bech32CreateChecksum "lnurl" converted).
  assert (Hcs : all_below 5 checksum)
    by apply bech32CreateChecksum_below.
  assert (Hall : all_below 5 (converted ++ checksum))
    by (apply Forall_app; split; assumption).
  exists (ToUpper ("lnurl1" ++ symbols (converted ++ checksum))%string), converted.
  split.
  { unfold Bech32.EncodeLNURL. rewrite Henc. fold checksum.
    rewrite write_symbols_spec by exact Hall. reflexivity. }
  split; [exact Henc |]. split; [reflexivity |].
  split; [apply bech32CreateChecksum_length |].
  split; [eexists; reflexivity |].
  unfold Bech32Decode.DecodeLNURL.
  assert (Hlow : ToLower (ToUpper ("lnurl1" ++ symbols (converted ++ checksum))%string)
                 = ("lnurl1" ++ symbols (converted ++ checksum))%string).
  { simpl. rewrite ToLower_ToUpper_symbols by exact Hall. reflexivity. }
  rewrite Hlow.
  assert (Hsplit : Bech32Decode.split_last_one
                     ("lnurl1" ++ symbols (converted ++ checksum))%string
                   = Some ("lnurl", symbols (converted ++ checksum))).
  { simpl. rewrite split_last_one_symbols by exact Hall. reflexivity. }
  rewrite Hsplit, decode_symbols_symbols by exact Hall.
  unfold checksum at 1. rewrite checksum_verifies by exact Hconv.
  simpl negb. cbv iota.
  assert (Hlen : List.length (converted ++ checksum)
                 = (List.length converted + 6)%nat)
    by (rewrite length_app; unfold checksum;
        rewrite bech32CreateChecksum_length; reflexivity).
  rewrite Hlen.
  destruct (Nat.ltb_spec (List.length converted + 6) 6) as [Hlt | _]; [lia |].
  replace (List.length converted + 6 - 6)%nat with (List.length converted + 0)%nat by lia.
  rewrite firstn_app_2. simpl firstn. rewrite app_nil_r.
  rewrite Hdec. rewrite string_of_bytes_of_string. reflexivity.
Qed.

(** A known vector (LUD-01) and the empty string. *)
Example EncodeLNURL_lud01 :
  Bech32.EncodeLNURL
    "https://service.com/api?q=3fc3645b439ce8e7f2553a69e5267081d96dcd340693afabe04be7b0ccd178df"
  = Some (Ok "LNURL1DP68GURN8GHJ7UM9WFMXJCM99E3K7MF0V9CXJ0M385EKVCENXC6R2C35XVUKXEFCV5MKVV34X5EKZD3EV56NYD3HXQURZEPEXEJXXEPNXSCRVWFNV9NXZCN9XQ6XYEFHVGCXXCMYXYMNSERXFQ5FNS").
Proof. vm_compute. reflexivity. Qed.

Example DecodeLNURL_mutated :
  Bech32Decode.DecodeLNURL "LNURL13MYVSU" = Some (Ok "")
  /\ Bech32Decode.DecodeLNURL "LNURL13MYVSV"
     = Some (Err (ErrMsg "invalid LNURL: checksum")).
Proof. split; vm_compute; reflexivity. Qed.

(** ** Expiry: [IsActive] and the refund query *)

Section Expiry.
Import Store Examples.

Lemma seconds_duration_fits (secs : Z) :
  duration_fits secs -> seconds_duration secs = secs * Second.
Proof. intros H. unfold seconds_duration. apply wrap64_small. exact H. Qed.

(** A product that wraps only gets smaller, unless it is below the least
    [int64]. *)
Lemma seconds_duration_le (secs : Z) :
  - 2 ^ 63 <= secs * Second -> seconds_duration secs <= secs * Second.
Proof.
  intros H. unfold seconds_duration, wrap64.
  pose proof (Z.mod_le (secs * Second + 2 ^ 63) (2 ^ 64) ltac:(lia) ltac:(lia)).
  lia.
Qed.

(** [IsActive] as a conjunction of comparisons. *)
Lemma IsActive_unfold (cfg : Config) (now : Time) (v : Voucher) :
  duration_fits (VoucherAbsoluteExpirySecs cfg) ->
  duration_fits (ExpirySeconds v) ->
  IsActive cfg now v
  = Active v
    && (now <=? CreatedAt v + VoucherAbsoluteExpirySecs cfg * Second)
    && match LastFundedAt v with
       | None => true
       | Some lastFunded => now <=? lastFunded + ExpirySeconds v * Second
       end.
Proof.
  intros Habs Hrel. unfold IsActive, Time_After, Time_Add.
  rewrite !seconds_duration_fits by assumption.
  destruct (Active v); simpl; [| reflexivity].
  rewrite Z.ltb_antisym.
  destruct (now <=? CreatedAt v + VoucherAbsoluteExpirySecs cfg * Second);
    simpl; [| reflexivity].
  destruct (LastFundedAt v) as [lastFunded |]; [| reflexivity].
  rewrite Z.ltb_antisym.
  destruct (now <=? lastFunded + ExpirySeconds v * Second); reflexivity.
Qed.

(** An active voucher has the flag set and is not past the deadlines
    [IsActive] computes, wrapped or not. *)
Lemma IsActive_true_bounds (cfg : Config) (now : Time) (v : Voucher) :
  IsActive cfg now v = true ->
  Active v = true
  /\ now <= CreatedAt v + seconds_duration (VoucherAbsoluteExpirySecs cfg)
  /\ forall lastFunded, LastFundedAt v = Some lastFunded ->
       now <= lastFunded + seconds_duration (ExpirySeconds v).
Proof.
  unfold IsActive, Time_After, Time_Add. intros H.
  destruct (Active v); simpl in H; [| discriminate].
  destruct (Z.ltb_spec
              (CreatedAt v + seconds_duration (VoucherAbsoluteExpirySecs cfg))
              now) as [| Habs]; [discriminate |].
  split; [reflexivity |]. split; [exact Habs |].
  intros lastFunded E. rewrite E in H.
  destruct (Z.ltb_spec (lastFunded + seconds_duration (ExpirySeconds v)) now)
    as [| Hrel]; [discriminate | exact Hrel].
Qed.

(** C7, as stated for every voucher, fails where the expiry does not fit a
    [time.Duration]: [time.Duration(v.ExpirySeconds) * time.Second] wraps in
    [int64].  An expiry of 9223372037 seconds, which [handleCreateInvoice]
    accepts, is a negative duration: one second after its funding the
    voucher satisfies the stated conjunction and [IsActive] is false. *)
Lemma IsActive_overflows :
  seconds_duration 9223372037 = -9223372036709551616
  /\ Active voucher_long_expiry
     && (101 * Second
         <=? CreatedAt voucher_long_expiry
             + VoucherAbsoluteExpirySecs defaultConfig * Second)
     && (101 * Second
         <=? 100 * Second + ExpirySeconds voucher_long_expiry * Second)
     = true
  /\ LastFundedAt voucher_long_expiry = Some (100 * Second)
  /\ IsActive defaultConfig (101 * Second) voucher_long_expiry = false.
Proof. repeat split; vm_compute; reflexivity. Qed.

(** C7, amended: when the two expiries are within the seconds a
    [time.Duration] can hold, [IsActive] is the conjunction of the active
    flag, of [now <= created_at + absolute_expiry] and, when the voucher was
    funded, of [now <= last_funded_at + expiry_seconds]; and it is false
    strictly after either deadline, whatever the flag, for every expiry
    that is not below the least duration (so for every non-negative one,
    however large). *)
Theorem IsActive_spec (cfg : Config) (now : Time) (v : Voucher) :
  (duration_fits (VoucherAbsoluteExpirySecs cfg) ->
   duration_fits (ExpirySeconds v) ->
   IsActive cfg now v
   = Active v
     && (now <=? CreatedAt v + VoucherAbsoluteExpirySecs cfg * Second)
     && match LastFundedAt v with
        | None => true
        | Some lastFunded => now <=? lastFunded + ExpirySeconds v * Second
        end)
  /\ (- 2 ^ 63 <= VoucherAbsoluteExpirySecs cfg * Second ->
      CreatedAt v + VoucherAbsoluteExpirySecs cfg * Second < now ->
      IsActive cfg now v = false)
  /\ (- 2 ^ 63 <= ExpirySeconds v * Second ->
      forall lastFunded,
      LastFundedAt v = Some lastFunded ->
      lastFunded + ExpirySeconds v * Second < now ->
      IsActive cfg now v = false).
Proof.
  split; [apply IsActive_unfold |]. split.
  - intros Hlow Hlate.
    destruct (IsActive cfg now v) eqn:Hactive; [| reflexivity].
    destruct (IsActive_true_bounds cfg now v Hactive) as (_ & Habs & _).
    pose proof (seconds_duration_le _ Hlow). lia.
  - intros Hlow lastFunded Hlf Hlate.
    destruct (IsActive cfg now v) eqn:Hactive; [| reflexivity].
    destruct (IsActive_true_bounds cfg now v Hactive) as (_ & _ & Hrel).
    specialize (Hrel lastFunded Hlf).
    pose proof (seconds_duration_le _ Hlow). lia.
Qed.

Lemma IsActive_spec_witness :
  duration_fits (VoucherAbsoluteExpirySecs defaultConfig)
  /\ duration_fits (ExpirySeconds voucher_example)
  /\ IsActive defaultConfig (2592101 * Second) voucher_example
     = Active voucher_example
       && (2592101 * Second
           <=? CreatedAt voucher_example
               + VoucherAbsoluteExpirySecs defaultConfig * Second)
       && (2592101 * Second
           <=? 100 * Second + ExpirySeconds voucher_example * Second)
  /\ IsActive defaultConfig (2592101 * Second) voucher_example = false
  /\ IsActive defaultConfig (31536001 * Second) voucher_long_expiry = false.
Proof.
  assert (H1 : duration_fits (VoucherAbsoluteExpirySecs defaultConfig))
    by (unfold duration_fits; simpl; lia).
  assert (H2 : duration_fits (ExpirySeconds voucher_example))
    by (unfold duration_fits; simpl; lia).
  split; [exact H1 |]. split; [exact H2 |].
  destruct (IsActive_spec defaultConfig (2592101 * Second) voucher_example)
    as (Heq & _ & Hrel).
  split; [exact (Heq H1 H2) |]. split.
  - apply (Hrel ltac:(unfold Second; simpl; lia) (100 * Second));
      [reflexivity | unfold Second; simpl; lia].
  - destruct (IsActive_spec defaultConfig (31536001 * Second) voucher_long_expiry)
      as (_ & Habs & _).
    apply Habs; unfold Second; simpl; lia.
Defined.

Lemma seconds_le (a now : Z) :
  a <= unix_seconds now <-> a * Second <= now.
Proof.
  unfold unix_seconds, Second. split; intros H.
  - Z.div_mod_to_equations. lia.
  - Z.div_mod_to_equations. lia.
Qed.

(** The rows the refund query selects have reached a deadline. *)
Lemma refund_selected_deadline (cfg : Config) (now : Time) (r : VoucherRow) :
  refund_selected cfg now r = true ->
  active r = 1 /\ 0 < total_paid_msats r
  /\ ((created_at r + VoucherAbsoluteExpirySecs cfg) * Second <= now
      \/ exists lastFunded,
           last_funded_at r = Some lastFunded
           /\ (lastFunded + expiry_seconds r) * Second <= now).
Proof.
  unfold refund_selected. intros H.
  apply andb_true_iff in H as [H Hexp]. apply andb_true_iff in H as [Hact Hbal].
  apply Z.eqb_eq in Hact. apply Z.ltb_lt in Hbal.
  split; [exact Hact |]. split; [exact Hbal |].
  apply orb_true_iff in Hexp as [Hrel | Habs].
  - destruct (last_funded_at r) as [lastFunded |]; [| discriminate].
    right. exists lastFunded. split; [reflexivity |].
    apply Z.leb_le in Hrel. apply seconds_le. lia.
  - left. apply Z.leb_le in Habs. apply seconds_le. lia.
Qed.

(** C10, as stated, fails at the instant of the deadline itself: the query
    compares with [>=], [IsActive] with a strict [After].  One year to the
    nanosecond after its creation, a funded voucher is both returned by
    [GetExpiredVouchersForRefund] and active. *)
Lemma expired_voucher_still_active :
  GetExpiredVouchersForRefund defaultConfig (31536000 * Second) None db_boundary
  = Ok [scanVoucher row_boundary]
  /\ refund_selected defaultConfig (31536000 * Second) row_boundary = true
  /\ IsActive defaultConfig (31536000 * Second) (scanVoucher row_boundary)
     = true.
Proof. repeat split; vm_compute; reflexivity. Qed.

(** A selected row is active at a time only if that time is exactly one of
    its deadlines, and at no later time; the expiries may exceed what a
    [time.Duration] holds, as long as they are not below the least one. *)
Lemma refund_selected_not_active (cfg : Config) (now : Time) (r : VoucherRow) :
  - 2 ^ 63 <= VoucherAbsoluteExpirySecs cfg * Second ->
  - 2 ^ 63 <= expiry_seconds r * Second ->
  refund_selected cfg now r = true ->
  (IsActive cfg now (scanVoucher r) = true ->
   now = (created_at r + VoucherAbsoluteExpirySecs cfg) * Second
   \/ exists lastFunded,
        last_funded_at r = Some lastFunded
        /\ now = (lastFunded + expiry_seconds r) * Second)
  /\ (forall later, now < later ->
      IsActive cfg later (scanVoucher r) = false).
Proof.
  intros Habs Hrel Hsel.
  destruct (refund_selected_deadline cfg now r Hsel) as (_ & _ & Hdead).
  pose proof (seconds_duration_le _ Habs) as Hwa.
  pose proof (seconds_duration_le _ Hrel) as Hwr.
  assert (Hspec : forall t,
    IsActive cfg t (scanVoucher r) = true ->
    t <= (created_at r + VoucherAbsoluteExpirySecs cfg) * Second
    /\ forall lastFunded, last_funded_at r = Some lastFunded ->
       t <= (lastFunded + expiry_seconds r) * Second).
  { intros t Ht.
    destruct (IsActive_true_bounds cfg t (scanVoucher r) Ht) as (_ & Hc & Hl).
    simpl in Hc, Hl. split; [lia |].
    intros lastFunded E. rewrite E in Hl.
    specialize (Hl (lastFunded * Second) eq_refl). lia. }
  split.
  - intros Hactive. destruct (Hspec now Hactive) as [Hc Hl].
    destruct Hdead as [Hd | (lastFunded & E & Hd)].
    + left. lia.
    + right. exists lastFunded. split; [exact E |]. specialize (Hl _ E). lia.
  - intros later Hlater.
    destruct (IsActive cfg later (scanVoucher r)) eqn:Hactive; [| reflexivity].
    exfalso. destruct (Hspec later Hactive) as [Hc Hl].
    destruct Hdead as [Hd | (lastFunded & E & Hd)].
    + lia.
    + specialize (Hl _ E). lia.
Qed.

(** C10, amended: every voucher [GetExpiredVouchersForRefund] returns is the
    scan of a row with the active flag set and a positive balance that has
    reached one of its deadlines; when neither expiry is below the least
    duration (so for all non-negative expiries, however large), [IsActive]
    is false for it at the time of the query unless that time is exactly a
    deadline, to the nanosecond, and it is false at every later time. *)
Theorem expired_vouchers_not_active (cfg : Config) (now : Time)
  (fault : option error) (db : DB) (expired : list Voucher) (v : Voucher) :
  GetExpiredVouchersForRefund cfg now fault db = Ok expired ->
  In v expired ->
  Active v = true /\ 0 < TotalPaidMsats v
  /\ (CreatedAt v + VoucherAbsoluteExpirySecs cfg * Second <= now
      \/ exists lastFunded,
           LastFundedAt v = Some lastFunded
           /\ lastFunded + ExpirySeconds v * Second <= now)
  /\ (- 2 ^ 63 <= VoucherAbsoluteExpirySecs cfg * Second ->
      - 2 ^ 63 <= ExpirySeconds v * Second ->
      (IsActive cfg now v = true ->
       now = CreatedAt v + VoucherAbsoluteExpirySecs cfg * Second
       \/ exists lastFunded,
            LastFundedAt v = Some lastFunded
            /\ now = lastFunded + ExpirySeconds v * Second)
      /\ (forall later, now < later -> IsActive cfg later v = false)).
Proof.
  intros Hq Hin. unfold GetExpiredVouchersForRefund in Hq.
  destruct fault; [discriminate |]. inversion Hq; subst expired. clear Hq.
  apply in_map_iff in Hin as (r & <- & Hr).
  apply filter_In in Hr as [_ Hsel].
  destruct (refund_selected_deadline cfg now r Hsel) as (Hact & Hbal & Hdead).
  split; [simpl; rewrite Hact; reflexivity |]. split; [exact Hbal |].
  split.
  - simpl. destruct Hdead as [Hd | (lastFunded & E & Hd)].
    + left. lia.
    + right. exists (lastFunded * Second). rewrite E. split; [reflexivity | lia].
  - intros Habs Hrel.
    destruct (refund_selected_not_active cfg now r Habs Hrel Hsel)
      as (Hnow & Hlater).
    split; [| exact Hlater].
    intros Hactive. simpl.
    destruct (Hnow Hactive) as [Hd | (lastFunded & E & Hd)].
    + left. lia.
    + right. exists (lastFunded * Second). rewrite E. split; [reflexivity | lia].
Qed.

Lemma expired_vouchers_not_active_witness :
  GetExpiredVouchersForRefund defaultConfig (31536000 * Second) None db_boundary
  = Ok [scanVoucher row_boundary]
  /\ In (scanVoucher row_boundary) [scanVoucher row_boundary]
  /\ - 2 ^ 63 <= VoucherAbsoluteExpirySecs defaultConfig * Second
  /\ - 2 ^ 63 <= ExpirySeconds (scanVoucher row_boundary) * Second
  /\ IsActive defaultConfig (31536000 * Second + 1) (scanVoucher row_boundary)
     = false.
Proof.
  assert (H1 : - 2 ^ 63 <= VoucherAbsoluteExpirySecs defaultConfig * Second)
    by (unfold Second; simpl; lia).
  assert (H2 : - 2 ^ 63 <= ExpirySeconds (scanVoucher row_boundary) * Second)
    by (unfold Second; simpl; lia).
  assert (H3 : GetExpiredVouchersForRefund defaultConfig (31536000 * Second)
                 None db_boundary = Ok [scanVoucher row_boundary])
    by reflexivity.
  assert (H4 : In (scanVoucher row_boundary) [scanVoucher row_boundary])
    by (left; reflexivity).
  split; [exact H3 |]. split; [exact H4 |]. split; [exact H1 |].
  split; [exact H2 |].
  destruct (expired_vouchers_not_active defaultConfig (31536000 * Second) None
              db_boundary _ (scanVoucher row_boundary) H3 H4)
    as (_ & _ & _ & Hrest).
  destruct (Hrest H1 H2) as (_ & Hlater).
  apply Hlater. lia.
Defined.

End Expiry.

(** ** Withdrawal sessions *)

Section Sessions.
Import Store Handlers.

Lemma find_map_same_key {A : Type} (p : A -> bool) (f : A -> A) (l : list A) :
  (forall x, p (f x) = p x) ->
  find p (map f l) = option_map f (find p l).
Proof.
  intros Hp. induction l as [| x l IH]; simpl; [reflexivity |].
  rewrite Hp. destruct (p x); [reflexivity | exact IH].
Qed.

Lemma find_app_found {A : Type} (p : A -> bool) (l l' : list A) (x : A) :
  find p l = Some x -> find p (l ++ l') = Some x.
Proof.
  induction l as [| y l IH]; simpl; [discriminate |].
  destruct (p y); [trivial | exact IH].
Qed.

Lemma find_session_mark_used (k1 k : string) (now : Time) (db : DB) :
  find_session k1 (mark_session_used k now db)
  = option_map
      (fun s => if String.eqb (s_k1 s) k
                then {| s_k1 := s_k1 s; s_withdraw_id := s_withdraw_id s;
                        s_created_at := s_created_at s; s_used := 1;
                        s_used_at := Some (unix_seconds now) |}
                else s)
      (find_session k1 db).
Proof.
  unfold find_session, mark_session_used. simpl.
  apply find_map_same_key. intros s. destruct (String.eqb (s_k1 s) k); reflexivity.
Qed.

Lemma vouchers_mark_used (k : string) (now : Time) (db : DB) :
  vouchers (mark_session_used k now db) = vouchers db.
Proof. reflexivity. Qed.

(** What a successful validation found and did. *)
Lemma validate_ok (faults : SessionFaults) (now : Time) (k1 withdrawID : string)
  (db db1 : DB) (payID : string) :
  ValidateAndUseWithdrawSession faults now k1 withdrawID db = (Ok payID, db1) ->
  exists s r,
    find_session k1 db = Some s
    /\ s_withdraw_id s = withdrawID
    /\ s_used s = 0
    /\ db1 = mark_session_used k1 now db
    /\ find_by_withdraw_id withdrawID db = Some r
    /\ pay_id r = payID.
Proof.
  unfold ValidateAndUseWithdrawSession. intros H.
  destruct (sf_begin faults); [discriminate |].
  destruct (sf_scan_session faults); [discriminate |].
  destruct (find_session k1 db) as [s |] eqn:Hs; [| discriminate].
  destruct (String.eqb (s_withdraw_id s) withdrawID) eqn:Hw; [| discriminate].
  destruct (Z.eqb_spec (s_used s) 0) as [Hu | Hu]; [| discriminate].
  simpl in H. destruct (sf_update faults); [discriminate |].
  destruct (sf_scan_voucher faults); [discriminate |].
  destruct (find_by_withdraw_id withdrawID (mark_session_used k1 now db))
    as [r |] eqn:Hr; [| discriminate].
  destruct (sf_commit faults); [discriminate |].
  inversion H; subst. exists s, r. apply String.eqb_eq in Hw.
  repeat split; try assumption; reflexivity.
Qed.

(** A failed validation leaves the store as it was. *)
Lemma validate_err (faults : SessionFaults) (now : Time) (k1 withdrawID : string)
  (db db1 : DB) (e : error) :
  ValidateAndUseWithdrawSession faults now k1 withdrawID db = (Err e, db1) ->
  db1 = db.
Proof.
  unfold ValidateAndUseWithdrawSession. intros H.
  repeat match type of H with
         | context [match ?x with _ => _ end] => destruct x
         end; inversion H; reflexivity.
Qed.

Lemma validate_ok_used (faults : SessionFaults) (now : Time)
  (k1 withdrawID : string) (db db1 : DB) (payID : string) :
  ValidateAndUseWithdrawSession faults now k1 withdrawID db = (Ok payID, db1) ->
  session_used k1 db1.
Proof.
  intros H. destruct (validate_ok _ _ _ _ _ _ _ H) as (s & r & Hs & _ & _ & -> & _).
  unfold session_used. rewrite find_session_mark_used, Hs. simpl.
  assert (Hk : String.eqb (s_k1 s) k1 = true).
  { unfold find_session in Hs. apply find_some in Hs. apply Hs. }
  rewrite Hk. eexists. split; [reflexivity |]. simpl. lia.
Qed.

(** A used session makes every validation of its [k1] fail, whatever the
    withdraw id and the faults. *)
Lemma validate_used_fails (faults : SessionFaults) (now : Time)
  (k1 withdrawID : string) (db : DB) :
  session_used k1 db ->
  exists e, ValidateAndUseWithdrawSession faults now k1 withdrawID db = (Err e, db)
    /\ (faults = no_session_faults ->
        e = ErrMsg "k1 mismatch" \/ e = ErrMsg "k1 already used").
Proof.
  intros (s & Hs & Hu). unfold ValidateAndUseWithdrawSession.
  destruct (sf_begin faults) as [e |] eqn:Hb.
  { exists e. split; [reflexivity |]. intros ->. discriminate. }
  destruct (sf_scan_session faults) eqn:Hscan.
  { eexists. split; [reflexivity |]. intros ->. discriminate. }
  rewrite Hs.
  destruct (String.eqb (s_withdraw_id s) withdrawID); simpl.
  - destruct (Z.eqb_spec (s_used s) 0); [contradiction |]. simpl.
    eexists. split; [reflexivity |]. intros _. right. reflexivity.
  - eexists. split; [reflexivity |]. intros _. left. reflexivity.
Qed.

(** No write of the store clears a used session. *)
Lemma run_op_session_used (op : StoreOp) (k1 : string) (db : DB) :
  session_used k1 db -> session_used k1 (run_op op db).
Proof.
  intros Hused.
  assert (Hsame : forall db', withdraw_sessions db' = withdraw_sessions db ->
                             session_used k1 db').
  { intros db' E. destruct Hused as (s & Hs & Hu). exists s.
    unfold find_session in *. rewrite E. split; assumption. }
  destruct op; simpl.
  - unfold InsertCreationRequest, exec.
    destruct (existsb _ _); simpl; [exact Hused | apply Hsame; reflexivity].
  - apply Hsame. reflexivity.
  - unfold InsertVouchers.
    destruct (insert_vouchers_loop now (combine payIDs withdrawIDs) creationHash
                address expirySecs db) as [[e |] db'] eqn:Hloop;
      simpl; [exact Hused |].
    apply Hsame. revert db Hloop Hused Hsame.
    induction (combine payIDs withdrawIDs) as [| [p w] ids IH];
      intros db Hloop Hused Hsame; simpl in Hloop.
    + inversion Hloop. reflexivity.
    + unfold insert_voucher in Hloop.
      destruct (existsb _ _ || negb _); [discriminate |].
      rewrite (IH _ Hloop); [reflexivity | |].
      * destruct Hused as (s & Hs & Hu). exists s. split; assumption.
      * intros db'' E. apply Hsame. rewrite E. reflexivity.
  - unfold CreditVoucherTx, exec. simpl. apply Hsame. reflexivity.
  - apply Hsame. reflexivity.
  - apply Hsame. reflexivity.
  - unfold InsertPayInvoice, exec.
    destruct (existsb _ _ || negb _); simpl; [exact Hused | apply Hsame; reflexivity].
  - unfold InsertWithdrawSession, exec.
    destruct (existsb _ _ || negb _); simpl; [exact Hused |].
    destruct Hused as (s & Hs & Hu). exists s. split; [| exact Hu].
    unfold find_session in *. simpl. apply find_app_found. exact Hs.
  - destruct (ValidateAndUseWithdrawSession no_session_faults now k0 withdrawID db)
      as [[payID | e] db'] eqn:Hv; simpl.
    + destruct (validate_ok _ _ _ _ _ _ _ Hv) as (s' & r & _ & _ & _ & -> & _).
      destruct Hused as (s & Hs & Hu). unfold session_used.
      rewrite find_session_mark_used, Hs. simpl.
      eexists. split; [reflexivity |].
      destruct (String.eqb (s_k1 s) k0); simpl; [lia | exact Hu].
    + rewrite (validate_err _ _ _ _ _ _ _ Hv). exact Hused.
Qed.

Lemma run_ops_session_used (ops : list StoreOp) (k1 : string) :
  forall db, session_used k1 db -> session_used k1 (run_ops ops db).
Proof.
  unfold run_ops. induction ops as [| op ops IH]; intros db H; simpl; [exact H |].
  apply IH. apply run_op_session_used. exact H.
Qed.

(** C1: once [ValidateAndUseWithdrawSession] has succeeded for [k1], then
    after any further writes of the store, a withdrawal callback that
    presents [k1] (for any withdraw id and invoice, and whatever the answers
    and faults of its environment) replies with an error and returns before
    [PayInvoice]: it calls nothing and changes nothing.  With both
    parameters present the error is the session error. *)
Theorem k1_used_at_most_once (cfg : Config) (faults : SessionFaults)
  (now : Time) (k1 withdrawID : string) (db db1 : DB) (payID : string) :
  ValidateAndUseWithdrawSession faults now k1 withdrawID db = (Ok payID, db1) ->
  forall (ops : list StoreOp) (env : WithdrawEnv) (withdrawID' pr : string),
  exists reason,
    handleLNURLWithdrawCallback cfg env withdrawID' k1 pr (run_ops ops db1)
    = (lnurlError reason, run_ops ops db1, [])
    /\ (k1 <> "" -> pr <> "" ->
        exists err,
          reason = ("invalid or already-used k1: " ++ Error err)%string
          /\ (w_session_faults env = no_session_faults ->
              err = ErrMsg "k1 mismatch" \/ err = ErrMsg "k1 already used")).
Proof.
  intros Hok ops env withdrawID' pr.
  pose proof (run_ops_session_used ops k1 db1 (validate_ok_used _ _ _ _ _ _ _ Hok))
    as Hused.
  destruct (validate_used_fails (w_session_faults env) (w_now env) k1 withdrawID'
              (run_ops ops db1) Hused) as (e & He & Hkind).
  unfold handleLNURLWithdrawCallback.
  destruct (String.eqb_spec k1 "") as [Hk | Hk].
  { eexists. split; [reflexivity |]. intros F. contradiction. }
  destruct (String.eqb_spec pr "") as [Hp | Hp].
  { eexists. split; [reflexivity |]. intros _ F. contradiction. }
  simpl. rewrite He. eexists. split; [reflexivity |].
  intros _ _. exists e. split; [reflexivity | exact Hkind].
Qed.

End Sessions.

(** ** The withdrawal callback *)

Section Withdraw.
Import Store Handlers.

Lemma find_by_withdraw_id_update (w p : string) (f : VoucherRow -> VoucherRow)
  (db : DB) :
  (forall r, withdraw_id (f r) = withdraw_id r) ->
  find_by_withdraw_id w (update_vouchers p f db)
  = option_map (fun r => if String.eqb (pay_id r) p then f r else r)
               (find_by_withdraw_id w db).
Proof.
  intros Hf. unfold find_by_withdraw_id, update_vouchers. simpl.
  apply find_map_same_key. intros r.
  destruct (String.eqb (pay_id r) p); [rewrite Hf |]; reflexivity.
Qed.

Lemma find_by_withdraw_id_deactivate (w : string) (db : DB) (r : VoucherRow) :
  find_by_withdraw_id w db = Some r ->
  find_by_withdraw_id w (update_vouchers (pay_id r) deactivated db)
  = Some (deactivated r).
Proof.
  intros Hr. rewrite find_by_withdraw_id_update by reflexivity.
  rewrite Hr. simpl. rewrite String.eqb_refl. reflexivity.
Qed.

(** A callback that made a call got past every check: the session was
    valid and unused, the voucher active and funded; the rest is
    [withdraw_pay] on the store with the session marked used. *)
Lemma withdraw_callback_paid (cfg : Config) (env : WithdrawEnv)
  (withdrawID k1 pr : string) (db db' : DB) (resp : Response)
  (tr : list Event) :
  handleLNURLWithdrawCallback cfg env withdrawID k1 pr db = (resp, db', tr) ->
  tr <> [] ->
  exists s r,
    find_session k1 db = Some s
    /\ s_withdraw_id s = withdrawID /\ s_used s = 0
    /\ find_by_withdraw_id withdrawID db = Some r
    /\ IsActive cfg (w_now env) (scanVoucher r) = true
    /\ 0 < total_paid_msats r
    /\ withdraw_pay env (pay_id r) pr (mark_session_used k1 (w_now env) db)
       = (resp, db', tr).
Proof.
  unfold handleLNURLWithdrawCallback. intros H Htr.
  destruct (String.eqb k1 "" || String.eqb pr "");
    [inversion H; subst; contradiction |].
  destruct (ValidateAndUseWithdrawSession (w_session_faults env) (w_now env)
              k1 withdrawID db) as [[payID | e] db1] eqn:Hv;
    [| inversion H; subst; contradiction].
  destruct (validate_ok _ _ _ _ _ _ _ Hv) as (s & r & Hs & Hw & Hu & -> & Hr & Hp).
  unfold GetVoucherByWithdrawID, query_voucher in H.
  destruct (w_get_voucher_fault env); [inversion H; subst; contradiction |].
  change (find_by_withdraw_id withdrawID (mark_session_used k1 (w_now env) db))
    with (find_by_withdraw_id withdrawID db) in H.
  rewrite Hr in H.
  destruct (IsActive cfg (w_now env) (scanVoucher r)) eqn:Hact; simpl in H;
    [| inversion H; subst; contradiction].
  destruct (Z.leb_spec (total_paid_msats r) 0);
    [inversion H; subst; contradiction |].
  exists s, r. subst payID. repeat split; assumption.
Qed.

(** A callback for a voucher whose flag is cleared makes no call. *)
Lemma withdraw_callback_inactive (cfg : Config) (env : WithdrawEnv)
  (withdrawID k1 pr : string) (db : DB) (r : VoucherRow) :
  find_by_withdraw_id withdrawID db = Some r -> active r <> 1 ->
  snd (handleLNURLWithdrawCallback cfg env withdrawID k1 pr db) = [].
Proof.
  intros Hr Hact.
  destruct (handleLNURLWithdrawCallback cfg env withdrawID k1 pr db)
    as [[resp db'] tr] eqn:H. simpl.
  destruct tr as [| ev tr]; [reflexivity | exfalso].
  destruct (withdraw_callback_paid _ _ _ _ _ _ _ _ _ H ltac:(discriminate))
    as (s & r' & _ & _ & _ & Hr' & Hactive & _).
  rewrite Hr in Hr'. inversion Hr'; subst r'.
  unfold IsActive in Hactive. simpl in Hactive.
  destruct (Z.eqb_spec (active r) 1); [contradiction | discriminate].
Qed.

(** C2: when [PayInvoice] was called and returned an error, then (a) after
    a definitive failure nothing more is done and the vouchers are as they
    were, so the voucher is still active with its balance; (b) after an
    unknown outcome (deadline exceeded or cancelled) the deactivation of
    the voucher is issued in every case and, the store applying it, the
    voucher has balance zero and its flag cleared, so that any further
    callback for it returns without calling the gateway. *)
Theorem withdraw_payment_failed (cfg : Config) (env : WithdrawEnv)
  (withdrawID k1 pr : string) (db db' : DB) (resp : Response)
  (tr : list Event) (err : error) :
  handleLNURLWithdrawCallback cfg env withdrawID k1 pr db = (resp, db', tr) ->
  In (EvPayInvoice pr) tr ->
  w_pay env = Some err ->
  exists r,
    find_by_withdraw_id withdrawID db = Some r
    /\ IsActive cfg (w_now env) (scanVoucher r) = true
    /\ 0 < total_paid_msats r
    /\ (outcome_unknown err = false ->
        resp = lnurlError "payment failed"
        /\ tr = [EvPayInvoice pr]
        /\ vouchers db' = vouchers db
        /\ find_by_withdraw_id withdrawID db' = Some r)
    /\ (outcome_unknown err = true ->
        resp = lnurlError "payment timed out"
        /\ tr = [EvPayInvoice pr; EvDeactivateVoucher (pay_id r)]
        /\ (w_deactivate_fault env = None ->
            find_by_withdraw_id withdrawID db' = Some (deactivated r)
            /\ total_paid_msats (deactivated r) = 0
            /\ active (deactivated r) = 0
            /\ (forall now', IsActive cfg now' (scanVoucher (deactivated r)) = false)
            /\ (forall env' k1' pr',
                snd (handleLNURLWithdrawCallback cfg env' withdrawID k1' pr' db')
                = []))).
Proof.
  intros H Hin Hpay.
  assert (Htr : tr <> []) by (intros ->; contradiction).
  destruct (withdraw_callback_paid _ _ _ _ _ _ _ _ _ H Htr)
    as (s & r & Hs & Hw & Hu & Hr & Hact & Hbal & Hp).
  exists r. split; [exact Hr |]. split; [exact Hact |]. split; [exact Hbal |].
  clear Hs Hw Hu H.
  unfold withdraw_pay in Hp. rewrite Hpay in Hp. split.
  - intros Hdef. rewrite Hdef in Hp. inversion Hp; subst.
    repeat split; try reflexivity. exact Hr.
  - intros Hunk. rewrite Hunk in Hp.
    unfold DeactivateVoucher, exec in Hp.
    destruct (w_deactivate_fault env) as [e |] eqn:Hfault.
    { inversion Hp; subst. split; [reflexivity |]. split; [reflexivity |].
      discriminate. }
    inversion Hp; subst. clear Hp.
    split; [reflexivity |]. split; [reflexivity |]. intros _.
    assert (Hr' : find_by_withdraw_id withdrawID
                    (update_vouchers (pay_id r) deactivated
                       (mark_session_used k1 (w_now env) db))
                  = Some (deactivated r))
      by (apply find_by_withdraw_id_deactivate; exact Hr).
    repeat split; try reflexivity; try exact Hr'.
    intros env' k1' pr'.
    apply (withdraw_callback_inactive cfg env' withdrawID k1' pr' _ _ Hr').
    simpl. lia.
Qed.

(** C6: when [PayInvoice] was called and succeeded, the reply is
    [{"status":"OK"}] whatever becomes of the deactivation; the
    deactivation is a transaction: with no fault the voucher has balance
    zero and its flag cleared, and with a fault at [Begin], at the [UPDATE]
    or at [Commit] the vouchers are as they were. *)
Theorem withdraw_payment_succeeded (cfg : Config) (env : WithdrawEnv)
  (withdrawID k1 pr : string) (db db' : DB) (resp : Response)
  (tr : list Event) :
  handleLNURLWithdrawCallback cfg env withdrawID k1 pr db = (resp, db', tr) ->
  In (EvPayInvoice pr) tr ->
  w_pay env = None ->
  resp = statusOK
  /\ exists r,
       find_by_withdraw_id withdrawID db = Some r
       /\ (w_begin_fault env = None ->
           w_deactivate_tx_fault env = None ->
           w_commit_fault env = None ->
           db' = update_vouchers (pay_id r) deactivated
                   (mark_session_used k1 (w_now env) db)
           /\ find_by_withdraw_id withdrawID db' = Some (deactivated r)
           /\ total_paid_msats (deactivated r) = 0
           /\ active (deactivated r) = 0)
       /\ (w_begin_fault env <> None
           \/ w_deactivate_tx_fault env <> None
           \/ w_commit_fault env <> None ->
           vouchers db' = vouchers db).
Proof.
  intros H Hin Hpay.
  assert (Htr : tr <> []) by (intros ->; contradiction).
  destruct (withdraw_callback_paid _ _ _ _ _ _ _ _ _ H Htr)
    as (s & r & Hs & Hw & Hu & Hr & Hact & Hbal & Hp).
  clear Hs Hw Hu H.
  unfold withdraw_pay, DeactivateVoucherTx, exec in Hp. rewrite Hpay in Hp.
  destruct (w_begin_fault env) as [e1 |] eqn:H1.
  { inversion Hp; subst. split; [reflexivity |]. exists r.
    split; [exact Hr |]. split; [discriminate | reflexivity]. }
  destruct (w_deactivate_tx_fault env) as [e2 |] eqn:H2.
  { inversion Hp; subst. split; [reflexivity |]. exists r.
    split; [exact Hr |]. split; [discriminate | reflexivity]. }
  destruct (w_commit_fault env) as [e3 |] eqn:H3.
  { inversion Hp; subst. split; [reflexivity |]. exists r.
    split; [exact Hr |]. split; [discriminate | reflexivity]. }
  inversion Hp; subst. split; [reflexivity |]. exists r.
  split; [exact Hr |]. split.
  - intros _ _ _. split; [reflexivity |].
    split; [apply find_by_withdraw_id_deactivate; exact Hr |].
    split; reflexivity.
  - intros [F | [F | F]]; contradiction.
Qed.

(** C9, amended: with no fault of the store, validation fails with one of
    three distinct errors: the session is unknown, belongs to another
    withdraw id, or is used.  For each the callback replies with an LNURL
    error (HTTP 200, status "ERROR") before any call and without a write,
    and the reason is "invalid or already-used k1: " followed by the text of
    that error: the three replies differ in that suffix. *)
Theorem session_errors (cfg : Config) (env : WithdrawEnv)
  (withdrawID k1 pr : string) (db : DB) :
  k1 <> "" -> pr <> "" ->
  w_session_faults env = no_session_faults ->
  (find_session k1 db = None ->
   ValidateAndUseWithdrawSession no_session_faults (w_now env) k1 withdrawID db
   = (Err (ErrMsg "k1 not found"), db)
   /\ handleLNURLWithdrawCallback cfg env withdrawID k1 pr db
      = (writeJSON 200
           [("status", JString "ERROR");
            ("reason", JString "invalid or already-used k1: k1 not found")],
         db, []))
  /\ (forall s, find_session k1 db = Some s ->
      s_withdraw_id s <> withdrawID ->
      ValidateAndUseWithdrawSession no_session_faults (w_now env) k1 withdrawID db
      = (Err (ErrMsg "k1 mismatch"), db)
      /\ handleLNURLWithdrawCallback cfg env withdrawID k1 pr db
         = (writeJSON 200
              [("status", JString "ERROR");
               ("reason", JString "invalid or already-used k1: k1 mismatch")],
            db, []))
  /\ (forall s, find_session k1 db = Some s ->
      s_withdraw_id s = withdrawID -> s_used s <> 0 ->
      ValidateAndUseWithdrawSession no_session_faults (w_now env) k1 withdrawID db
      = (Err (ErrMsg "k1 already used"), db)
      /\ handleLNURLWithdrawCallback cfg env withdrawID k1 pr db
         = (writeJSON 200
              [("status", JString "ERROR");
               ("reason", JString "invalid or already-used k1: k1 already used")],
            db, [])).
Proof.
  intros Hk1 Hpr Hfaults.
  unfold handleLNURLWithdrawCallback. rewrite Hfaults.
  destruct (String.eqb_spec k1 ""); [contradiction |].
  destruct (String.eqb_spec pr ""); [contradiction |].
  unfold ValidateAndUseWithdrawSession. simpl.
  split; [| split].
  - intros Hs. rewrite Hs. split; reflexivity.
  - intros s Hs Hw. rewrite Hs.
    destruct (String.eqb_spec (s_withdraw_id s) withdrawID); [contradiction |].
    split; reflexivity.
  - intros s Hs Hw Hu. rewrite Hs.
    destruct (String.eqb_spec (s_withdraw_id s) withdrawID); [| contradiction].
    destruct (Z.eqb_spec (s_used s) 0); [contradiction |].
    split; reflexivity.
Qed.

End Withdraw.

(** ** Refunds to a lightning address *)

Section Refund.
Import Store Handlers.

(** A resolved address cost exactly one call: the GET of its well-known
    URL. *)
Lemma resolve_trace (net : Network) (address : string)
  (params : LNURLPayParams) (tr : list Event) :
  ResolveLightningAddress net address = (Ok params, tr) ->
  exists url, tr = [EvHTTPGet url] /\ Callback params <> "".
Proof.
  unfold ResolveLightningAddress. intros H.
  destruct (split_at_sign address) as [[user domain] |]; [| discriminate].
  destruct (http_lnurlp net _) as [p | e]; [| discriminate].
  destruct (String.eqb_spec (Callback p) ""); [discriminate |].
  inversion H; subst. eexists. split; [reflexivity | assumption].
Qed.

(** C5: for a resolved endpoint, an amount below [minSendable] fails (a
    definitive error) after the resolution alone, with no invoice requested
    and no call of the payment gateway; otherwise the invoice is requested
    for the amount capped at [maxSendable] and rounded to a multiple of 1000
    msats by Go's integer division, which for the non-negative amounts of
    the protocol is rounding down; only then is the gateway asked to pay. *)
Theorem refund_amount (net : Network) (address : string) (amountMsats : Z)
  (params : LNURLPayParams) (tr0 : list Event) :
  ResolveLightningAddress net address = (Ok params, tr0) ->
  (amountMsats < MinSendable params ->
   exists msg url,
     RefundToLightningAddress net address amountMsats
     = (Some (ErrMsg msg), [EvHTTPGet url])
     /\ outcome_unknown (ErrMsg msg) = false)
  /\ (MinSendable params <= amountMsats ->
      exists requested,
        requested
        = wrap64 (Z.quot (Z.min amountMsats (MaxSendable params)) 1000 * 1000)
        /\ RefundToLightningAddress net address amountMsats
           = match http_callback net (Callback params) requested with
             | Err e =>
                 (Some (ErrWrap "get invoice from callback: " e),
                  tr0 ++ [EvGetInvoice (Callback params) requested])
             | Ok invoice =>
                 (pay_invoice net invoice,
                  tr0 ++ [EvGetInvoice (Callback params) requested;
                          EvPayInvoice invoice])
             end
        /\ (MaxSendable params < amountMsats ->
            Z.min amountMsats (MaxSendable params) = MaxSendable params)
        /\ (0 <= Z.min amountMsats (MaxSendable params) < 2 ^ 63 ->
            requested = 1000 * (Z.min amountMsats (MaxSendable params) / 1000)
            /\ requested mod 1000 = 0
            /\ Z.min amountMsats (MaxSendable params) - 1000 < requested
               <= Z.min amountMsats (MaxSendable params))).
Proof.
  intros Hres. destruct (resolve_trace _ _ _ _ Hres) as (url & -> & _).
  unfold RefundToLightningAddress. rewrite Hres. split.
  - intros Hdust. destruct (Z.ltb_spec amountMsats (MinSendable params)); [| lia].
    eexists. exists url. split; reflexivity.
  - intros Hmin.
    destruct (Z.ltb_spec amountMsats (MinSendable params)); [lia |].
    set (capped := if MaxSendable params <? amountMsats
                   then MaxSendable params else amountMsats).
    assert (Hc : capped = Z.min amountMsats (MaxSendable params)).
    { unfold capped. destruct (Z.ltb_spec (MaxSendable params) amountMsats); lia. }
    rewrite <- Hc.
    exists (wrap64 (Z.quot capped 1000 * 1000)).
    split; [reflexivity |]. split; [reflexivity |]. split; [lia |].
    intros Hcap.
    assert (Hq : wrap64 (Z.quot capped 1000 * 1000) = 1000 * (capped / 1000)).
    { rewrite Z.quot_div_nonneg by lia. rewrite wrap64_small; [lia |].
      Z.div_mod_to_equations. lia. }
    rewrite Hq. split; [reflexivity |]. split.
    + rewrite Z.mul_comm. apply Z.mod_mul. lia.
    + Z.div_mod_to_equations. lia.
Qed.

Lemma in_update_vouchers (p : string) (f : VoucherRow -> VoucherRow) (db : DB)
  (r' : VoucherRow) :
  In r' (vouchers (update_vouchers p f db)) ->
  exists r, In r (vouchers db)
    /\ r' = if String.eqb (pay_id r) p then f r else r.
Proof.
  unfold update_vouchers. simpl. intros H.
  apply in_map_iff in H as (r & E & Hin). exists r. split; [exact Hin | auto].
Qed.

(** After [UPDATE ... SET total_paid_msats=0, active=0 WHERE pay_id=p],
    every row of [p] is zeroed and inactive. *)
Lemma deactivated_rows (p : string) (db : DB) (r' : VoucherRow) :
  In r' (vouchers (update_vouchers p deactivated db)) -> pay_id r' = p ->
  total_paid_msats r' = 0 /\ active r' = 0.
Proof.
  intros Hin Hp. apply in_update_vouchers in Hin as (r & _ & ->).
  destruct (String.eqb_spec (pay_id r) p); [split; reflexivity | contradiction].
Qed.

Lemma reactivated_rows (p : string) (b : Z) (db : DB) (r' : VoucherRow) :
  In r' (vouchers (update_vouchers p (reactivated b) db)) -> pay_id r' = p ->
  total_paid_msats r' = b /\ active r' = 1.
Proof.
  intros Hin Hp. apply in_update_vouchers in Hin as (r & _ & ->).
  destruct (String.eqb_spec (pay_id r) p); [split; reflexivity | contradiction].
Qed.

(** The refund job processes the rows its query selects, as scanned. *)
Lemma runRefundJob_selected (cfg : Config) (now : Time)
  (envs : Voucher -> RefundEnv) (db : DB) :
  runRefundJob cfg now None envs db
  = (None,
     fst (refund_loop envs
            (map scanVoucher (filter (refund_selected cfg now) (vouchers db))) db),
     snd (refund_loop envs
            (map scanVoucher (filter (refund_selected cfg now) (vouchers db))) db)).
Proof.
  unfold runRefundJob, GetExpiredVouchersForRefund.
  destruct (refund_loop envs _ db) as [db' tr]. reflexivity.
Qed.

(** C3: for the voucher of a row [r] the refund job processes: the first
    thing it does is the deactivation, and a refund payment is attempted
    only after the store applied it (every row of the voucher then has
    balance zero and the flag cleared); after a definitive failure of the
    refund, the reactivation being applied by the store, the voucher is
    active again with the balance of [r]; after an unknown outcome, or a
    success, it stays deactivated.  ([res] and [rtr] name the result and
    the calls of the refund.) *)
Theorem refund_deactivates_first (env : RefundEnv) (r : VoucherRow)
  (db db' : DB) (tr : list Event) (res : option error) (rtr : list Event) :
  refundVoucher env (scanVoucher r) db = (db', tr) ->
  RefundToLightningAddress (j_network env) (lightning_address r)
    (total_paid_msats r) = (res, rtr) ->
  (exists rest, tr = EvDeactivateVoucher (pay_id r) :: rest)
  /\ (forall pre inv post, tr = pre ++ EvPayInvoice inv :: post ->
      j_deactivate_fault env = None
      /\ In (EvDeactivateVoucher (pay_id r)) pre
      /\ forall r', In r' (vouchers (update_vouchers (pay_id r) deactivated db)) ->
                    pay_id r' = pay_id r ->
                    total_paid_msats r' = 0 /\ active r' = 0)
  /\ (j_deactivate_fault env = None ->
      (forall err, res = Some err -> outcome_unknown err = false ->
       tr = EvDeactivateVoucher (pay_id r) :: rtr
            ++ [EvReactivateVoucher (pay_id r) (total_paid_msats r)]
       /\ (j_reactivate_fault env = None ->
           forall r', In r' (vouchers db') -> pay_id r' = pay_id r ->
                      total_paid_msats r' = total_paid_msats r /\ active r' = 1))
      /\ (forall err, res = Some err -> outcome_unknown err = true ->
          tr = EvDeactivateVoucher (pay_id r) :: rtr
          /\ forall r', In r' (vouchers db') -> pay_id r' = pay_id r ->
                        total_paid_msats r' = 0 /\ active r' = 0)
      /\ (res = None ->
          tr = EvDeactivateVoucher (pay_id r) :: rtr
          /\ forall r', In r' (vouchers db') -> pay_id r' = pay_id r ->
                        total_paid_msats r' = 0 /\ active r' = 0)).
Proof.
  unfold refundVoucher, DeactivateVoucher, ReactivateVoucher, exec. simpl.
  intros H Href. rewrite Href in H.
  destruct (j_deactivate_fault env) as [e |] eqn:Hd.
  - inversion H; subst. split; [eexists; reflexivity |]. split.
    + intros pre inv post E. exfalso.
      destruct pre as [| ev [| ev' pre]]; simpl in E; discriminate.
    + discriminate.
  - assert (Hhead : exists rest, tr = EvDeactivateVoucher (pay_id r) :: rest).
    { destruct res as [err |].
      - destruct (outcome_unknown err).
        + inversion H. eexists. reflexivity.
        + destruct (j_reactivate_fault env); inversion H; eexists; reflexivity.
      - inversion H. eexists. reflexivity. }
    split; [exact Hhead |]. split.
    + intros pre inv post E. split; [reflexivity |]. split.
      * destruct Hhead as (rest & ->).
        destruct pre as [| ev pre]; simpl in E; [discriminate |].
        inversion E. left. reflexivity.
      * intros r' Hin Hp. exact (deactivated_rows _ _ _ Hin Hp).
    + intros _. split; [| split].
      * intros err -> Hdef. rewrite Hdef in H.
        destruct (j_reactivate_fault env); inversion H; subst;
          (split; [reflexivity |]); [discriminate |].
        intros _ r' Hin Hp. exact (reactivated_rows _ _ _ _ Hin Hp).
      * intros err -> Hunk. rewrite Hunk in H. inversion H; subst.
        split; [reflexivity |].
        intros r' Hin Hp. exact (deactivated_rows _ _ _ Hin Hp).
      * intros ->. inversion H; subst. split; [reflexivity |].
        intros r' Hin Hp. exact (deactivated_rows _ _ _ Hin Hp).
Qed.

End Refund.

(** ** The fee of the funding callback *)

Section Fee.
Import Store Handlers Examples.

(** C4: the two copies of the funding callback disagree on the fee.  The
    one of handlers.go keeps the minimum fee plus the percentage; the one
    that follows the codec in lnurl.go keeps the larger of the two, as the
    claim has it.  With the default rule (2000 msats, 0.004) a payment of
    50,000 msats keeps 2200 msats and credits 47800 in handlers.go, where
    the claim and the other copy give a fee of 2000 msats. *)
Lemma funding_fee_is_a_sum :
  feeMsats defaultConfig 50000 = 2200
  /\ creditedMsats defaultConfig 50000 = 47800
  /\ feeMsats_earlier defaultConfig 50000 = 2000
  /\ snd (handleLNURLPayCallback defaultConfig pay_env "p1" "50000" db_example)
     = Some {| task_pay_id := "p1"; task_credited_msats := 47800;
               task_payment_hash := "hash1" |}.
Proof. repeat split; vm_compute; reflexivity. Qed.

(** The fee on a few amounts; 2008 msats is the largest amount rejected. *)
Example feeMsats_values :
  feeMsats defaultConfig 249 = 2000
  /\ feeMsats defaultConfig 250 = 2001
  /\ feeMsats defaultConfig 1000000 = 6000
  /\ feeMsats defaultConfig 200000000 = 802000
  /\ creditedMsats defaultConfig 2008 = 0
  /\ creditedMsats defaultConfig 2009 = 1
  /\ fst (fst (fst (handleLNURLPayCallback defaultConfig
                      {| p_now := 1000 * Second;
                         p_sscan := fun _ => Some 2008;
                         p_get_voucher_fault := None;
                         p_create_invoice := Err (ErrMsg "unreachable");
                         p_invoice_id := "inv1";
                         p_insert_fault := None |}
                      "p1" "2008" db_example)))
     = lnurlError "amount too small to cover fee".
Proof. repeat split; vm_compute; reflexivity. Qed.

(** What the funding callback of handlers.go does with its fee, for an
    active voucher: the request is rejected exactly when
    [amount - fee <= 0], and otherwise the invoice is requested for the
    gross amount and the amount less the fee is what is to be credited. *)
Theorem funding_fee (cfg : Config) (env : PayEnv) (payID amountStr : string)
  (db db' : DB) (amount : Z) (r : VoucherRow) (resp : Response)
  (tr : list Event) (task : option CreditTask) :
  amountStr <> "" ->
  p_sscan env amountStr = Some amount ->
  0 < amount ->
  p_get_voucher_fault env = None ->
  find_by_pay_id payID db = Some r ->
  IsActive cfg (p_now env) (scanVoucher r) = true ->
  handleLNURLPayCallback cfg env payID amountStr db = (resp, db', tr, task) ->
  feeMsats cfg amount
  = F64.to_int64
      (PrimFloat.add (F64.of_int64 (FundingFeeMinMsats cfg))
         (F64.Floor (PrimFloat.mul (F64.of_int64 amount) (FundingFeePercent cfg))))
  /\ creditedMsats cfg amount = wrap64 (amount - feeMsats cfg amount)
  /\ (creditedMsats cfg amount <= 0
      <-> resp = lnurlError "amount too small to cover fee")
  /\ (creditedMsats cfg amount <= 0 -> db' = db /\ tr = [] /\ task = None)
  /\ (0 < creditedMsats cfg amount ->
      tr = [EvCreateInvoice amount "TipMe voucher funding"]
      /\ forall t, task = Some t ->
                   task_pay_id t = payID
                   /\ task_credited_msats t = creditedMsats cfg amount)
  /\ feeMsats defaultConfig 50000 = 2200
  /\ creditedMsats defaultConfig 50000 = 47800.
Proof.
  intros Hstr Hscan Hpos Hfault Hr Hact H.
  split; [reflexivity |]. split; [reflexivity |].
  unfold handleLNURLPayCallback in H.
  destruct (String.eqb_spec amountStr ""); [contradiction |].
  rewrite Hscan in H.
  destruct (Z.leb_spec amount 0); [lia |].
  unfold GetVoucherByPayID, query_voucher in H. rewrite Hfault, Hr, Hact in H.
  simpl negb in H. cbv iota in H.
  fold (creditedMsats cfg amount) in H.
  destruct (Z.leb_spec (creditedMsats cfg amount) 0) as [Hle | Hgt].
  - inversion H; subst. split; [split; [reflexivity | lia] |].
    split; [auto |]. split; [lia |]. split; vm_compute; reflexivity.
  - assert (Hresp : resp <> lnurlError "amount too small to cover fee"
                    /\ tr = [EvCreateInvoice amount "TipMe voucher funding"]
                    /\ forall t, task = Some t ->
                         task_pay_id t = payID
                         /\ task_credited_msats t = creditedMsats cfg amount).
    { destruct (p_create_invoice env) as [inv | e].
      - unfold InsertPayInvoice, exec in H.
        destruct (existsb _ _ || negb _); [| destruct (p_insert_fault env)];
          inversion H; subst; (split; [discriminate |]);
          (split; [reflexivity |]); intros t Ht; inversion Ht; subst;
          split; reflexivity.
      - inversion H; subst. split; [discriminate |]. split; [reflexivity |].
        intros t Ht; discriminate. }
    destruct Hresp as (Hne & Htr & Htask).
    split; [split; [lia | intros E; contradiction] |].
    split; [lia |]. split; [auto |]. split; vm_compute; reflexivity.
Qed.

End Fee.

(** ** The statements at concrete inputs *)

Section Witnesses.
Import Store Handlers Examples.

(** The session "k1a" is consumed; a session is then inserted and the
    voucher re-activated; the callback still refuses "k1a". *)
Lemma k1_used_at_most_once_witness :
  ValidateAndUseWithdrawSession no_session_faults (1000 * Second) "k1a" "w1"
    db_example
  = (Ok "p1", mark_session_used "k1a" (1000 * Second) db_example)
  /\ exists reason,
       handleLNURLWithdrawCallback defaultConfig (withdraw_env None)
         "w1" "k1a" "lnbc1"
         (run_ops [OpInsertWithdrawSession (1001 * Second) "k1d" "w1";
                   OpReactivateVoucher "p1" 48000]
                  (mark_session_used "k1a" (1000 * Second) db_example))
       = (lnurlError reason,
          run_ops [OpInsertWithdrawSession (1001 * Second) "k1d" "w1";
                   OpReactivateVoucher "p1" 48000]
                  (mark_session_used "k1a" (1000 * Second) db_example),
          [])
       /\ ("k1a" <> "" -> "lnbc1" <> "" ->
           exists err,
             reason = ("invalid or already-used k1: " ++ Error err)%string
             /\ (w_session_faults (withdraw_env None) = no_session_faults ->
                 err = ErrMsg "k1 mismatch" \/ err = ErrMsg "k1 already used")).
Proof.
  assert (H : ValidateAndUseWithdrawSession no_session_faults (1000 * Second)
                "k1a" "w1" db_example
              = (Ok "p1", mark_session_used "k1a" (1000 * Second) db_example))
    by reflexivity.
  split; [exact H |].
  exact (k1_used_at_most_once defaultConfig _ _ _ _ _ _ _ H _ _ _ _).
Defined.

(** The second callback with the consumed "k1a", evaluated. *)
Example k1_second_callback :
  handleLNURLWithdrawCallback defaultConfig (withdraw_env None)
    "w1" "k1a" "lnbc1" (mark_session_used "k1a" (1000 * Second) db_example)
  = (lnurlError "invalid or already-used k1: k1 already used",
     mark_session_used "k1a" (1000 * Second) db_example, []).
Proof. reflexivity. Qed.

(** The gateway times out: the voucher is deactivated. *)
Lemma withdraw_payment_failed_witness :
  handleLNURLWithdrawCallback defaultConfig (withdraw_env (Some err_timeout))
    "w1" "k1a" "lnbc1" db_example
  = (lnurlError "payment timed out",
     update_vouchers "p1" deactivated
       (mark_session_used "k1a" (1000 * Second) db_example),
     [EvPayInvoice "lnbc1"; EvDeactivateVoucher "p1"])
  /\ outcome_unknown err_timeout = true
  /\ find_by_withdraw_id "w1"
       (update_vouchers "p1" deactivated
          (mark_session_used "k1a" (1000 * Second) db_example))
     = Some (deactivated row_example).
Proof.
  assert (H : handleLNURLWithdrawCallback defaultConfig
                (withdraw_env (Some err_timeout)) "w1" "k1a" "lnbc1" db_example
              = (lnurlError "payment timed out",
                 update_vouchers "p1" deactivated
                   (mark_session_used "k1a" (1000 * Second) db_example),
                 [EvPayInvoice "lnbc1"; EvDeactivateVoucher "p1"]))
    by reflexivity.
  split; [exact H |]. split; [reflexivity |].
  destruct (withdraw_payment_failed _ _ _ _ _ _ _ _ _ err_timeout H
              (or_introl eq_refl) eq_refl)
    as (r & Hr & _ & _ & _ & Hunk).
  assert (E : r = row_example) by (inversion Hr; reflexivity).
  destruct (Hunk eq_refl) as (_ & _ & Hstore).
  destruct (Hstore eq_refl) as (Hfind & _).
  rewrite E in Hfind. exact Hfind.
Defined.

(** The gateway rejects the payment: the vouchers are as they were. *)
Example withdraw_payment_rejected :
  handleLNURLWithdrawCallback defaultConfig (withdraw_env (Some err_rejected))
    "w1" "k1a" "lnbc1" db_example
  = (lnurlError "payment failed",
     mark_session_used "k1a" (1000 * Second) db_example,
     [EvPayInvoice "lnbc1"]).
Proof. reflexivity. Qed.

(** The gateway pays: the reply is OK and the voucher is deactivated. *)
Lemma withdraw_payment_succeeded_witness :
  handleLNURLWithdrawCallback defaultConfig (withdraw_env None)
    "w1" "k1a" "lnbc1" db_example
  = (statusOK,
     update_vouchers "p1" deactivated
       (mark_session_used "k1a" (1000 * Second) db_example),
     [EvPayInvoice "lnbc1"; EvDeactivateVoucher "p1"])
  /\ exists r,
       find_by_withdraw_id "w1" db_example = Some r
       /\ find_by_withdraw_id "w1"
            (update_vouchers "p1" deactivated
               (mark_session_used "k1a" (1000 * Second) db_example))
          = Some (deactivated r).
Proof.
  assert (H : handleLNURLWithdrawCallback defaultConfig (withdraw_env None)
                "w1" "k1a" "lnbc1" db_example
              = (statusOK,
                 update_vouchers "p1" deactivated
                   (mark_session_used "k1a" (1000 * Second) db_example),
                 [EvPayInvoice "lnbc1"; EvDeactivateVoucher "p1"]))
    by reflexivity.
  split; [exact H |].
  destruct (withdraw_payment_succeeded _ _ _ _ _ _ _ _ _ H
              (or_introl eq_refl) eq_refl)
    as (_ & r & Hr & Hok & _).
  exists r. split; [exact Hr |].
  destruct (Hok eq_refl eq_refl eq_refl) as (_ & Hfind & _). exact Hfind.
Defined.

(** The gateway pays and the commit of the deactivation fails: the reply is
    OK all the same, and the voucher keeps its balance and its flag. *)
Example withdraw_paid_not_deactivated :
  handleLNURLWithdrawCallback defaultConfig withdraw_env_commit_fails
    "w1" "k1a" "lnbc1" db_example
  = (statusOK,
     mark_session_used "k1a" (1000 * Second) db_example,
     [EvPayInvoice "lnbc1"; EvDeactivateVoucher "p1"]).
Proof. reflexivity. Qed.

(** C9, as stated, fails: the replies to an unknown k1, to a k1 of another
    voucher and to a used k1 are three different bodies. *)
Lemma session_errors_differ :
  fst (fst (handleLNURLWithdrawCallback defaultConfig (withdraw_env None)
              "w1" "k1x" "lnbc1" db_example))
  <> fst (fst (handleLNURLWithdrawCallback defaultConfig (withdraw_env None)
                 "w1" "k1c" "lnbc1" db_example))
  /\ fst (fst (handleLNURLWithdrawCallback defaultConfig (withdraw_env None)
                 "w1" "k1x" "lnbc1" db_example))
     <> fst (fst (handleLNURLWithdrawCallback defaultConfig (withdraw_env None)
                    "w1" "k1b" "lnbc1" db_example))
  /\ fst (fst (handleLNURLWithdrawCallback defaultConfig (withdraw_env None)
                 "w1" "k1c" "lnbc1" db_example))
     <> fst (fst (handleLNURLWithdrawCallback defaultConfig (withdraw_env None)
                    "w1" "k1b" "lnbc1" db_example)).
Proof. repeat split; intros H; vm_compute in H; discriminate H. Qed.

Lemma session_errors_witness :
  "k1b" <> "" /\ "lnbc1" <> ""
  /\ find_session "k1b" db_example
     = Some {| s_k1 := "k1b"; s_withdraw_id := "w1"; s_created_at := 800;
               s_used := 1; s_used_at := Some 850 |}
  /\ handleLNURLWithdrawCallback defaultConfig (withdraw_env None)
       "w1" "k1b" "lnbc1" db_example
     = (writeJSON 200
          [("status", JString "ERROR");
           ("reason", JString "invalid or already-used k1: k1 already used")],
        db_example, []).
Proof.
  assert (H1 : "k1b" <> "") by discriminate.
  assert (H2 : "lnbc1" <> "") by discriminate.
  split; [exact H1 |]. split; [exact H2 |]. split; [reflexivity |].
  destruct (session_errors defaultConfig (withdraw_env None) "w1" "k1b" "lnbc1"
              db_example H1 H2 eq_refl) as (_ & _ & Hused).
  apply (Hused _ eq_refl eq_refl). simpl. lia.
Defined.

(** The example of the spec: 500 msats to an endpoint whose minimum is
    100000 msats is dust. *)
Lemma refund_amount_witness :
  ResolveLightningAddress (network_example 100000 100000000 None)
    "alice@example.com"
  = (Ok {| Callback := "https://example.com/cb"; MinSendable := 100000;
           MaxSendable := 100000000 |},
     [EvHTTPGet "https://example.com/.well-known/lnurlp/alice"])
  /\ exists msg url,
       RefundToLightningAddress (network_example 100000 100000000 None)
         "alice@example.com" 500
       = (Some (ErrMsg msg), [EvHTTPGet url])
       /\ outcome_unknown (ErrMsg msg) = false.
Proof.
  assert (H : ResolveLightningAddress (network_example 100000 100000000 None)
                "alice@example.com"
              = (Ok {| Callback := "https://example.com/cb";
                       MinSendable := 100000; MaxSendable := 100000000 |},
                 [EvHTTPGet "https://example.com/.well-known/lnurlp/alice"]))
    by reflexivity.
  split; [exact H |].
  destruct (refund_amount _ _ 500 _ _ H) as (Hdust & _).
  apply Hdust. simpl. lia.
Defined.

(** The cap and the rounding, and the text of the dust error. *)
Example refund_amount_examples :
  RefundToLightningAddress (network_example 1000 100000000 None)
    "alice@example.com" 123456789
  = (None, [EvHTTPGet "https://example.com/.well-known/lnurlp/alice";
            EvGetInvoice "https://example.com/cb" 100000000;
            EvPayInvoice "lnbc-refund"])
  /\ RefundToLightningAddress (network_example 1000 100000000 None)
       "alice@example.com" 48500
     = (None, [EvHTTPGet "https://example.com/.well-known/lnurlp/alice";
               EvGetInvoice "https://example.com/cb" 48000;
               EvPayInvoice "lnbc-refund"])
  /\ RefundToLightningAddress (network_example 100000 100000000 None)
       "alice@example.com" 500
     = (Some (ErrMsg "refund amount 500 msats is below target minSendable 100000 msats (dust)"),
        [EvHTTPGet "https://example.com/.well-known/lnurlp/alice"]).
Proof. repeat split; vm_compute; reflexivity. Qed.

(** A refund the gateway rejects: the voucher is deactivated, the payment
    attempted, and the voucher re-activated with its 48000 msats. *)
Lemma refund_deactivates_first_witness :
  RefundToLightningAddress (j_network (refund_env (Some err_rejected)))
    (lightning_address row_example) (total_paid_msats row_example)
  = (Some err_rejected,
     [EvHTTPGet "https://example.com/.well-known/lnurlp/alice";
      EvGetInvoice "https://example.com/cb" 48000;
      EvPayInvoice "lnbc-refund"])
  /\ snd (refundVoucher (refund_env (Some err_rejected))
            (scanVoucher row_example) db_example)
     = [EvDeactivateVoucher "p1";
        EvHTTPGet "https://example.com/.well-known/lnurlp/alice";
        EvGetInvoice "https://example.com/cb" 48000;
        EvPayInvoice "lnbc-refund";
        EvReactivateVoucher "p1" 48000]
  /\ forall r',
       In r' (vouchers (fst (refundVoucher (refund_env (Some err_rejected))
                               (scanVoucher row_example) db_example))) ->
       pay_id r' = "p1" ->
       total_paid_msats r' = 48000 /\ active r' = 1.
Proof.
  assert (Href : RefundToLightningAddress
                   (j_network (refund_env (Some err_rejected)))
                   (lightning_address row_example) (total_paid_msats row_example)
                 = (Some err_rejected,
                    [EvHTTPGet "https://example.com/.well-known/lnurlp/alice";
                     EvGetInvoice "https://example.com/cb" 48000;
                     EvPayInvoice "lnbc-refund"]))
    by reflexivity.
  split; [exact Href |].
  destruct (refund_deactivates_first (refund_env (Some err_rejected)) row_example
              db_example _ _ _ _ (surjective_pairing _) Href)
    as (_ & _ & Hout).
  destruct (Hout eq_refl) as (Hdef & _).
  destruct (Hdef err_rejected eq_refl eq_refl) as (Htr & Hrows).
  split; [exact Htr | exact (Hrows eq_refl)].
Defined.

(** The funding of 50,000 msats of the spec's example. *)
Lemma funding_fee_witness :
  find_by_pay_id "p1" db_example = Some row_example
  /\ IsActive defaultConfig (p_now pay_env) (scanVoucher row_example) = true
  /\ snd (fst (handleLNURLPayCallback defaultConfig pay_env "p1" "50000"
                 db_example))
     = [EvCreateInvoice 50000 "TipMe voucher funding"]
  /\ forall t,
       snd (handleLNURLPayCallback defaultConfig pay_env "p1" "50000" db_example)
       = Some t ->
       task_pay_id t = "p1"
       /\ task_credited_msats t = creditedMsats defaultConfig 50000.
Proof.
  assert (Hr : find_by_pay_id "p1" db_example = Some row_example) by reflexivity.
  assert (Hact : IsActive defaultConfig (p_now pay_env) (scanVoucher row_example)
                 = true) by reflexivity.
  split; [exact Hr |]. split; [exact Hact |].
  assert (Hpair : handleLNURLPayCallback defaultConfig pay_env "p1" "50000" db_example
                  = (fst (fst (fst (handleLNURLPayCallback defaultConfig pay_env
                                      "p1" "50000" db_example))),
                     snd (fst (fst (handleLNURLPayCallback defaultConfig pay_env
                                      "p1" "50000" db_example))),
                     snd (fst (handleLNURLPayCallback defaultConfig pay_env
                                 "p1" "50000" db_example)),
                     snd (handleLNURLPayCallback defaultConfig pay_env
                            "p1" "50000" db_example)))
    by (destruct (handleLNURLPayCallback defaultConfig pay_env "p1" "50000"
                    db_example) as [[[a b] c] d]; reflexivity).
  destruct (funding_fee defaultConfig pay_env "p1" "50000" db_example _ 50000
              row_example _ _ _ ltac:(discriminate) eq_refl ltac:(lia) eq_refl
              Hr Hact Hpair)
    as (_ & _ & _ & _ & Hpos & _).
  apply Hpos. vm_compute. reflexivity.
Defined.

End Witnesses.

(* ================================================================== *)
(** * Part III: further properties of the code *)
(* ================================================================== *)

(** ** The re-grouping of bits *)

Section ConvertBitsStrict.
Import Bech32.

Variables fromBits toBits : Z.
Hypothesis Hfrom : 1 <= fromBits <= 8.
Hypothesis Hto : 1 <= toBits <= 8.

(** What the loop of [convertBits] leaves: the groups written, the number
    of bits left over and their value. *)
Lemma convert_loop_final (data : list Z) :
  all_below fromBits data ->
  exists acc bits res,
    convert_loop data fromBits toBits (Z.ones toBits) 0 0 [] = Some (acc, bits, res)
    /\ 0 <= bits < toBits
    /\ all_below toBits res
    /\ digits_val toBits res * 2 ^ bits + acc mod 2 ^ bits
       = digits_val fromBits data
    /\ Z.of_nat (List.length res) * toBits + bits
       = fromBits * Z.of_nat (List.length data).
Proof.
  intros Hdata.
  destruct (convert_loop_spec fromBits toBits Hfrom Hto data 0 0 [] Hdata
              ltac:(lia) (Forall_nil _))
    as (acc & bits & res & E & Hb & Hres & Hv & Hl).
  exists acc, bits, res.
  cbn [digits_val digits_from fold_left] in Hv.
  change (2 ^ 0) with 1 in Hv. rewrite Z.mod_1_r in Hv.
  simpl (0 * 1 + 0) in Hv. fold (digits_val fromBits data) in Hv.
  simpl List.length in Hl.
  repeat split; try assumption; lia.
Qed.

(** The padding test of [convertBits] is a test on the left-over bits. *)
Lemma pad_zero_iff (acc bits : Z) :
  0 <= bits < toBits ->
  (Z.land (wrap64 (Z.shiftl acc (toBits - bits))) (Z.ones toBits) =? 0)
  = (acc mod 2 ^ bits =? 0).
Proof.
  intros Hb.
  pose proof (pad_value toBits Hto acc bits Hb) as Hpad.
  pose proof (pow2_le_256 toBits ltac:(lia)) as Hpt.
  pose proof (pow2_pos (toBits - bits) ltac:(lia)) as Hpd.
  assert (Hl : Z.land (wrap64 (Z.shiftl acc (toBits - bits))) (Z.ones toBits)
               = (acc mod 2 ^ bits) * 2 ^ (toBits - bits)).
  { rewrite <- Hpad. unfold to_byte. symmetry. apply Z.mod_small.
    rewrite Z.land_ones by lia.
    pose proof (Z.mod_pos_bound (wrap64 (Z.shiftl acc (toBits - bits)))
                  (2 ^ toBits) ltac:(lia)). lia. }
  rewrite Hl.
  destruct (Z.eqb_spec (acc mod 2 ^ bits) 0) as [-> | Hne].
  - reflexivity.
  - apply Z.eqb_neq. nia.
Qed.

(** A re-grouping without padding that succeeds wrote every bit of the data
    but [p] zero bits, with [p] less than a group of the input. *)
Lemma convertBits_unpad_inv (data out : list Z) :
  all_below fromBits data ->
  convertBits data fromBits toBits false = Some (Ok out) ->
  exists p,
    0 <= p < fromBits /\ p < toBits
    /\ all_below toBits out
    /\ digits_val fromBits data = digits_val toBits out * 2 ^ p
    /\ fromBits * Z.of_nat (List.length data)
       = Z.of_nat (List.length out) * toBits + p.
Proof.
  intros Hdata H.
  destruct (convert_loop_final data Hdata)
    as (acc & bits & res & E & Hb & Hres & Hv & Hl).
  unfold convertBits in H. rewrite (maxv_ones toBits Hto), E in H.
  rewrite pad_zero_iff in H by exact Hb.
  destruct (Z.leb_spec fromBits bits) as [Hge | Hlt]; [discriminate |].
  destruct (Z.eqb_spec (acc mod 2 ^ bits) 0) as [Hz | Hnz]; [| discriminate].
  simpl in H. injection H as <-.
  exists bits. rewrite Hz in Hv.
  repeat split; try assumption; lia.
Qed.

(** A re-grouping without padding fails when a whole group of the input is
    left over. *)
Lemma convertBits_leftover (data : list Z) :
  all_below fromBits data ->
  fromBits <= (fromBits * Z.of_nat (List.length data)) mod toBits ->
  convertBits data fromBits toBits false
  = Some (Err (ErrMsg "invalid padding in bit conversion")).
Proof.
  intros Hdata Hrem.
  destruct (convert_loop_final data Hdata)
    as (acc & bits & res & E & Hb & Hres & Hv & Hl).
  unfold convertBits. rewrite (maxv_ones toBits Hto), E.
  assert (Hbits : (fromBits * Z.of_nat (List.length data)) mod toBits = bits).
  { rewrite <- Hl. rewrite Z.add_comm, Z.mod_add by lia.
    apply Z.mod_small. lia. }
  rewrite Hbits in Hrem.
  destruct (Z.leb_spec fromBits bits) as [_ | Hlt]; [reflexivity | lia].
Qed.

End ConvertBitsStrict.

Section Regrouping.
Import Bech32.

(** X1.  Five-to-eight re-grouping without padding is strict: whenever it
    accepts a string of 5-bit values, the eight-to-five re-grouping with
    padding of its result is that very string.  So no two strings of 5-bit
    values decode to the same bytes. *)
Theorem convertBits_strict (data out : list Z) :
  all_below 5 data ->
  convertBits data 5 8 false = Some (Ok out) ->
  all_below 8 out /\ convertBits out 8 5 true = Some (Ok data).
Proof.
  intros Hdata H.
  destruct (convertBits_unpad_inv 5 8 ltac:(lia) ltac:(lia) data out Hdata H)
    as (p & Hp & _ & Hout & Hv & Hl).
  split; [exact Hout |].
  destruct (convertBits_pad 8 5 ltac:(lia) ltac:(lia) out Hout)
    as (back & q & E & Hback & Hq & Hvb & Hlb).
  rewrite E. do 2 f_equal.
  assert (Hpq : q = p /\ List.length back = List.length data).
  { assert (Z.of_nat (List.length back) = Z.of_nat (List.length data)) by lia.
    split; lia. }
  destruct Hpq as [-> Hlen].
  apply (digits_val_inj 5 back ltac:(lia) data Hlen Hback Hdata).
  rewrite Hvb, Hv. reflexivity.
Qed.

Lemma convertBits_strict_witness :
  all_below 5 [13; 1; 18; 0]
  /\ convertBits [13; 1; 18; 0] 5 8 false = Some (Ok [104; 100])
  /\ all_below 8 [104; 100]
  /\ convertBits [104; 100] 8 5 true = Some (Ok [13; 1; 18; 0]).
Proof.
  assert (Hd : all_below 5 [13; 1; 18; 0])
    by (repeat constructor; vm_compute; congruence).
  assert (Hc : convertBits [13; 1; 18; 0] 5 8 false = Some (Ok [104; 100]))
    by reflexivity.
  split; [exact Hd |]. split; [exact Hc |].
  exact (convertBits_strict [13; 1; 18; 0] [104; 100] Hd Hc).
Defined.

(** X2.  Eight-to-five re-grouping with padding never fails: a string of
    [n] bytes gives [ceil (8 n / 5)] values, all of five bits. *)
Theorem convertBits_pad_length (s : list Z) :
  all_below 8 s ->
  exists out,
    convertBits s 8 5 true = Some (Ok out)
    /\ all_below 5 out
    /\ Z.of_nat (List.length out) = (8 * Z.of_nat (List.length s) + 4) / 5.
Proof.
  intros Hs.
  destruct (convertBits_pad 8 5 ltac:(lia) ltac:(lia) s Hs)
    as (out & p & E & Hout & Hp & _ & Hl).
  exists out. split; [exact E |]. split; [exact Hout |].
  apply (Z.div_unique (8 * Z.of_nat (List.length s) + 4) 5
           (Z.of_nat (List.length out)) (4 - p)); [left; lia | lia].
Qed.

Lemma convertBits_pad_length_witness :
  all_below 8 [104; 100]
  /\ exists out,
       convertBits [104; 100] 8 5 true = Some (Ok out)
       /\ all_below 5 out
       /\ Z.of_nat (List.length out) = (8 * Z.of_nat (List.length [104; 100]) + 4) / 5.
Proof.
  assert (Hd : all_below 8 [104; 100])
    by (repeat constructor; vm_compute; congruence).
  split; [exact Hd |].
  exact (convertBits_pad_length [104; 100] Hd).
Defined.

(** X3.  Five-to-eight re-grouping without padding rejects every string of
    5-bit values whose length is 1, 3 or 6 modulo 8: five bits or more
    would be left over. *)
Theorem convertBits_rejects_length (data : list Z) :
  all_below 5 data ->
  In (Z.of_nat (List.length data) mod 8) [1; 3; 6] ->
  convertBits data 5 8 false
  = Some (Err (ErrMsg "invalid padding in bit conversion")).
Proof.
  intros Hdata Hlen.
  apply (convertBits_leftover 5 8 ltac:(lia) ltac:(lia) data Hdata).
  set (n := Z.of_nat (List.length data)) in *.
  assert (Hn : n = 8 * (n / 8) + n mod 8) by (apply Z.div_mod; lia).
  assert (Hr : forall r, n mod 8 = r -> (5 * n) mod 8 = (5 * r) mod 8).
  { intros r Hr. rewrite Hn, Hr.
    replace (5 * (8 * (n / 8) + r)) with (5 * r + (5 * (n / 8)) * 8) by ring.
    apply Z.mod_add. lia. }
  simpl in Hlen.
  destruct Hlen as [H | [H | [H | []]]]; symmetry in H;
    rewrite (Hr _ H); vm_compute; congruence.
Qed.

Lemma convertBits_rejects_length_witness :
  all_below 5 [13; 1; 18]
  /\ In (Z.of_nat (List.length [13; 1; 18]) mod 8) [1; 3; 6]
  /\ convertBits [13; 1; 18] 5 8 false
     = Some (Err (ErrMsg "invalid padding in bit conversion")).
Proof.
  assert (Hd : all_below 5 [13; 1; 18])
    by (repeat constructor; vm_compute; congruence).
  assert (Hl : In (Z.of_nat (List.length [13; 1; 18]) mod 8) [1; 3; 6])
    by (right; left; reflexivity).
  split; [exact Hd |]. split; [exact Hl |].
  exact (convertBits_rejects_length [13; 1; 18] Hd Hl).
Defined.

End Regrouping.

(** ** Error detection of the checksum *)

Section ErrorDetection.
Import Bech32.

Lemma lxor_cancel_r (x y v : Z) : Z.lxor x v = Z.lxor y v -> x = y.
Proof.
  intros H. apply (f_equal (fun z => Z.lxor z v)) in H.
  rewrite !Z.lxor_assoc, Z.lxor_nilpotent, !Z.lxor_0_r in H. exact H.
Qed.

Lemma lxor_swap (a b c d : Z) :
  Z.lxor (Z.lxor a b) (Z.lxor c d) = Z.lxor (Z.lxor a c) (Z.lxor b d).
Proof.
  rewrite !Z.lxor_assoc. f_equal. rewrite <- !Z.lxor_assoc. f_equal.
  apply Z.lxor_comm.
Qed.

(** The test of a tap reads bit [i] of [top]. *)
Lemma tap_testbit (top : Z) (i : nat) :
  (Z.land (Z.shiftr top (Z.of_nat i)) 1 =? 1) = Z.testbit top (Z.of_nat i).
Proof.
  replace (Z.land (Z.shiftr top (Z.of_nat i)) 1)
    with (Z.shiftr top (Z.of_nat i) mod 2)
    by (symmetry; apply (Z.land_ones _ 1); lia).
  rewrite <- Z.bit0_mod, Z.shiftr_spec by lia. simpl (0 + Z.of_nat i).
  destruct (Z.testbit top (Z.of_nat i)); reflexivity.
Qed.

Lemma polymod_taps_acc (idx : list nat) (top x : Z) :
  polymod_taps idx top x = Z.lxor (polymod_taps idx top 0) x.
Proof.
  rewrite <- (polymod_taps_lxor idx top 0 x), Z.lxor_0_l. reflexivity.
Qed.

(** The generators xored in are linear in [top]. *)
Lemma polymod_taps_top (idx : list nat) (t1 t2 : Z) :
  polymod_taps idx (Z.lxor t1 t2) 0
  = Z.lxor (polymod_taps idx t1 0) (polymod_taps idx t2 0).
Proof.
  induction idx as [| i rest IH]; [reflexivity |].
  cbn [polymod_taps]. rewrite !tap_testbit, Z.lxor_spec.
  destruct (Z.testbit t1 (Z.of_nat i)), (Z.testbit t2 (Z.of_nat i));
    cbn [xorb]; rewrite ?Z.lxor_0_l;
    rewrite ?(polymod_taps_acc rest _ (nth i bech32Generator 0)), IH;
    apply Z.bits_inj'; intros n _; rewrite !Z.lxor_spec;
    repeat match goal with
           | |- context [Z.testbit ?a n] => destruct (Z.testbit a n)
           end; reflexivity.
Qed.

(** No non-zero [top] xors in generators whose low five bits cancel. *)
Lemma polymod_taps_low (t : Z) :
  0 <= t < 32 -> polymod_taps (seq 0 5) t 0 mod 32 = 0 -> t = 0.
Proof.
  intros Ht H.
  assert (Hall : forallb (fun t => negb (polymod_taps (seq 0 5) t 0 mod 32 =? 0)
                                   || (t =? 0))
                   (map Z.of_nat (seq 0 32)) = true) by (vm_compute; reflexivity).
  rewrite forallb_forall in Hall.
  assert (Hin : In t (map Z.of_nat (seq 0 32))).
  { apply in_map_iff. exists (Z.to_nat t). split; [lia |].
    apply in_seq. lia. }
  specialize (Hall t Hin). rewrite H in Hall. simpl in Hall.
  apply Z.eqb_eq. exact Hall.
Qed.

(** One step splits into the shifted state, the generators and the value
    fed. *)
Lemma polymod_step_split (c v : Z) :
  polymod_step c v
  = Z.lxor (Z.lxor ((c mod 2 ^ 25) * 32)
                   (polymod_taps (seq 0 5) (Z.shiftr c 25) 0)) v.
Proof.
  unfold polymod_step. destruct (shifted_part c) as [-> _].
  rewrite polymod_taps_acc, (Z.lxor_comm (polymod_taps _ _ 0)).
  rewrite Z.lxor_assoc, (Z.lxor_comm v), <- Z.lxor_assoc. reflexivity.
Qed.

(** A step is injective in the state. *)
Lemma polymod_step_inj (a b v : Z) :
  0 <= a < 2 ^ 30 -> 0 <= b < 2 ^ 30 ->
  polymod_step a v = polymod_step b v -> a = b.
Proof.
  intros Ha Hb H. rewrite !polymod_step_split in H.
  apply lxor_cancel_r in H.
  set (ta := Z.shiftr a 25) in *. set (tb := Z.shiftr b 25) in *.
  set (la := a mod 2 ^ 25) in *. set (lb := b mod 2 ^ 25) in *.
  assert (Hta : ta = a / 2 ^ 25) by (apply Z.shiftr_div_pow2; lia).
  assert (Htb : tb = b / 2 ^ 25) by (apply Z.shiftr_div_pow2; lia).
  assert (Hra : 0 <= ta < 32).
  { rewrite Hta. split; [apply Z.div_pos; lia |].
    apply Z.div_lt_upper_bound; lia. }
  assert (Hrb : 0 <= tb < 32).
  { rewrite Htb. split; [apply Z.div_pos; lia |].
    apply Z.div_lt_upper_bound; lia. }
  assert (Hx : Z.lxor (la * 32) (lb * 32)
               = polymod_taps (seq 0 5) (Z.lxor ta tb) 0).
  { rewrite polymod_taps_top. apply Z.bits_inj'. intros n _.
    apply (f_equal (fun z => Z.testbit z n)) in H.
    rewrite !Z.lxor_spec in *.
    destruct (Z.testbit (la * 32) n), (Z.testbit (lb * 32) n),
      (Z.testbit (polymod_taps (seq 0 5) ta 0) n),
      (Z.testbit (polymod_taps (seq 0 5) tb 0) n);
      simpl in *; congruence. }
  assert (Hlow : Z.lxor (la * 32) (lb * 32) = Z.lxor la lb * 32).
  { change 32 with (2 ^ 5). rewrite <- !Z.shiftl_mul_pow2 by lia.
    symmetry. apply Z.shiftl_lxor. }
  assert (Ht : Z.lxor ta tb = 0).
  { apply polymod_taps_low.
    - pose proof (lxor_bound 5 ta tb ltac:(lia)) as Hbd.
      change (2 ^ 5) with 32 in Hbd. apply Hbd; lia.
    - rewrite <- Hx, Hlow. apply Z.mod_mul. lia. }
  rewrite Ht in Hx. change (polymod_taps (seq 0 5) 0 0) with 0 in Hx.
  apply Z.lxor_eq in Ht. apply Z.lxor_eq in Hx.
  rewrite (Z.div_mod a (2 ^ 25)), (Z.div_mod b (2 ^ 25)) by lia.
  fold la lb. rewrite <- Hta, <- Htb. lia.
Qed.

(** Distinct states stay distinct, whatever is fed after them. *)
Lemma fold_polymod_inj (values : list Z) :
  forall a b, 0 <= a < 2 ^ 30 -> 0 <= b < 2 ^ 30 -> all_below 8 values ->
  a <> b ->
  fold_left polymod_step values a <> fold_left polymod_step values b.
Proof.
  induction values as [| v rest IH]; intros a b Ha Hb Hall Hne; [exact Hne |].
  inversion Hall as [| ? ? Hv Hrest]; subst. cbn [fold_left].
  change (2 ^ 8) with 256 in Hv.
  apply IH; try assumption; try (apply polymod_step_bound; lia).
  intros Heq. apply Hne. exact (polymod_step_inj a b v Ha Hb Heq).
Qed.

(** Two byte strings that differ in exactly one position never reach the
    same checksum state. *)
Lemma polymod_differs (pre suf : list Z) (v v' : Z) :
  all_below 8 pre -> all_below 8 suf ->
  0 <= v < 256 -> 0 <= v' < 256 -> v <> v' ->
  bech32Polymod (pre ++ v :: suf) <> bech32Polymod (pre ++ v' :: suf).
Proof.
  intros Hpre Hsuf Hv Hv' Hne. unfold bech32Polymod.
  rewrite !fold_left_app. cbn [fold_left].
  pose proof (fold_polymod_bound pre 1 ltac:(lia) Hpre) as Hc.
  set (c := fold_left polymod_step pre 1) in *.
  apply fold_polymod_inj; try assumption;
    try (apply polymod_step_bound; lia).
  rewrite (polymod_step_split c v), (polymod_step_split c v').
  intros Heq. apply Hne.
  rewrite !(Z.lxor_comm (Z.lxor _ _)) in Heq.
  exact (lxor_cancel_r _ _ _ Heq).
Qed.

(** X4.  [bech32Polymod] detects every change of a single value: two byte
    strings that differ in exactly one position never have the same
    checksum state.  In particular, at most one of them verifies. *)
Theorem bech32Polymod_single_error (pre suf : list Z) (v v' : Z) :
  all_below 8 pre -> all_below 8 suf ->
  0 <= v < 256 -> 0 <= v' < 256 -> v <> v' ->
  bech32Polymod (pre ++ v :: suf) <> bech32Polymod (pre ++ v' :: suf).
Proof. exact (polymod_differs pre suf v v'). Qed.

Lemma bech32Polymod_single_error_witness :
  all_below 8 [3; 3; 0; 12; 14] /\ all_below 8 [5; 7]
  /\ 0 <= 9 < 256 /\ 0 <= 10 < 256 /\ 9 <> 10
  /\ bech32Polymod ([3; 3; 0; 12; 14] ++ 9 :: [5; 7])
     <> bech32Polymod ([3; 3; 0; 12; 14] ++ 10 :: [5; 7]).
Proof.
  assert (H1 : all_below 8 [3; 3; 0; 12; 14])
    by (repeat constructor; vm_compute; congruence).
  assert (H2 : all_below 8 [5; 7])
    by (repeat constructor; vm_compute; congruence).
  assert (H3 : 0 <= 9 < 256) by lia.
  assert (H4 : 0 <= 10 < 256) by lia.
  assert (H5 : 9 <> 10) by lia.
  repeat (split; [assumption |]).
  exact (bech32Polymod_single_error _ _ 9 10 H1 H2 H3 H4 H5).
Defined.

End ErrorDetection.

(** ** The encoder *)

Section Encoder.
Import Bech32 Bech32Decode.

Lemma bytes_of_string_length (s : string) :
  List.length (bytes_of_string s) = String.length s.
Proof.
  unfold bytes_of_string. rewrite length_map.
  induction s as [| c s IH]; simpl; [reflexivity | now rewrite IH].
Qed.

Lemma symbols_length (l : list Z) :
  all_below 5 l -> String.length (symbols l) = List.length l.
Proof.
  induction 1 as [| c rest Hc _ IH]; cbn [symbols]; [reflexivity |].
  change (2 ^ 5) with 32 in Hc.
  destruct (symbol_facts c Hc) as (ch & -> & _).
  simpl. now rewrite IH.
Qed.

Lemma ToUpper_length (s : string) : String.length (ToUpper s) = String.length s.
Proof. induction s as [| c s IH]; simpl; [reflexivity | now rewrite IH]. Qed.

Lemma upper_ascii_idem (c : ascii) : upper_ascii (upper_ascii c) = upper_ascii c.
Proof.
  destruct c as [[] [] [] [] [] [] [] []]; vm_compute; reflexivity.
Qed.

Lemma ToUpper_idem (s : string) : ToUpper (ToUpper s) = ToUpper s.
Proof.
  induction s as [| c s IH]; simpl; [reflexivity |].
  now rewrite upper_ascii_idem, IH.
Qed.

Lemma app_same_length {A : Type} (a b c d : list A) :
  List.length a = List.length b -> a ++ c = b ++ d -> a = b.
Proof.
  revert b. induction a as [| x a IH]; intros [| y b] Hl H;
    try discriminate; [reflexivity |].
  simpl in *. injection H as -> H. f_equal. apply IH; [lia | exact H].
Qed.

Lemma bytes_of_string_inj (s1 s2 : string) :
  bytes_of_string s1 = bytes_of_string s2 -> s1 = s2.
Proof.
  intros H. rewrite <- (string_of_bytes_of_string s1), H.
  apply string_of_bytes_of_string.
Qed.

(** What [EncodeLNURL] returns, in terms of the re-grouped bytes. *)
Lemma EncodeLNURL_form (s : string) :
  exists conv,
    all_below 5 conv
    /\ 0 <= Z.of_nat (List.length conv) * 5 - 8 * Z.of_nat (String.length s) < 5
    /\ convertBits conv 5 8 false = Some (Ok (bytes_of_string s))
    /\ EncodeLNURL s
       = Some (Ok (ToUpper ("lnurl1" ++
                            symbols (conv ++ bech32CreateChecksum "lnurl" conv)))).
Proof.
  pose proof (bytes_of_string_below s) as Hs.
  destruct (convertBits_pad 8 5 ltac:(lia) ltac:(lia) _ Hs)
    as (conv & p & E & Hconv & Hp & Hv & Hl).
  rewrite bytes_of_string_length in Hl.
  exists conv. split; [exact Hconv |]. split; [lia |]. split.
  - apply (convertBits_unpad 5 8 ltac:(lia) ltac:(lia) conv _ p);
      try assumption; try lia.
    rewrite bytes_of_string_length. lia.
  - unfold EncodeLNURL. rewrite E.
    rewrite write_symbols_spec; [reflexivity |].
    apply Forall_app. split; [exact Hconv | apply bech32CreateChecksum_below].
Qed.

(** X5.  [EncodeLNURL] never fails; a URL of [n] bytes encodes to
    [12 + ceil (8 n / 5)] characters (the prefix, the separator, the
    re-grouped bytes and six checksum symbols), none of them a lower-case
    letter. *)
Theorem EncodeLNURL_length (rawURL : string) :
  exists e,
    EncodeLNURL rawURL = Some (Ok e)
    /\ Z.of_nat (String.length e)
       = 12 + (8 * Z.of_nat (String.length rawURL) + 4) / 5
    /\ ToUpper e = e.
Proof.
  destruct (EncodeLNURL_form rawURL) as (conv & Hconv & Hp & _ & E).
  eexists. split; [exact E |]. split; [| apply ToUpper_idem].
  rewrite ToUpper_length. cbn [String.append String.length].
  rewrite symbols_length
    by (apply Forall_app; split;
        [exact Hconv | apply bech32CreateChecksum_below]).
  rewrite length_app, bech32CreateChecksum_length.
  set (m := List.length conv) in *. set (n := String.length rawURL) in *.
  assert (Hm : Z.of_nat m = (8 * Z.of_nat n + 4) / 5).
  { apply (Z.div_unique (8 * Z.of_nat n + 4) 5 (Z.of_nat m)
             (4 - (Z.of_nat m * 5 - 8 * Z.of_nat n))); [left; lia | lia]. }
  rewrite <- Hm. lia.
Qed.

(** X6.  [EncodeLNURL] is injective: two URLs with the same encoding are
    the same URL. *)
Theorem EncodeLNURL_injective (u1 u2 : string) :
  EncodeLNURL u1 = EncodeLNURL u2 -> u1 = u2.
Proof.
  intros H.
  destruct (EncodeLNURL_form u1) as (c1 & Hc1 & Hp1 & Hd1 & E1).
  destruct (EncodeLNURL_form u2) as (c2 & Hc2 & Hp2 & Hd2 & E2).
  rewrite E1, E2 in H. injection H as H.
  set (l1 := c1 ++ bech32CreateChecksum "lnurl" c1) in *.
  set (l2 := c2 ++ bech32CreateChecksum "lnurl" c2) in *.
  assert (Hl1 : all_below 5 l1)
    by (apply Forall_app; split; [exact Hc1 | apply bech32CreateChecksum_below]).
  assert (Hl2 : all_below 5 l2)
    by (apply Forall_app; split; [exact Hc2 | apply bech32CreateChecksum_below]).
  apply (f_equal ToLower) in H.
  rewrite !ToLower_ToUpper_symbols in H by assumption.
  apply (f_equal decode_symbols) in H.
  rewrite !decode_symbols_symbols in H by assumption.
  injection H as H. unfold l1, l2 in H.
  assert (Hlen : List.length c1 = List.length c2).
  { apply (f_equal (@List.length Z)) in H.
    rewrite !length_app, !bech32CreateChecksum_length in H. lia. }
  apply app_same_length in H; [| exact Hlen]. subst c2.
  rewrite Hd1 in Hd2. injection Hd2 as Hb.
  apply bytes_of_string_inj. exact Hb.
Qed.

Lemma EncodeLNURL_injective_witness :
  EncodeLNURL "https://tip.me/pay/1" = EncodeLNURL "https://tip.me/pay/1"
  /\ "https://tip.me/pay/1" = "https://tip.me/pay/1".
Proof.
  assert (H : EncodeLNURL "https://tip.me/pay/1"
              = EncodeLNURL "https://tip.me/pay/1") by reflexivity.
  split; [exact H |].
  exact (EncodeLNURL_injective _ _ H).
Defined.

(** X7.  The checksum protects every symbol of the data: for any prefix,
    the data followed by its checksum verifies, and replacing any single
    5-bit symbol of the data by another one, with the checksum kept, gives
    a string that does not verify. *)
Theorem checksum_detects_substitution (hrp : string) (pre suf : list Z)
  (v v' : Z) :
  all_below 5 (pre ++ v :: suf) -> 0 <= v' < 32 -> v <> v' ->
  let checksum := bech32CreateChecksum hrp (pre ++ v :: suf) in
  bech32Polymod (bech32HRPExpand hrp ++ (pre ++ v :: suf) ++ checksum) = 1
  /\ bech32Polymod (bech32HRPExpand hrp ++ (pre ++ v' :: suf) ++ checksum) <> 1.
Proof.
  intros Hall Hv' Hne checksum.
  assert (Hok : bech32Polymod
                  (bech32HRPExpand hrp ++ (pre ++ v :: suf) ++ checksum) = 1)
    by (apply checksum_verifies; exact Hall).
  split; [exact Hok |]. rewrite <- Hok.
  apply Forall_app in Hall as [Hpre Hrest].
  inversion Hrest as [| ? ? Hv Hsuf]; subst.
  change (2 ^ 5) with 32 in Hv.
  rewrite <- !app_assoc, !app_assoc with (l := bech32HRPExpand hrp).
  cbn [app]. intros Heq. symmetry in Heq. revert Heq.
  apply polymod_differs; try lia.
  - apply Forall_app. split; [apply bech32HRPExpand_below |].
    apply (all_below_mono 5 8); [lia | exact Hpre].
  - apply Forall_app. split.
    + apply (all_below_mono 5 8); [lia | exact Hsuf].
    + apply (all_below_mono 5 8); [lia | apply bech32CreateChecksum_below].
Qed.

Lemma checksum_detects_substitution_witness :
  all_below 5 ([13; 1] ++ 18 :: [0]) /\ 0 <= 19 < 32 /\ 18 <> 19
  /\ bech32Polymod (bech32HRPExpand "lnurl" ++ ([13; 1] ++ 18 :: [0])
                    ++ bech32CreateChecksum "lnurl" ([13; 1] ++ 18 :: [0])) = 1
  /\ bech32Polymod (bech32HRPExpand "lnurl" ++ ([13; 1] ++ 19 :: [0])
                    ++ bech32CreateChecksum "lnurl" ([13; 1] ++ 18 :: [0])) <> 1.
Proof.
  assert (H1 : all_below 5 ([13; 1] ++ 18 :: [0]))
    by (repeat constructor; vm_compute; congruence).
  assert (H2 : 0 <= 19 < 32) by lia.
  assert (H3 : 18 <> 19) by lia.
  split; [exact H1 |]. split; [exact H2 |]. split; [exact H3 |].
  exact (checksum_detects_substitution "lnurl" [13; 1] [0] 18 19 H1 H2 H3).
Defined.

End Encoder.

(** ** The constraints of the schema *)

Section Schema.
Import Store.

Lemma map_update_key {A B : Type} (key : A -> B) (p : A -> bool) (f : A -> A)
  (l : list A) :
  (forall x, key (f x) = key x) ->
  map key (map (fun x => if p x then f x else x) l) = map key l.
Proof.
  intros Hk. rewrite map_map. apply map_ext. intros x.
  destruct (p x); [apply Hk | reflexivity].
Qed.

Lemma existsb_key_false {A : Type} (key : A -> string) (k : string)
  (l : list A) :
  existsb (fun x => String.eqb (key x) k) l = false -> ~ In k (map key l).
Proof.
  intros H Hin. apply in_map_iff in Hin as (x & Hx & Hin).
  assert (Ht : existsb (fun x => String.eqb (key x) k) l = true).
  { apply existsb_exists. exists x. split; [exact Hin |].
    apply String.eqb_eq. exact Hx. }
  congruence.
Qed.

Lemma existsb_key_true {A : Type} (key : A -> string) (k : string)
  (l : list A) :
  existsb (fun x => String.eqb (key x) k) l = true -> In k (map key l).
Proof.
  intros H. apply existsb_exists in H as (x & Hin & Hx).
  apply String.eqb_eq in Hx. subst k. apply in_map. exact Hin.
Qed.

Lemma NoDup_snoc {B : Type} (l : list B) (x : B) :
  NoDup l -> ~ In x l -> NoDup (l ++ [x]).
Proof.
  intros Hl Hx. apply NoDup_rev in Hl. rewrite <- (rev_involutive (l ++ [x])).
  apply NoDup_rev. rewrite rev_app_distr. simpl. constructor; [| exact Hl].
  rewrite <- in_rev. exact Hx.
Qed.

Lemma existsb_two_keys_false {A : Type} (key1 key2 : A -> string)
  (k1 k2 : string) (l : list A) :
  existsb (fun x => String.eqb (key1 x) k1 || String.eqb (key2 x) k2) l = false ->
  ~ In k1 (map key1 l) /\ ~ In k2 (map key2 l).
Proof.
  intros H. split; intros Hin; apply in_map_iff in Hin as (x & Hx & Hin);
    (assert (Ht : existsb (fun x => String.eqb (key1 x) k1
                                    || String.eqb (key2 x) k2) l = true);
     [apply existsb_exists; exists x; split; [exact Hin |];
      apply orb_true_iff; rewrite !String.eqb_eq; auto
     | congruence]).
Qed.

(** An [UPDATE] of vouchers that keeps the keys keeps the constraints. *)
Lemma update_vouchers_schema (p : string) (f : VoucherRow -> VoucherRow)
  (db : DB) :
  (forall r, pay_id (f r) = pay_id r) ->
  (forall r, withdraw_id (f r) = withdraw_id r) ->
  (forall r, creation_request_hash (f r) = creation_request_hash r) ->
  keys_unique db /\ references_valid db ->
  keys_unique (update_vouchers p f db)
  /\ references_valid (update_vouchers p f db).
Proof.
  intros Hp Hw Hc [(K1 & K2 & K3 & K4 & K5 & K6) (R1 & R2 & R3)].
  unfold keys_unique, references_valid, update_vouchers. cbn.
  rewrite !(map_update_key pay_id), !(map_update_key withdraw_id)
    by assumption.
  repeat split; try assumption.
  intros r h Hin Hh. apply in_map_iff in Hin as (r0 & <- & Hin).
  apply (R3 r0 h Hin).
  destruct (String.eqb (pay_id r0) p); [rewrite Hc in Hh |]; exact Hh.
Qed.

Lemma exec_none_schema (db db' : DB) :
  keys_unique db /\ references_valid db ->
  keys_unique db' /\ references_valid db' ->
  keys_unique (snd (exec None db db'))
  /\ references_valid (snd (exec None db db')).
Proof. intros _ H. exact H. Qed.

Lemma insert_voucher_schema (now : Time) (p w h a : string) (e : Z) (db : DB) :
  keys_unique db /\ references_valid db ->
  keys_unique (snd (insert_voucher now p w h a e db))
  /\ references_valid (snd (insert_voucher now p w h a e db)).
Proof.
  intros H. unfold insert_voucher.
  destruct (existsb _ (vouchers db)) eqn:Ev; [exact H |].
  destruct (existsb _ (creation_requests db)) eqn:Ec; [| exact H].
  simpl. destruct H as [(K1 & K2 & K3 & K4 & K5 & K6) (R1 & R2 & R3)].
  apply existsb_two_keys_false in Ev as [Hp Hw].
  apply existsb_key_true in Ec.
  unfold keys_unique, references_valid. cbn. rewrite !map_app. cbn.
  repeat split; try assumption.
  - apply NoDup_snoc; assumption.
  - apply NoDup_snoc; assumption.
  - intros s Hs. apply in_or_app. left. apply R1. exact Hs.
  - intros q Hq. apply in_or_app. left. apply R2. exact Hq.
  - intros r h' Hin Hh. apply in_app_or in Hin as [Hin | [<- | []]].
    + apply (R3 r h' Hin Hh).
    + cbn in Hh. injection Hh as <-. exact Ec.
Qed.

Lemma insert_vouchers_loop_schema (now : Time) (ids : list (string * string))
  (h a : string) (e : Z) :
  forall db,
  keys_unique db /\ references_valid db ->
  keys_unique (snd (insert_vouchers_loop now ids h a e db))
  /\ references_valid (snd (insert_vouchers_loop now ids h a e db)).
Proof.
  induction ids as [| [p w] rest IH]; intros db H; [exact H |].
  cbn [insert_vouchers_loop].
  pose proof (insert_voucher_schema now p w h a e db H) as H1.
  destruct (insert_voucher now p w h a e db) as [[err |] db1]; simpl in H1.
  - exact H1.
  - apply IH. exact H1.
Qed.

Lemma run_op_schema (op : StoreOp) (db : DB) :
  keys_unique db /\ references_valid db ->
  keys_unique (run_op op db) /\ references_valid (run_op op db).
Proof.
  intros H. destruct op; cbn [run_op].
  - (* InsertCreationRequest *)
    unfold InsertCreationRequest.
    destruct (existsb _ (creation_requests db)) eqn:Ec; [exact H |].
    apply existsb_key_false in Ec.
    destruct H as [(K1 & K2 & K3 & K4 & K5 & K6) (R1 & R2 & R3)].
    unfold keys_unique, references_valid. cbn. rewrite !map_app. cbn.
    repeat split; try assumption.
    + apply NoDup_snoc; assumption.
    + intros r h Hin Hh. apply in_or_app. left. apply (R3 r h Hin Hh).
  - (* UpdateCreationRequestStatus *)
    destruct H as [(K1 & K2 & K3 & K4 & K5 & K6) (R1 & R2 & R3)].
    unfold keys_unique, references_valid, UpdateCreationRequestStatus. cbn.
    rewrite (map_update_key cr_payment_hash) by reflexivity.
    repeat split; assumption.
  - (* InsertVouchers *)
    unfold InsertVouchers.
    pose proof (insert_vouchers_loop_schema now (combine payIDs withdrawIDs)
                  creationHash address expirySecs db H) as H1.
    destruct (insert_vouchers_loop now (combine payIDs withdrawIDs)
                creationHash address expirySecs db) as [[err |] db1];
      [exact H | exact H1].
  - (* CreditVoucherTx *)
    unfold CreditVoucherTx. cbn.
    apply (update_vouchers_schema payID (credited creditedMsats now) db)
      in H; try reflexivity.
    destruct H as [(K1 & K2 & K3 & K4 & K5 & K6) (R1 & R2 & R3)].
    unfold keys_unique, references_valid, mark_invoice_paid. cbn.
    rewrite (map_update_key pi_id), (map_update_key pi_payment_hash)
      by reflexivity.
    repeat split; try assumption.
    intros q Hq. apply in_map_iff in Hq as (q0 & <- & Hq).
    specialize (R2 q0 Hq).
    destruct (String.eqb (pi_payment_hash q0) paymentHash); exact R2.
  - (* DeactivateVoucher *)
    apply update_vouchers_schema; try reflexivity. exact H.
  - (* ReactivateVoucher *)
    apply update_vouchers_schema; try reflexivity. exact H.
  - (* InsertPayInvoice *)
    unfold InsertPayInvoice.
    destruct (existsb _ (pay_invoices db)) eqn:Ep; [exact H |].
    destruct (existsb _ (vouchers db)) eqn:Ev; [| exact H].
    apply existsb_two_keys_false in Ep as [Hi Hh].
    apply existsb_key_true in Ev.
    destruct H as [(K1 & K2 & K3 & K4 & K5 & K6) (R1 & R2 & R3)].
    unfold keys_unique, references_valid. cbn. rewrite !map_app. cbn.
    repeat split; try assumption.
    + apply NoDup_snoc; assumption.
    + apply NoDup_snoc; assumption.
    + intros q Hq. apply in_app_or in Hq as [Hq | [<- | []]];
        [apply R2; exact Hq | exact Ev].
  - (* InsertWithdrawSession *)
    unfold InsertWithdrawSession.
    destruct (existsb _ (withdraw_sessions db)) eqn:Es; [exact H |].
    destruct (existsb _ (vouchers db)) eqn:Ev; [| exact H].
    apply existsb_key_false in Es. apply existsb_key_true in Ev.
    destruct H as [(K1 & K2 & K3 & K4 & K5 & K6) (R1 & R2 & R3)].
    unfold keys_unique, references_valid. cbn. rewrite !map_app. cbn.
    repeat split; try assumption.
    + apply NoDup_snoc; assumption.
    + intros s Hs. apply in_app_or in Hs as [Hs | [<- | []]];
        [apply R1; exact Hs | exact Ev].
  - (* ValidateAndUseWithdrawSession *)
    destruct (ValidateAndUseWithdrawSession no_session_faults now k1
                withdrawID db) as [[payID | e] db1] eqn:E.
    + apply validate_ok in E as (s & r & _ & _ & _ & -> & _). cbn.
      destruct H as [(K1 & K2 & K3 & K4 & K5 & K6) (R1 & R2 & R3)].
      unfold keys_unique, references_valid, mark_session_used. cbn.
      rewrite (map_update_key s_k1) by reflexivity.
      repeat split; try assumption.
      intros s' Hs. apply in_map_iff in Hs as (s0 & <- & Hs).
      specialize (R1 s0 Hs). destruct (String.eqb (s_k1 s0) k1); exact R1.
    + apply validate_err in E. subst db1. exact H.
Qed.

(** X8.  Every write of db.go keeps the constraints the schema declares:
    after any sequence of writes the primary keys and the unique columns
    ([pay_id], [withdraw_id], [k1], the invoice id, the payment hashes)
    still occur once, and every session, pay invoice and voucher still
    refers to an existing voucher or creation request. *)
Theorem run_ops_keep_schema (ops : list StoreOp) (db : DB) :
  keys_unique db -> references_valid db ->
  keys_unique (run_ops ops db) /\ references_valid (run_ops ops db).
Proof.
  revert db. induction ops as [| op rest IH]; intros db K R; [split; assumption |].
  cbn [run_ops fold_left].
  destruct (run_op_schema op db (conj K R)) as [K1 R1].
  exact (IH (run_op op db) K1 R1).
Qed.

End Schema.

(** ** Vouchers are never deleted nor re-keyed *)

Section Vouchers.
Import Store.

Lemma set_vouchers_same (db : DB) : set_vouchers db (vouchers db) = db.
Proof. destruct db. reflexivity. Qed.

(** The loop of [InsertVouchers], when every [stmt.Exec] succeeds, appends
    one row per pair of ids. *)
Lemma insert_vouchers_loop_ok (now : Time) (ids : list (string * string))
  (h a : string) (e : Z) :
  forall db db',
  insert_vouchers_loop now ids h a e db = (None, db') ->
  db' = set_vouchers db (vouchers db ++ map (new_voucher now h a e) ids).
Proof.
  induction ids as [| [p w] rest IH]; intros db db' H; cbn in H.
  - injection H as <-. cbn. rewrite app_nil_r. symmetry.
    apply set_vouchers_same.
  - unfold insert_voucher in H.
    destruct (existsb _ (vouchers db) || negb (existsb _ (creation_requests db)));
      [discriminate |].
    apply IH in H. rewrite H. cbn. rewrite <- app_assoc. reflexivity.
Qed.

(** [InsertVouchers] either appends every row or leaves the store. *)
Lemma InsertVouchers_atomic_core (fault : option error) (now : Time)
  (payIDs withdrawIDs : list string) (creationHash address : string)
  (expirySecs : Z) (db : DB) :
  match InsertVouchers fault now payIDs withdrawIDs creationHash address
          expirySecs db with
  | (None, db') =>
      db' = set_vouchers db
              (vouchers db
               ++ map (new_voucher now creationHash address expirySecs)
                    (combine payIDs withdrawIDs))
  | (Some _, db') => db' = db
  end.
Proof.
  unfold InsertVouchers. destruct fault; [reflexivity |].
  destruct (insert_vouchers_loop now (combine payIDs withdrawIDs) creationHash
              address expirySecs db) as [[err |] db'] eqn:E; [reflexivity |].
  apply insert_vouchers_loop_ok. exact E.
Qed.

(** X10.  [InsertVouchers] is all or nothing: when it returns no error the
    store has gained exactly one fresh voucher per pair of ids, in order,
    each with a zero balance, the active flag set, no funding time and the
    given address and expiry; when it returns an error the store is
    unchanged, whatever number of rows had been inserted before the
    failing one. *)
Theorem InsertVouchers_atomic (fault : option error) (now : Time)
  (payIDs withdrawIDs : list string) (creationHash address : string)
  (expirySecs : Z) (db : DB) :
  match InsertVouchers fault now payIDs withdrawIDs creationHash address
          expirySecs db with
  | (None, db') =>
      db' = set_vouchers db
              (vouchers db
               ++ map (new_voucher now creationHash address expirySecs)
                    (combine payIDs withdrawIDs))
  | (Some _, db') => db' = db
  end.
Proof.
  apply InsertVouchers_atomic_core.
Qed.

Lemma run_op_identity (op : StoreOp) (db : DB) :
  exists new,
    map voucher_identity (vouchers (run_op op db))
    = map voucher_identity (vouchers db) ++ new.
Proof.
  destruct op; cbn [run_op].
  - exists []. rewrite app_nil_r. unfold InsertCreationRequest.
    destruct (existsb _ _); reflexivity.
  - exists []. rewrite app_nil_r. reflexivity.
  - pose proof (InsertVouchers_atomic_core None now payIDs withdrawIDs creationHash
                  address expirySecs db) as H.
    destruct (InsertVouchers None now payIDs withdrawIDs creationHash address
                expirySecs db) as [[err |] db'].
    + subst db'. exists []. rewrite app_nil_r. reflexivity.
    + subst db'. eexists. cbn. rewrite map_app. reflexivity.
  - exists []. rewrite app_nil_r. cbn. apply map_update_key. reflexivity.
  - exists []. rewrite app_nil_r. cbn. apply map_update_key. reflexivity.
  - exists []. rewrite app_nil_r. cbn. apply map_update_key. reflexivity.
  - exists []. rewrite app_nil_r. unfold InsertPayInvoice.
    destruct (_ || _); reflexivity.
  - exists []. rewrite app_nil_r. unfold InsertWithdrawSession.
    destruct (_ || _); reflexivity.
  - exists []. rewrite app_nil_r.
    destruct (ValidateAndUseWithdrawSession no_session_faults now k1
                withdrawID db) as [[payID | e] db1] eqn:E.
    + apply validate_ok in E as (s & r & _ & _ & _ & -> & _). reflexivity.
    + apply validate_err in E. subst db1. reflexivity.
Qed.

(** X9.  No write of db.go deletes a voucher or changes what identifies
    it: after any sequence of writes the vouchers of the store are the
    earlier ones, in the same order and with the same [pay_id],
    [withdraw_id], creation request, lightning address, expiry and creation
    time, followed by the vouchers inserted since. *)
Theorem run_ops_keep_vouchers (ops : list StoreOp) (db : DB) :
  exists new,
    map voucher_identity (vouchers (run_ops ops db))
    = map voucher_identity (vouchers db) ++ new.
Proof.
  revert db. induction ops as [| op rest IH]; intros db.
  - exists []. rewrite app_nil_r. reflexivity.
  - cbn [run_ops fold_left].
    destruct (IH (run_op op db)) as (new2 & H2).
    destruct (run_op_identity op db) as (new1 & H1).
    exists (new1 ++ new2). unfold run_ops in H2.
    rewrite H2, H1, app_assoc. reflexivity.
Qed.

End Vouchers.

Section SchemaWitness.
Import Store Examples FlowExamples.

Lemma run_ops_keep_schema_witness :
  keys_unique db_funded /\ references_valid db_funded
  /\ keys_unique
       (run_ops [OpInsertWithdrawSession (1000 * Second) "k1d" "w2";
                 OpCreditVoucher (1000 * Second) "p2" 47800 "hash1";
                 OpInsertVouchers (1000 * Second) ["p3"; "p1"] ["w3"; "w4"]
                   "h1" "carol@example.com" 2592000]
                db_funded)
  /\ references_valid
       (run_ops [OpInsertWithdrawSession (1000 * Second) "k1d" "w2";
                 OpCreditVoucher (1000 * Second) "p2" 47800 "hash1";
                 OpInsertVouchers (1000 * Second) ["p3"; "p1"] ["w3"; "w4"]
                   "h1" "carol@example.com" 2592000]
                db_funded).
Proof.
  assert (K : keys_unique db_funded).
  { unfold keys_unique. cbn.
    repeat split; repeat constructor; cbn; intuition discriminate. }
  assert (R : references_valid db_funded).
  { unfold references_valid. cbn. repeat split.
    - intros s Hs. intuition (subst; cbn; auto).
    - intros p [].
    - intros r h Hr Hh. intuition (subst; cbn in Hh; injection Hh as <-; auto). }
  split; [exact K |]. split; [exact R |].
  exact (run_ops_keep_schema _ db_funded K R).
Defined.

End SchemaWitness.

(** ** Expiry is final *)

Section ExpiryFinal.
Import Store Examples.

(** X11.  Time alone never makes a voucher active again: a voucher that is
    not active at some instant is not active at any later instant, as long
    as its row is not written.  This holds whatever the expiries, also
    where their durations wrap. *)
Theorem IsActive_stays_false (cfg : Config) (now later : Time) (v : Voucher) :
  IsActive cfg now v = false -> now <= later ->
  IsActive cfg later v = false.
Proof.
  unfold IsActive, Time_After, Time_Add. intros H Hle.
  destruct (Active v); cbn in *; [| reflexivity].
  destruct (Z.ltb_spec
              (CreatedAt v + seconds_duration (VoucherAbsoluteExpirySecs cfg))
              now) as [Ha | Ha].
  - destruct (Z.ltb_spec
                (CreatedAt v + seconds_duration (VoucherAbsoluteExpirySecs cfg))
                later); [reflexivity | lia].
  - destruct (Z.ltb_spec
                (CreatedAt v + seconds_duration (VoucherAbsoluteExpirySecs cfg))
                later); [reflexivity |].
    destruct (LastFundedAt v) as [lastFunded |]; [| discriminate].
    destruct (Z.ltb_spec (lastFunded + seconds_duration (ExpirySeconds v)) now);
      [| discriminate].
    destruct (Z.ltb_spec (lastFunded + seconds_duration (ExpirySeconds v)) later);
      [reflexivity | lia].
Qed.

Lemma IsActive_stays_false_witness :
  IsActive defaultConfig (2592101 * Second) voucher_example = false
  /\ 2592101 * Second <= 2600000 * Second
  /\ IsActive defaultConfig (2600000 * Second) voucher_example = false.
Proof.
  assert (H1 : IsActive defaultConfig (2592101 * Second) voucher_example = false)
    by reflexivity.
  assert (H2 : 2592101 * Second <= 2600000 * Second)
    by (unfold Second; lia).
  split; [exact H1 |]. split; [exact H2 |].
  exact (IsActive_stays_false defaultConfig _ _ voucher_example H1 H2).
Defined.

End ExpiryFinal.

(** ** Issued sessions *)

Section IssuedSessions.
Import Store Examples FlowExamples.

Lemma existsb_find_none {A : Type} (p : A -> bool) (l : list A) :
  existsb p l = false -> find p l = None.
Proof.
  induction l as [| x l IH]; cbn; [reflexivity |].
  destruct (p x); cbn; [discriminate | exact IH].
Qed.

Lemma existsb_find_some {A : Type} (p : A -> bool) (l : list A) :
  existsb p l = true -> exists x, find p l = Some x /\ p x = true.
Proof.
  induction l as [| x l IH]; cbn; [discriminate |].
  destruct (p x) eqn:E; cbn; [intros _; exists x; auto | exact IH].
Qed.

Lemma find_app_none {A : Type} (p : A -> bool) (l l' : list A) :
  find p l = None -> find p (l ++ l') = find p l'.
Proof.
  induction l as [| x l IH]; cbn; [reflexivity |].
  destruct (p x); [discriminate | exact IH].
Qed.

(** What a successful [InsertWithdrawSession] did. *)
Lemma insert_session_ok (fault : option error) (now : Time)
  (k1 withdrawID : string) (db db1 : DB) :
  InsertWithdrawSession fault now k1 withdrawID db = (None, db1) ->
  find_session k1 db = None
  /\ (exists r, find_by_withdraw_id withdrawID db = Some r
                /\ withdraw_id r = withdrawID)
  /\ db1 = set_sessions db
             (withdraw_sessions db
              ++ [{| s_k1 := k1; s_withdraw_id := withdrawID;
                     s_created_at := unix_seconds now; s_used := 0;
                     s_used_at := None |}]).
Proof.
  unfold InsertWithdrawSession. intros H.
  destruct (existsb _ (withdraw_sessions db)) eqn:Es; [discriminate |].
  destruct (existsb _ (vouchers db)) eqn:Ev; [| discriminate].
  cbn in H. destruct fault; [discriminate |]. cbn in H. injection H as <-.
  split; [apply existsb_find_none; exact Es |]. split; [| reflexivity].
  apply existsb_find_some in Ev as (r & Hr & Hw).
  exists r. split; [exact Hr | apply String.eqb_eq; exact Hw].
Qed.

(** A stored session validates once for its voucher and for no other. *)
Lemma issued_session_validates_core (fault : option error) (now now' : Time)
  (k1 withdrawID : string) (db db1 : DB) :
  InsertWithdrawSession fault now k1 withdrawID db = (None, db1) ->
  (exists r,
     find_by_withdraw_id withdrawID db = Some r
     /\ ValidateAndUseWithdrawSession no_session_faults now' k1 withdrawID db1
        = (Ok (pay_id r), mark_session_used k1 now' db1))
  /\ (forall other, other <> withdrawID ->
      ValidateAndUseWithdrawSession no_session_faults now' k1 other db1
      = (Err (ErrMsg "k1 mismatch"), db1)).
Proof.
  intros H. apply insert_session_ok in H as (Hnone & (r & Hr & Hw) & ->).
  assert (Hs : find_session k1
                 (set_sessions db
                    (withdraw_sessions db
                     ++ [{| s_k1 := k1; s_withdraw_id := withdrawID;
                            s_created_at := unix_seconds now; s_used := 0;
                            s_used_at := None |}]))
               = Some {| s_k1 := k1; s_withdraw_id := withdrawID;
                         s_created_at := unix_seconds now; s_used := 0;
                         s_used_at := None |}).
  { unfold find_session in *. cbn [withdraw_sessions set_sessions].
    rewrite find_app_none by exact Hnone. cbn. rewrite String.eqb_refl.
    reflexivity. }
  split.
  - exists r. split; [exact Hr |].
    unfold ValidateAndUseWithdrawSession. cbn [no_session_faults sf_begin
      sf_scan_session sf_update sf_scan_voucher sf_commit].
    rewrite Hs. cbn [s_withdraw_id s_used]. rewrite String.eqb_refl. cbn.
    unfold find_by_withdraw_id in *. cbn [vouchers mark_session_used set_sessions].
    rewrite Hr. reflexivity.
  - intros other Hne.
    unfold ValidateAndUseWithdrawSession. cbn [no_session_faults sf_begin
      sf_scan_session sf_update sf_scan_voucher sf_commit].
    rewrite Hs. cbn [s_withdraw_id s_used].
    destruct (String.eqb_spec withdrawID other) as [-> | _];
      [contradiction | reflexivity].
Qed.

(** X12.  A session that [InsertWithdrawSession] stored is bound to the
    voucher it was issued for: its first validation with that voucher's
    [withdraw_id] succeeds, returns the voucher's [pay_id] and marks the
    session used; a validation with any other [withdraw_id] fails with
    "k1 mismatch" and leaves the session unused. *)
Theorem issued_session_validates (fault : option error) (now now' : Time)
  (k1 withdrawID : string) (db db1 : DB) :
  InsertWithdrawSession fault now k1 withdrawID db = (None, db1) ->
  (exists r,
     find_by_withdraw_id withdrawID db = Some r
     /\ ValidateAndUseWithdrawSession no_session_faults now' k1 withdrawID db1
        = (Ok (pay_id r), mark_session_used k1 now' db1))
  /\ (forall other, other <> withdrawID ->
      ValidateAndUseWithdrawSession no_session_faults now' k1 other db1
      = (Err (ErrMsg "k1 mismatch"), db1)).
Proof. apply issued_session_validates_core. Qed.

Lemma issued_session_validates_witness :
  InsertWithdrawSession None (1000 * Second) "k1d" "w2" db_funded
  = (None, run_op (OpInsertWithdrawSession (1000 * Second) "k1d" "w2") db_funded)
  /\ ValidateAndUseWithdrawSession no_session_faults (1001 * Second) "k1d" "w1"
       (run_op (OpInsertWithdrawSession (1000 * Second) "k1d" "w2") db_funded)
     = (Err (ErrMsg "k1 mismatch"),
        run_op (OpInsertWithdrawSession (1000 * Second) "k1d" "w2") db_funded).
Proof.
  assert (H : InsertWithdrawSession None (1000 * Second) "k1d" "w2" db_funded
              = (None, run_op (OpInsertWithdrawSession (1000 * Second) "k1d" "w2")
                         db_funded)) by reflexivity.
  split; [exact H |].
  destruct (issued_session_validates None (1000 * Second) (1001 * Second)
              "k1d" "w2" db_funded _ H) as (_ & Hother).
  apply Hother. discriminate.
Defined.

End IssuedSessions.

(** ** The LNURL endpoints *)

Section Endpoints.
Import Store Handlers Flows Examples FlowExamples.

Lemma withdraw_pay_status (env : WithdrawEnv) (payID pr : string) (db : DB) :
  http_status (fst (fst (withdraw_pay env payID pr db))) = 200.
Proof.
  unfold withdraw_pay.
  destruct (w_pay env) as [err |].
  - destruct (outcome_unknown err); [| reflexivity].
    destruct (DeactivateVoucher _ _ _). reflexivity.
  - destruct (w_begin_fault env); [reflexivity |].
    destruct (DeactivateVoucherTx _ _ _) as [[e |] db1]; [reflexivity |].
    destruct (w_commit_fault env); reflexivity.
Qed.

(** X13.  The four LNURL endpoints always answer HTTP 200, whatever the
    request, the store, the gateway and the faults: an LNURL error travels
    in the body, never in the status line. *)
Theorem lnurl_endpoints_answer_200 (cfg : Config) (db : DB) :
  (forall now fault payID,
     http_status (handleLNURLPay cfg now fault payID db) = 200)
  /\ (forall env payID amountStr,
        http_status
          (fst (fst (fst (handleLNURLPayCallback cfg env payID amountStr db))))
        = 200)
  /\ (forall env withdrawID,
        http_status (fst (handleLNURLWithdraw cfg env withdrawID db)) = 200)
  /\ (forall env withdrawID k1 pr,
        http_status
          (fst (fst (handleLNURLWithdrawCallback cfg env withdrawID k1 pr db)))
        = 200).
Proof.
  repeat split.
  - intros now fault payID. unfold handleLNURLPay.
    destruct (GetVoucherByPayID fault payID db) as [v | e]; [| reflexivity].
    destruct (IsActive cfg now v); reflexivity.
  - intros env payID amountStr. unfold handleLNURLPayCallback.
    destruct (String.eqb amountStr ""); [reflexivity |].
    destruct (p_sscan env amountStr) as [amount |]; [| reflexivity].
    destruct (amount <=? 0); [reflexivity |].
    destruct (GetVoucherByPayID _ payID db) as [v | e]; [| reflexivity].
    destruct (IsActive cfg (p_now env) v); [| reflexivity]. cbn [negb].
    destruct (wrap64 (amount - feeMsats cfg amount) <=? 0); [reflexivity |].
    destruct (p_create_invoice env) as [inv | e]; [| reflexivity].
    destruct (InsertPayInvoice _ _ _ _ _ _ _ _) as [[e |] db1]; reflexivity.
  - intros env withdrawID. unfold handleLNURLWithdraw.
    destruct (GetVoucherByWithdrawID _ withdrawID db) as [v | e]; [| reflexivity].
    destruct (IsActive cfg (i_now env) v); [| reflexivity]. cbn [negb].
    destruct (TotalPaidMsats v <=? 0); [reflexivity |].
    destruct (i_rand env) as [k1Bytes | e]; [| reflexivity].
    destruct (InsertWithdrawSession _ _ _ _ _) as [[e |] db1]; reflexivity.
  - intros env withdrawID k1 pr. unfold handleLNURLWithdrawCallback.
    destruct (String.eqb k1 "" || String.eqb pr ""); [reflexivity |].
    destruct (ValidateAndUseWithdrawSession _ _ _ _ _) as [[payID | e] db1];
      [| reflexivity].
    destruct (GetVoucherByWithdrawID _ withdrawID db1) as [v | e]; [| reflexivity].
    destruct (IsActive cfg (w_now env) v); [| reflexivity]. cbn [negb].
    destruct (TotalPaidMsats v <=? 0); [reflexivity |].
    apply withdraw_pay_status.
Qed.

(** The hex encoding of some bytes is not the empty string. *)
Lemma hex_nonempty (bs : list Z) :
  bs <> [] -> hex_EncodeToString bs <> "".
Proof. destruct bs; [congruence | discriminate]. Qed.

(** X14.  The first step of a withdrawal either answers an LNURL error and
    leaves the store as it was, or answers a withdraw request for an active
    voucher with a positive balance: then the least and the greatest
    withdrawable amounts are both the whole balance, the challenge is the
    hex encoding of the random bytes, and the store has gained exactly one
    unused session, with that challenge, for that voucher. *)
Theorem withdraw_request_issued (cfg : Config) (env : WithdrawInfoEnv)
  (withdrawID : string) (db : DB) :
  (exists reason,
     handleLNURLWithdraw cfg env withdrawID db = (lnurlError reason, db))
  \/ (exists r k1Bytes resp,
        handleLNURLWithdraw cfg env withdrawID db
        = (resp,
           set_sessions db
             (withdraw_sessions db
              ++ [{| s_k1 := hex_EncodeToString k1Bytes;
                     s_withdraw_id := withdrawID;
                     s_created_at := unix_seconds (i_now env);
                     s_used := 0; s_used_at := None |}]))
        /\ find_by_withdraw_id withdrawID db = Some r
        /\ IsActive cfg (i_now env) (scanVoucher r) = true
        /\ 0 < total_paid_msats r
        /\ i_rand env = Ok k1Bytes
        /\ find_session (hex_EncodeToString k1Bytes) db = None
        /\ In ("tag", JString "withdrawRequest") (body resp)
        /\ In ("k1", JString (hex_EncodeToString k1Bytes)) (body resp)
        /\ In ("minWithdrawable", JNumber (total_paid_msats r)) (body resp)
        /\ In ("maxWithdrawable", JNumber (total_paid_msats r)) (body resp)).
Proof.
  unfold handleLNURLWithdraw, GetVoucherByWithdrawID, query_voucher.
  destruct (i_get_voucher_fault env); [left; eexists; reflexivity |].
  destruct (find_by_withdraw_id withdrawID db) as [r |] eqn:Hr;
    [| left; eexists; reflexivity].
  destruct (IsActive cfg (i_now env) (scanVoucher r)) eqn:Hact;
    [| left; eexists; reflexivity].
  cbn [negb]. cbn [TotalPaidMsats scanVoucher].
  destruct (Z.leb_spec (total_paid_msats r) 0) as [| Hbal];
    [left; eexists; reflexivity |].
  destruct (i_rand env) as [k1Bytes | e]; [| left; eexists; reflexivity].
  destruct (InsertWithdrawSession (i_insert_fault env) (i_now env)
              (hex_EncodeToString k1Bytes) withdrawID db)
    as [[e |] db1] eqn:Hins.
  - left. exists "database error". f_equal.
    unfold InsertWithdrawSession in Hins.
    destruct (_ || _); [congruence |].
    unfold exec in Hins. destruct (i_insert_fault env); congruence.
  - right. apply insert_session_ok in Hins as (Hnone & _ & ->).
    exists r, k1Bytes. eexists. split; [reflexivity |].
    repeat split; try assumption; try reflexivity; cbn; auto 10.
Qed.

(** X15.  A withdraw request that was issued can be redeemed: after a
    successful first step, the callback called with the issued challenge
    and an invoice, while the voucher is still active and the store does
    not fail, accepts the session and goes on to pay the invoice for the
    voucher. *)
Theorem issued_withdraw_request_redeems (cfg : Config) (env : WithdrawInfoEnv)
  (env2 : WithdrawEnv) (withdrawID pr : string) (db db1 : DB)
  (resp : Response) (r : VoucherRow) (k1Bytes : list Z) :
  handleLNURLWithdraw cfg env withdrawID db = (resp, db1) ->
  In ("tag", JString "withdrawRequest") (body resp) ->
  find_by_withdraw_id withdrawID db = Some r ->
  i_rand env = Ok k1Bytes -> k1Bytes <> [] -> pr <> "" ->
  w_session_faults env2 = no_session_faults ->
  w_get_voucher_fault env2 = None ->
  IsActive cfg (w_now env2) (scanVoucher r) = true ->
  handleLNURLWithdrawCallback cfg env2 withdrawID
    (hex_EncodeToString k1Bytes) pr db1
  = withdraw_pay env2 (pay_id r) pr
      (mark_session_used (hex_EncodeToString k1Bytes) (w_now env2) db1)
  /\ exists rest,
       snd (handleLNURLWithdrawCallback cfg env2 withdrawID
              (hex_EncodeToString k1Bytes) pr db1)
       = EvPayInvoice pr :: rest.
Proof.
  intros H Htag Hr Hrand Hne Hpr Hsf Hgf Hact.
  assert (Hins : InsertWithdrawSession (i_insert_fault env) (i_now env)
                   (hex_EncodeToString k1Bytes) withdrawID db = (None, db1)
                 /\ 0 < total_paid_msats r).
  { unfold handleLNURLWithdraw, GetVoucherByWithdrawID, query_voucher in H.
    destruct (i_get_voucher_fault env);
      [injection H as <- _; cbn in Htag; intuition discriminate |].
    rewrite Hr in H.
    destruct (IsActive cfg (i_now env) (scanVoucher r));
      [| injection H as <- _; cbn in Htag; intuition discriminate].
    cbn [negb TotalPaidMsats scanVoucher] in H.
    destruct (Z.leb_spec (total_paid_msats r) 0) as [| Hbal];
      [injection H as <- _; cbn in Htag; intuition discriminate |].
    rewrite Hrand in H.
    destruct (InsertWithdrawSession (i_insert_fault env) (i_now env)
                (hex_EncodeToString k1Bytes) withdrawID db) as [[e |] db2];
      [injection H as <- _; cbn in Htag; intuition discriminate |].
    injection H as _ <-. split; [reflexivity | exact Hbal]. }
  destruct Hins as [Hins Hbal].
  destruct (issued_session_validates_core _ _ (w_now env2) _ _ _ _ Hins)
    as ((r' & Hr' & Hval) & _).
  rewrite Hr in Hr'. injection Hr' as <-.
  assert (Hfind : find_by_withdraw_id withdrawID
                    (mark_session_used (hex_EncodeToString k1Bytes)
                       (w_now env2) db1) = Some r).
  { apply insert_session_ok in Hins as (_ & _ & ->). exact Hr. }
  assert (Heq : handleLNURLWithdrawCallback cfg env2 withdrawID
                  (hex_EncodeToString k1Bytes) pr db1
                = withdraw_pay env2 (pay_id r) pr
                    (mark_session_used (hex_EncodeToString k1Bytes)
                       (w_now env2) db1)).
  { unfold handleLNURLWithdrawCallback.
    destruct (String.eqb_spec (hex_EncodeToString k1Bytes) "") as [E | _];
      [exfalso; exact (hex_nonempty k1Bytes Hne E) |].
    destruct (String.eqb_spec pr "") as [E | _]; [contradiction |].
    cbn [orb]. rewrite Hsf, Hval, Hgf.
    unfold GetVoucherByWithdrawID, query_voucher. rewrite Hfind, Hact.
    cbn [negb TotalPaidMsats scanVoucher].
    destruct (Z.leb_spec (total_paid_msats r) 0); [lia | reflexivity]. }
  split; [exact Heq |]. rewrite Heq. unfold withdraw_pay.
  destruct (w_pay env2) as [err |].
  - destruct (outcome_unknown err); [| eexists; reflexivity].
    destruct (DeactivateVoucher _ _ _). eexists. reflexivity.
  - destruct (w_begin_fault env2); [eexists; reflexivity |].
    destruct (DeactivateVoucherTx _ _ _) as [[e |] db2]; [eexists; reflexivity |].
    destruct (w_commit_fault env2); eexists; reflexivity.
Qed.

Lemma issued_withdraw_request_redeems_witness :
  find_by_withdraw_id "w1" db_funded = Some row_example
  /\ IsActive defaultConfig (w_now (withdraw_env None)) (scanVoucher row_example)
     = true
  /\ snd (handleLNURLWithdrawCallback defaultConfig (withdraw_env None) "w1"
            (hex_EncodeToString (repeat 171 32)) "lnbc1"
            (snd (handleLNURLWithdraw defaultConfig withdraw_info_env "w1"
                    db_funded)))
     = [EvPayInvoice "lnbc1"; EvDeactivateVoucher "p1"].
Proof.
  assert (H1 : find_by_withdraw_id "w1" db_funded = Some row_example)
    by reflexivity.
  assert (H2 : IsActive defaultConfig (w_now (withdraw_env None))
                 (scanVoucher row_example) = true) by reflexivity.
  split; [exact H1 |]. split; [exact H2 |].
  destruct (issued_withdraw_request_redeems defaultConfig withdraw_info_env
              (withdraw_env None) "w1" "lnbc1" db_funded
              (snd (handleLNURLWithdraw defaultConfig withdraw_info_env "w1"
                      db_funded))
              (fst (handleLNURLWithdraw defaultConfig withdraw_info_env "w1"
                      db_funded))
              row_example (repeat 171 32)
              eq_refl
              (or_introl eq_refl) H1 eq_refl
              ltac:(discriminate) ltac:(discriminate) eq_refl eq_refl H2)
    as [Heq _].
  rewrite Heq. reflexivity.
Defined.

End Endpoints.

(** ** The detached task of the funding callback *)

Section Crediting.
Import Store Handlers Flows Examples FlowExamples.

Lemma find_by_pay_id_update (p : string) (f : VoucherRow -> VoucherRow)
  (db : DB) (r : VoucherRow) :
  (forall x, pay_id (f x) = pay_id x) ->
  find_by_pay_id p db = Some r ->
  find_by_pay_id p (update_vouchers p f db) = Some (f r).
Proof.
  intros Hk Hr. unfold find_by_pay_id in *. cbn [vouchers update_vouchers set_vouchers].
  rewrite (find_map_same_key (fun r => String.eqb (pay_id r) p)
             (fun r => if String.eqb (pay_id r) p then f r else r)).
  - rewrite Hr. cbn. apply find_some in Hr as [_ Hp]. rewrite Hp. reflexivity.
  - intros x. destruct (String.eqb (pay_id x) p) eqn:E; [| exact E].
    rewrite Hk. exact E.
Qed.

(** The task on a voucher that is active when the payment is confirmed,
    with no fault of the store. *)
Lemma creditTask_active (cfg : Config) (env : CreditEnv) (task : CreditTask)
  (db : DB) (r : VoucherRow) :
  c_wait env = None -> c_begin_fault env = None ->
  c_get_voucher_fault env = None -> c_credit_fault env = None ->
  c_mark_paid_fault env = None -> c_commit_fault env = None ->
  find_by_pay_id (task_pay_id task) db = Some r ->
  IsActive cfg (c_now env) (scanVoucher r) = true ->
  creditTask cfg env task db
  = (mark_invoice_paid (task_payment_hash task) (c_now env)
       (update_vouchers (task_pay_id task)
          (credited (task_credited_msats task) (c_now env)) db),
     []).
Proof.
  intros Hw Hb Hg Hc Hm Hco Hr Hact. unfold creditTask.
  rewrite Hw, Hb, Hg. unfold GetVoucherByPayID, query_voucher.
  rewrite Hr, Hact. unfold CreditVoucherTx. rewrite Hc, Hm, Hco. reflexivity.
Qed.

(** X16.  Two confirmed payments for the same voucher both count: when the
    two tasks run one after the other, each finding the voucher active and
    the store not failing, the balance ends at the earlier balance plus
    both credited amounts, the funding time is that of the second credit,
    and neither task calls the gateway or another host. *)
Theorem credits_add (cfg : Config) (env1 env2 : CreditEnv)
  (task1 task2 : CreditTask) (db : DB) (r : VoucherRow) :
  c_wait env1 = None -> c_begin_fault env1 = None ->
  c_get_voucher_fault env1 = None -> c_credit_fault env1 = None ->
  c_mark_paid_fault env1 = None -> c_commit_fault env1 = None ->
  c_wait env2 = None -> c_begin_fault env2 = None ->
  c_get_voucher_fault env2 = None -> c_credit_fault env2 = None ->
  c_mark_paid_fault env2 = None -> c_commit_fault env2 = None ->
  task_pay_id task2 = task_pay_id task1 ->
  find_by_pay_id (task_pay_id task1) db = Some r ->
  IsActive cfg (c_now env1) (scanVoucher r) = true ->
  IsActive cfg (c_now env2)
    (scanVoucher (credited (task_credited_msats task1) (c_now env1) r)) = true ->
  exists r2,
    find_by_pay_id (task_pay_id task1)
      (fst (creditTask cfg env2 task2 (fst (creditTask cfg env1 task1 db))))
    = Some r2
    /\ total_paid_msats r2
       = total_paid_msats r + task_credited_msats task1
         + task_credited_msats task2
    /\ last_funded_at r2 = Some (unix_seconds (c_now env2))
    /\ active r2 = active r
    /\ snd (creditTask cfg env1 task1 db) = []
    /\ snd (creditTask cfg env2 task2 (fst (creditTask cfg env1 task1 db))) = [].
Proof.
  intros W1 B1 G1 C1 M1 O1 W2 B2 G2 C2 M2 O2 Hid Hr Ha1 Ha2.
  destruct task2 as [p2 c2 h2].
  cbn [task_pay_id task_credited_msats task_payment_hash] in *. subst p2.
  rewrite (creditTask_active cfg env1 task1 db r) by assumption.
  cbn [fst snd].
  set (db1 := mark_invoice_paid (task_payment_hash task1) (c_now env1)
                (update_vouchers (task_pay_id task1)
                   (credited (task_credited_msats task1) (c_now env1)) db)).
  assert (Hr1 : find_by_pay_id (task_pay_id task1) db1
                = Some (credited (task_credited_msats task1) (c_now env1) r)).
  { exact (find_by_pay_id_update (task_pay_id task1)
             (credited (task_credited_msats task1) (c_now env1)) db r
             (fun _ => eq_refl) Hr). }
  rewrite (creditTask_active cfg env2
             {| task_pay_id := task_pay_id task1; task_credited_msats := c2;
                task_payment_hash := h2 |} db1 _ W2 B2 G2 C2 M2 O2 Hr1 Ha2).
  cbn [fst snd task_pay_id task_credited_msats task_payment_hash].
  eexists. split.
  - exact (find_by_pay_id_update (task_pay_id task1) (credited c2 (c_now env2))
             db1 _ (fun _ => eq_refl) Hr1).
  - cbn. repeat split; lia.
Qed.

Lemma credits_add_witness :
  find_by_pay_id "p1" db_funded = Some row_example
  /\ IsActive defaultConfig (1000 * Second) (scanVoucher row_example) = true
  /\ IsActive defaultConfig (2000 * Second)
       (scanVoucher (credited 47800 (1000 * Second) row_example)) = true
  /\ exists r2,
       find_by_pay_id "p1"
         (fst (creditTask defaultConfig (credit_env (2000 * Second))
                 credit_task_small
                 (fst (creditTask defaultConfig (credit_env (1000 * Second))
                         credit_task db_funded))))
       = Some r2
       /\ total_paid_msats r2 = 48000 + 47800 + 1000.
Proof.
  assert (H1 : find_by_pay_id "p1" db_funded = Some row_example)
    by reflexivity.
  assert (H2 : IsActive defaultConfig (1000 * Second) (scanVoucher row_example)
               = true) by reflexivity.
  assert (H3 : IsActive defaultConfig (2000 * Second)
                 (scanVoucher (credited 47800 (1000 * Second) row_example))
               = true) by reflexivity.
  split; [exact H1 |]. split; [exact H2 |]. split; [exact H3 |].
  destruct (credits_add defaultConfig (credit_env (1000 * Second))
              (credit_env (2000 * Second)) credit_task credit_task_small
              db_funded row_example
              eq_refl eq_refl eq_refl eq_refl eq_refl eq_refl
              eq_refl eq_refl eq_refl eq_refl eq_refl eq_refl
              eq_refl H1 H2 H3) as (r2 & Hf & Ht & _).
  exists r2. split; [exact Hf | exact Ht].
Defined.

(** X17.  A confirmation that finds the voucher inactive never changes the
    store, whatever the faults: the balance is not increased and the pay
    invoice is not marked paid.  When the voucher could be read, the task
    instead refunds the credited amount (the payment less the fee) to the
    voucher's lightning address, and calls nothing else. *)
Theorem credit_after_deactivation (cfg : Config) (env : CreditEnv)
  (task : CreditTask) (db : DB) (r : VoucherRow) :
  find_by_pay_id (task_pay_id task) db = Some r ->
  IsActive cfg (c_now env) (scanVoucher r) = false ->
  fst (creditTask cfg env task db) = db
  /\ (c_wait env = None -> c_begin_fault env = None ->
      c_get_voucher_fault env = None ->
      snd (creditTask cfg env task db)
      = snd (RefundToLightningAddress (c_network env) (lightning_address r)
               (task_credited_msats task))).
Proof.
  intros Hr Hact. unfold creditTask, GetVoucherByPayID, query_voucher.
  rewrite Hr. split.
  - destruct (c_wait env); [reflexivity |].
    destruct (c_begin_fault env); [reflexivity |].
    destruct (c_get_voucher_fault env); [reflexivity |].
    rewrite Hact.
    destruct (RefundToLightningAddress _ _ _). reflexivity.
  - intros -> -> ->. rewrite Hact. cbn [LightningAddress scanVoucher].
    destruct (RefundToLightningAddress _ _ _). reflexivity.
Qed.

Lemma credit_after_deactivation_witness :
  find_by_pay_id "p1" db_funded = Some row_example
  /\ IsActive defaultConfig (2592101 * Second) (scanVoucher row_example) = false
  /\ fst (creditTask defaultConfig (credit_env (2592101 * Second)) credit_task
            db_funded) = db_funded
  /\ snd (creditTask defaultConfig (credit_env (2592101 * Second)) credit_task
            db_funded)
     = [EvHTTPGet "https://example.com/.well-known/lnurlp/alice";
        EvGetInvoice "https://example.com/cb" 47000;
        EvPayInvoice "lnbc-refund"].
Proof.
  assert (H1 : find_by_pay_id "p1" db_funded = Some row_example)
    by reflexivity.
  assert (H2 : IsActive defaultConfig (2592101 * Second)
                 (scanVoucher row_example) = false) by reflexivity.
  split; [exact H1 |]. split; [exact H2 |].
  destruct (credit_after_deactivation defaultConfig
              (credit_env (2592101 * Second)) credit_task db_funded
              row_example H1 H2) as [Hdb Htr].
  split; [exact Hdb |].
  rewrite (Htr eq_refl eq_refl eq_refl). reflexivity.
Defined.

End Crediting.

(** ** Voucher creation *)

Section Creation.
Import Store Handlers Flows Examples FlowExamples.

Lemma find_creation_request_new (h : string) (db : DB) (c : CreationRow) :
  existsb (fun c => String.eqb (cr_payment_hash c) h) (creation_requests db)
  = false ->
  cr_payment_hash c = h ->
  GetCreationRequest None h
    (set_creation_requests db (creation_requests db ++ [c])) = Ok c.
Proof.
  intros Hnew Hc. unfold GetCreationRequest.
  cbn [creation_requests set_creation_requests].
  rewrite find_app_none by (apply existsb_find_none; exact Hnew).
  cbn. rewrite Hc, String.eqb_refl. reflexivity.
Qed.

(** X18.  [handleCreateInvoice] starts its task only for a valid request
    whose creation request row it stored.  Without a task the store is
    unchanged; a request that is not JSON, whose address does not match or
    whose count is outside [1, MaxVouchersPerRequest] is answered 400
    before any call to the gateway.  With a task, the answer is 200, the
    count is within bounds, the gateway was asked once for an invoice of
    [FeePerVoucherSats * count] sats, the stored request is pending with
    that fee, and the expiry is the requested one when positive and the
    default otherwise. *)
Theorem create_invoice_outcomes (cfg : Config) (env : CreateEnv)
  (body : option createInvoiceRequest) (db db' : DB) (resp : Response)
  (tr : list Event) (task : option CreationTask) :
  handleCreateInvoice cfg env body db = (resp, db', tr, task) ->
  (task = None -> db' = db)
  /\ ((body = None
       \/ (exists req, body = Some req
             /\ (ce_address_matches env (req_lightning_address req) = false
                 \/ req_count req < 1
                 \/ MaxVouchersPerRequest cfg < req_count req))) ->
      http_status resp = 400 /\ tr = [] /\ task = None)
  /\ (forall t, task = Some t ->
      exists req inv,
        body = Some req
        /\ ce_create_invoice env = Ok inv
        /\ ce_address_matches env (req_lightning_address req) = true
        /\ 1 <= req_count req <= MaxVouchersPerRequest cfg
        /\ http_status resp = 200
        /\ tr = [EvCreateInvoice
                   (wrap64 (wrap64 (FeePerVoucherSats cfg * req_count req) * 1000))
                   ("TipMe: create " ++ fmt_d (req_count req) ++ " voucher(s)")%string]
        /\ ct_payment_hash t = PaymentHash inv
        /\ ct_lightning_address t = req_lightning_address req
        /\ ct_count t = req_count req
        /\ ct_expiry_seconds t
           = (if req_expiry_seconds req <=? 0
              then DefaultRelativeExpirySecs cfg
              else req_expiry_seconds req)
        /\ GetCreationRequest None (PaymentHash inv) db'
           = Ok {| cr_payment_hash := PaymentHash inv;
                   cr_lightning_address := req_lightning_address req;
                   cr_count := req_count req;
                   cr_expiry_seconds := ct_expiry_seconds t;
                   cr_fee_msats :=
                     wrap64 (wrap64 (FeePerVoucherSats cfg * req_count req) * 1000);
                   cr_status := "pending";
                   cr_created_at := unix_seconds (ce_now env) |}).
Proof.
  unfold handleCreateInvoice. intros H.
  destruct body as [req |]; [| injection H as <- <- <- <-].
  2:{ split; [reflexivity |]. split; [auto |]. intros t Ht. discriminate. }
  destruct (ce_address_matches env (req_lightning_address req)) eqn:Haddr;
    cbn [negb] in H; [| injection H as <- <- <- <-].
  2:{ split; [reflexivity |]. split; [auto |]. intros t Ht. discriminate. }
  destruct (Z.ltb_spec (req_count req) 1) as [Hlow | Hlow];
    [injection H as <- <- <- <- |].
  { split; [reflexivity |]. split; [auto |]. intros t Ht. discriminate. }
  destruct (Z.ltb_spec (MaxVouchersPerRequest cfg) (req_count req)) as [Hhi | Hhi];
    cbn [orb] in H; [injection H as <- <- <- <- |].
  { split; [reflexivity |]. split; [auto |]. intros t Ht. discriminate. }
  assert (Hvalid : ~ (Some req = None
                      \/ exists req0, Some req = Some req0
                           /\ (ce_address_matches env (req_lightning_address req0)
                               = false
                               \/ req_count req0 < 1
                               \/ MaxVouchersPerRequest cfg < req_count req0))).
  { intros [E | (req0 & E & Hbad)]; [discriminate |].
    injection E as <-. rewrite Haddr in Hbad.
    destruct Hbad as [E | [E | E]]; [discriminate | lia | lia]. }
  destruct (ce_create_invoice env) as [inv | e]; [| injection H as <- <- <- <-].
  2:{ split; [reflexivity |]. split; [intros Hb; contradiction |].
      intros t Ht. discriminate. }
  unfold InsertCreationRequest in H.
  destruct (existsb _ (creation_requests db)) eqn:Hnew;
    [injection H as <- <- <- <- |].
  { split; [reflexivity |]. split; [intros Hb; contradiction |].
    intros t Ht. discriminate. }
  unfold exec in H.
  destruct (ce_insert_fault env); injection H as <- <- <- <-.
  { split; [reflexivity |]. split; [intros Hb; contradiction |].
    intros t Ht. discriminate. }
  split; [discriminate |]. split; [intros Hb; contradiction |].
  intros t Ht. injection Ht as <-. exists req, inv.
  cbn [ct_payment_hash ct_lightning_address ct_count ct_expiry_seconds].
  repeat split; try assumption; try reflexivity.
  apply find_creation_request_new; [exact Hnew | reflexivity].
Qed.

Lemma create_invoice_outcomes_witness :
  handleCreateInvoice defaultConfig create_env (Some create_request) db_funded
  = (fst (fst (fst (handleCreateInvoice defaultConfig create_env
                      (Some create_request) db_funded))),
     snd (fst (fst (handleCreateInvoice defaultConfig create_env
                      (Some create_request) db_funded))),
     snd (fst (handleCreateInvoice defaultConfig create_env
                 (Some create_request) db_funded)),
     Some {| ct_payment_hash := "h2";
             ct_lightning_address := "carol@example.com";
             ct_count := 3; ct_expiry_seconds := 2592000 |})
  /\ snd (fst (handleCreateInvoice defaultConfig create_env
                 (Some create_request) db_funded))
     = [EvCreateInvoice 30000 "TipMe: create 3 voucher(s)"].
Proof.
  assert (H : handleCreateInvoice defaultConfig create_env (Some create_request)
                db_funded
              = (fst (fst (fst (handleCreateInvoice defaultConfig create_env
                                  (Some create_request) db_funded))),
                 snd (fst (fst (handleCreateInvoice defaultConfig create_env
                                  (Some create_request) db_funded))),
                 snd (fst (handleCreateInvoice defaultConfig create_env
                             (Some create_request) db_funded)),
                 Some {| ct_payment_hash := "h2";
                         ct_lightning_address := "carol@example.com";
                         ct_count := 3; ct_expiry_seconds := 2592000 |}))
    by reflexivity.
  split; [exact H |].
  destruct (create_invoice_outcomes _ _ _ _ _ _ _ _ H) as (_ & _ & Htask).
  destruct (Htask _ eq_refl) as (req & inv & Hb & _ & _ & _ & _ & Htr & _).
  injection Hb as <-. exact Htr.
Defined.

End Creation.

(** ** The creation task *)

Section CreationTask.
Import Store Handlers Flows Examples FlowExamples.

Lemma get_creation_request_status (h s : string) (db : DB) (c : CreationRow) :
  GetCreationRequest None h db = Ok c ->
  GetCreationRequest None h
    (snd (UpdateCreationRequestStatus None h s db))
  = Ok {| cr_payment_hash := cr_payment_hash c;
          cr_lightning_address := cr_lightning_address c;
          cr_count := cr_count c;
          cr_expiry_seconds := cr_expiry_seconds c;
          cr_fee_msats := cr_fee_msats c;
          cr_status := s;
          cr_created_at := cr_created_at c |}.
Proof.
  unfold GetCreationRequest, UpdateCreationRequestStatus. cbn.
  intros H.
  destruct (find _ (creation_requests db)) as [c0 |] eqn:E; [| discriminate].
  injection H as ->.
  rewrite (find_map_same_key (fun c => String.eqb (cr_payment_hash c) h)).
  - rewrite E. cbn. apply find_some in E as [_ Hh]. rewrite Hh. reflexivity.
  - intros x. destruct (String.eqb (cr_payment_hash x) h) eqn:Ex; exact Ex.
Qed.

Lemma fresh_ids_length (uuid : nat -> string) (n : nat) :
  List.length (combine (map (fun i => uuid (2 * i)%nat) (seq 0 n))
                 (map (fun i => uuid (2 * i + 1)%nat) (seq 0 n))) = n.
Proof. rewrite length_combine, !length_map, length_seq. lia. Qed.

(** X19.  The status the creation task leaves is a faithful signal: for a
    stored request, when the status can be written, the task ends either
    with the request [expired] and no voucher created, or with the request
    [complete], the payment confirmed and exactly [count] fresh vouchers
    appended, each with a zero balance, the active flag set and the
    request's address and expiry.  It writes no session and no pay
    invoice. *)
Theorem creation_task_outcomes (env : CreationTaskEnv) (task : CreationTask)
  (db : DB) (c : CreationRow) :
  t_status_fault env = None ->
  GetCreationRequest None (ct_payment_hash task) db = Ok c ->
  exists c' created,
    GetCreationRequest None (ct_payment_hash task) (creationTask env task db)
    = Ok c'
    /\ cr_payment_hash c' = cr_payment_hash c
    /\ cr_count c' = cr_count c
    /\ cr_fee_msats c' = cr_fee_msats c
    /\ vouchers (creationTask env task db) = vouchers db ++ created
    /\ withdraw_sessions (creationTask env task db) = withdraw_sessions db
    /\ pay_invoices (creationTask env task db) = pay_invoices db
    /\ ((cr_status c' = "expired" /\ created = [])
        \/ (cr_status c' = "complete"
            /\ t_wait env = None
            /\ List.length created = Z.to_nat (ct_count task)
            /\ forall r, In r created ->
                 total_paid_msats r = 0 /\ active r = 1
                 /\ last_funded_at r = None
                 /\ creation_request_hash r = Some (ct_payment_hash task)
                 /\ lightning_address r = ct_lightning_address task
                 /\ expiry_seconds r = ct_expiry_seconds task)).
Proof.
  intros Hsf Hc. unfold creationTask. rewrite Hsf.
  destruct (t_wait env) as [e |].
  - eexists. exists []. rewrite (get_creation_request_status _ _ _ _ Hc).
    rewrite app_nil_r. cbn. repeat split; try reflexivity. left. auto.
  - pose proof (InsertVouchers_atomic_core (t_insert_fault env) (t_now env)
                  (map (fun i => t_uuid env (2 * i)%nat)
                     (seq 0 (Z.to_nat (ct_count task))))
                  (map (fun i => t_uuid env (2 * i + 1)%nat)
                     (seq 0 (Z.to_nat (ct_count task))))
                  (ct_payment_hash task) (ct_lightning_address task)
                  (ct_expiry_seconds task) db) as Hins.
    destruct (InsertVouchers _ _ _ _ _ _ _ db) as [[e |] db1]; subst db1.
    + eexists. exists []. rewrite (get_creation_request_status _ _ _ _ Hc).
      rewrite app_nil_r. cbn. repeat split; try reflexivity. left. auto.
    + eexists. eexists.
      rewrite (get_creation_request_status (ct_payment_hash task) "complete"
                 (set_vouchers db _) c Hc).
      cbn. repeat split; try reflexivity. right.
      split; [reflexivity |]. split; [reflexivity |]. split.
      * rewrite length_map. apply fresh_ids_length.
      * intros r Hr. apply in_map_iff in Hr as (ids & <- & _). cbn. auto 10.
Qed.

Lemma creation_task_outcomes_witness :
  GetCreationRequest None "h1" db_funded
  = Ok {| cr_payment_hash := "h1";
          cr_lightning_address := "alice@example.com";
          cr_count := 2; cr_expiry_seconds := 2592000;
          cr_fee_msats := 20000; cr_status := "complete";
          cr_created_at := 0 |}
  /\ exists c' created,
       GetCreationRequest None "h1"
         (creationTask creation_env creation_task db_funded) = Ok c'
       /\ vouchers (creationTask creation_env creation_task db_funded)
          = vouchers db_funded ++ created.
Proof.
  assert (H : GetCreationRequest None "h1" db_funded
              = Ok {| cr_payment_hash := "h1";
                      cr_lightning_address := "alice@example.com";
                      cr_count := 2; cr_expiry_seconds := 2592000;
                      cr_fee_msats := 20000; cr_status := "complete";
                      cr_created_at := 0 |}) by reflexivity.
  split; [exact H |].
  destruct (creation_task_outcomes creation_env creation_task db_funded _
              eq_refl H) as (c' & created & Hg & _ & _ & _ & Hv & _).
  exists c', created. split; [exact Hg | exact Hv].
Defined.

End CreationTask.

(** ** The gateway client *)

Section Gateway.
Import Blitzi.

(** X20.  What [PayInvoice] reports about an answer of the gateway is
    never an unknown outcome: a status of 400 or more and a body that
    carries an error are definitive failures, and a success answer with no
    body that decodes is a success.  Only a failure to build the request,
    to send it or to read the answer can be a timeout or a cancellation,
    and it is one exactly when the underlying error is. *)
Theorem PayInvoice_outcomes (decode : string -> option (bool * string)) :
  (forall status body e,
     PayInvoice decode (Responded status body) = Some e ->
     outcome_unknown e = false)
  /\ (forall status body,
        400 <= status -> PayInvoice decode (Responded status body) <> None)
  /\ (forall status body,
        status < 400 -> decode body = None ->
        PayInvoice decode (Responded status body) = None)
  /\ (forall e0,
        exists e,
          PayInvoice decode (TransportFailed e0) = Some e
          /\ outcome_unknown e = outcome_unknown e0)
  /\ (forall e0,
        exists e,
          PayInvoice decode (BodyUnreadable e0) = Some e
          /\ outcome_unknown e = outcome_unknown e0)
  /\ (forall e0, PayInvoice decode (RequestInvalid e0) = Some e0).
Proof.
  unfold PayInvoice, do. repeat split.
  - intros status body e.
    destruct (400 <=? status); [intros H; injection H as <-; reflexivity |].
    destruct (decode body) as [[success errtext] |]; [| discriminate].
    destruct (negb success && negb (String.eqb errtext ""));
      [intros H; injection H as <-; reflexivity | discriminate].
  - intros status body Hs.
    destruct (Z.leb_spec 400 status); [discriminate | lia].
  - intros status body Hs Hd.
    destruct (Z.leb_spec 400 status); [lia |]. rewrite Hd. reflexivity.
  - intros e0. eexists. split; reflexivity.
  - intros e0. eexists. split; reflexivity.
Qed.

End Gateway.

(** ** The refund job and the rest of the store *)

Section RefundJob.
Import Store Handlers Flows Examples FlowExamples.

Lemma NoDup_key_inj {A : Type} (key : A -> string) (l : list A) (x y : A) :
  NoDup (map key l) -> In x l -> In y l -> key x = key y -> x = y.
Proof.
  induction l as [| a l IH]; intros Hnd Hx Hy Hk; [contradiction |].
  cbn in Hnd. inversion Hnd as [| ? ? Hnotin Hnd']; subst.
  destruct Hx as [-> | Hx], Hy as [-> | Hy].
  - reflexivity.
  - exfalso. apply Hnotin. rewrite Hk. apply in_map. exact Hy.
  - exfalso. apply Hnotin. rewrite <- Hk. apply in_map. exact Hx.
  - apply IH; assumption.
Qed.

Lemma reactivated_deactivated (r : VoucherRow) :
  active r = 1 -> reactivated (total_paid_msats r) (deactivated r) = r.
Proof. destruct r. cbn. intros ->. reflexivity. Qed.

(** X21.  A refund that definitively fails leaves no trace in the store:
    when the keys are unique, the voucher had the active flag set and the
    two writes succeed, the store after the deactivation, the failed
    refund and the reactivation is the store before, balance included. *)
Theorem refund_failure_restores (env : RefundEnv) (r : VoucherRow) (db : DB)
  (err : error) (tr : list Event) :
  keys_unique db -> In r (vouchers db) -> active r = 1 ->
  j_deactivate_fault env = None -> j_reactivate_fault env = None ->
  RefundToLightningAddress (j_network env) (lightning_address r)
    (total_paid_msats r) = (Some err, tr) ->
  outcome_unknown err = false ->
  fst (refundVoucher env (scanVoucher r) db) = db.
Proof.
  intros (Hnd & _) Hin Hact Hd Hre Hrefund Hdef.
  unfold refundVoucher. cbn [PayID LightningAddress TotalPaidMsats scanVoucher].
  unfold DeactivateVoucher, ReactivateVoucher. rewrite Hd, Hre. cbn [exec].
  rewrite Hrefund, Hdef. cbn [fst].
  destruct db as [vs ss ps cs]. cbn in Hnd, Hin.
  unfold update_vouchers, set_vouchers.
  cbn [vouchers withdraw_sessions pay_invoices creation_requests].
  f_equal. rewrite map_map.
  transitivity (map (fun x : VoucherRow => x) vs); [| apply map_id].
  apply map_ext_in. intros x Hx.
  destruct (String.eqb_spec (pay_id x) (pay_id r)) as [E | E].
  - assert (x = r) by (apply (NoDup_key_inj pay_id vs); assumption). subst x.
    cbn [deactivated pay_id]. rewrite String.eqb_refl.
    apply reactivated_deactivated. exact Hact.
  - destruct (String.eqb_spec (pay_id x) (pay_id r)); [contradiction |].
    reflexivity.
Qed.

Lemma db_funded_keys_unique : keys_unique db_funded.
Proof.
  unfold keys_unique. cbn.
  repeat split; repeat constructor; cbn; intuition discriminate.
Qed.

Lemma refund_failure_restores_witness :
  keys_unique db_funded /\ In row_example (vouchers db_funded)
  /\ active row_example = 1
  /\ RefundToLightningAddress (j_network (refund_env (Some err_rejected)))
       (lightning_address row_example) (total_paid_msats row_example)
     = (Some err_rejected,
        snd (RefundToLightningAddress
               (j_network (refund_env (Some err_rejected)))
               (lightning_address row_example) (total_paid_msats row_example)))
  /\ outcome_unknown err_rejected = false
  /\ fst (refundVoucher (refund_env (Some err_rejected))
            (scanVoucher row_example) db_funded) = db_funded.
Proof.
  assert (H1 : In row_example (vouchers db_funded)) by (left; reflexivity).
  assert (H2 : RefundToLightningAddress
                 (j_network (refund_env (Some err_rejected)))
                 (lightning_address row_example) (total_paid_msats row_example)
               = (Some err_rejected,
                  snd (RefundToLightningAddress
                         (j_network (refund_env (Some err_rejected)))
                         (lightning_address row_example)
                         (total_paid_msats row_example)))) by reflexivity.
  split; [exact db_funded_keys_unique |]. split; [exact H1 |].
  split; [reflexivity |]. split; [exact H2 |]. split; [reflexivity |].
  exact (refund_failure_restores (refund_env (Some err_rejected)) row_example
           db_funded err_rejected _ db_funded_keys_unique H1 eq_refl eq_refl
           eq_refl H2 eq_refl).
Defined.

Lemma update_vouchers_frame (p : string) (f : VoucherRow -> VoucherRow)
  (db : DB) (r : VoucherRow) :
  In r (vouchers db) -> pay_id r <> p ->
  In r (vouchers (update_vouchers p f db)).
Proof.
  intros Hin Hne. cbn. apply in_map_iff. exists r. split; [| exact Hin].
  destruct (String.eqb_spec (pay_id r) p); [contradiction | reflexivity].
Qed.

(** The refund of one voucher writes nothing but the rows of that
    voucher. *)
Lemma refundVoucher_frame (env : RefundEnv) (v : Voucher) (db : DB) :
  withdraw_sessions (fst (refundVoucher env v db)) = withdraw_sessions db
  /\ pay_invoices (fst (refundVoucher env v db)) = pay_invoices db
  /\ creation_requests (fst (refundVoucher env v db)) = creation_requests db
  /\ forall r, In r (vouchers db) -> pay_id r <> PayID v ->
       In r (vouchers (fst (refundVoucher env v db))).
Proof.
  unfold refundVoucher, DeactivateVoucher, ReactivateVoucher, exec.
  destruct (j_deactivate_fault env); [cbn; auto |].
  destruct (RefundToLightningAddress _ _ _) as [[err |] tr].
  - destruct (outcome_unknown err).
    + cbn. repeat split. intros r Hin Hne.
      apply (update_vouchers_frame (PayID v) deactivated db r Hin Hne).
    + destruct (j_reactivate_fault env); cbn; repeat split; intros r Hin Hne.
      * apply (update_vouchers_frame (PayID v) deactivated db r Hin Hne).
      * exact (update_vouchers_frame (PayID v)
                 (reactivated (TotalPaidMsats v))
                 (update_vouchers (PayID v) deactivated db) r
                 (update_vouchers_frame (PayID v) deactivated db r Hin Hne)
                 Hne).
  - cbn. repeat split. intros r Hin Hne.
    apply (update_vouchers_frame (PayID v) deactivated db r Hin Hne).
Qed.

Lemma refund_loop_frame (envs : Voucher -> RefundEnv) (expired : list Voucher) :
  forall db,
  withdraw_sessions (fst (refund_loop envs expired db)) = withdraw_sessions db
  /\ pay_invoices (fst (refund_loop envs expired db)) = pay_invoices db
  /\ creation_requests (fst (refund_loop envs expired db)) = creation_requests db
  /\ forall r, In r (vouchers db) ->
       (forall v, In v expired -> pay_id r <> PayID v) ->
       In r (vouchers (fst (refund_loop envs expired db))).
Proof.
  induction expired as [| v rest IH]; intros db; [cbn; auto |].
  cbn [refund_loop].
  destruct (refundVoucher_frame (envs v) v db) as (Hs & Hp & Hc & Hv).
  destruct (refundVoucher (envs v) v db) as [db1 tr1]. cbn [fst] in *.
  destruct (IH db1) as (Hs' & Hp' & Hc' & Hv').
  destruct (refund_loop envs rest db1) as [db2 tr2]. cbn [fst] in *.
  split; [congruence |]. split; [congruence |]. split; [congruence |].
  intros r Hin Hne. apply Hv'.
  - apply Hv; [exact Hin |]. apply Hne. left. reflexivity.
  - intros v' Hv'in. apply Hne. right. exact Hv'in.
Qed.

(** X22.  The refund job writes nothing but the vouchers it selected: in a
    store with unique keys, whatever the answers of the network and the
    faults, every voucher the query did not select is in the store after
    the job exactly as it was, and the sessions, the pay invoices and the
    creation requests are unchanged. *)
Theorem refund_job_frame (cfg : Config) (now : Time)
  (query_fault : option error) (envs : Voucher -> RefundEnv) (db : DB) :
  keys_unique db ->
  withdraw_sessions (snd (fst (runRefundJob cfg now query_fault envs db)))
  = withdraw_sessions db
  /\ pay_invoices (snd (fst (runRefundJob cfg now query_fault envs db)))
     = pay_invoices db
  /\ creation_requests (snd (fst (runRefundJob cfg now query_fault envs db)))
     = creation_requests db
  /\ forall r, In r (vouchers db) -> refund_selected cfg now r = false ->
       In r (vouchers (snd (fst (runRefundJob cfg now query_fault envs db)))).
Proof.
  intros (Hnd & _). unfold runRefundJob, GetExpiredVouchersForRefund.
  destruct query_fault; [cbn; auto |].
  destruct (refund_loop_frame envs
              (map scanVoucher (filter (refund_selected cfg now) (vouchers db)))
              db) as (Hs & Hp & Hc & Hv).
  destruct (refund_loop envs _ db) as [db1 tr]. cbn [fst snd] in *.
  split; [exact Hs |]. split; [exact Hp |]. split; [exact Hc |].
  intros r Hin Hsel. apply Hv; [exact Hin |].
  intros v Hvin Heq. apply in_map_iff in Hvin as (r0 & <- & Hr0).
  apply filter_In in Hr0 as [Hr0 Hsel0]. cbn in Heq.
  assert (r = r0) by (apply (NoDup_key_inj pay_id (vouchers db)); assumption).
  subst r0. congruence.
Qed.

Lemma refund_job_frame_witness :
  keys_unique db_funded
  /\ In row_other (vouchers db_funded)
  /\ refund_selected defaultConfig (2592101 * Second) row_other = false
  /\ In row_other
       (vouchers (snd (fst (runRefundJob defaultConfig (2592101 * Second) None
                              (fun _ => refund_env None) db_funded)))).
Proof.
  assert (H1 : In row_other (vouchers db_funded))
    by (right; left; reflexivity).
  assert (H2 : refund_selected defaultConfig (2592101 * Second) row_other
               = false) by reflexivity.
  split; [exact db_funded_keys_unique |]. split; [exact H1 |].
  split; [exact H2 |].
  destruct (refund_job_frame defaultConfig (2592101 * Second) None
              (fun _ => refund_env None) db_funded db_funded_keys_unique)
    as (_ & _ & _ & Hv).
  exact (Hv row_other H1 H2).
Defined.

End RefundJob.

(** ** Lightning addresses *)

Section Addresses.
Import Store Handlers Flows Examples FlowExamples.

Lemma split_at_sign_app (user domain : string) :
  split_at_sign user = None ->
  split_at_sign (user ++ String "@" domain) = Some (user, domain).
Proof.
  induction user as [| c user IH]; cbn; [reflexivity |].
  destruct (Ascii.eqb c "@"); [discriminate |].
  destruct (split_at_sign user) as [[u d] |]; [discriminate |].
  intros _. rewrite IH by reflexivity. reflexivity.
Qed.

(** X23.  A lightning address is split at its first [@]: for a user part
    without [@], resolving [user@domain] makes exactly one request, to
    [https://domain/.well-known/lnurlp/user], whatever the domain part
    contains, and succeeds exactly when that request gave parameters with a
    non-empty callback; an address without any [@] is refused before any
    request. *)
Theorem resolve_address_request (net : Network) (user domain : string) :
  split_at_sign user = None ->
  snd (ResolveLightningAddress net (user ++ String "@" domain))
  = [EvHTTPGet ("https://" ++ domain ++ "/.well-known/lnurlp/" ++ user)%string]
  /\ (forall params,
        fst (ResolveLightningAddress net (user ++ String "@" domain)) = Ok params
        <-> http_lnurlp net
              ("https://" ++ domain ++ "/.well-known/lnurlp/" ++ user)%string
            = Ok params
            /\ Callback params <> "")
  /\ ResolveLightningAddress net user
     = (Err (ErrMsg ("invalid lightning address: " ++ user)%string), []).
Proof.
  intros Hu. unfold ResolveLightningAddress.
  rewrite (split_at_sign_app user domain Hu), Hu.
  destruct (http_lnurlp net _) as [params |e] eqn:E.
  - destruct (String.eqb_spec (Callback params) "") as [Hc | Hc]; cbn.
    + split; [reflexivity |]. split; [| reflexivity].
      intros p. split; [discriminate |].
      intros [Hp Hne]. injection Hp as <-. contradiction.
    + split; [reflexivity |]. split; [| reflexivity].
      intros p. split.
      * intros Hp. injection Hp as <-. split; [reflexivity | exact Hc].
      * intros [Hp _]. exact Hp.
  - cbn. split; [reflexivity |]. split; [| reflexivity].
    intros p. split; [discriminate | intros [Hp _]; discriminate].
Qed.

Lemma resolve_address_request_witness :
  split_at_sign "alice" = None
  /\ snd (ResolveLightningAddress (network_example 1000 100000000 None)
            "alice@pay@example.com")
     = [EvHTTPGet "https://pay@example.com/.well-known/lnurlp/alice"].
Proof.
  assert (H : split_at_sign "alice" = None) by reflexivity.
  split; [exact H |].
  destruct (resolve_address_request (network_example 1000 100000000 None)
              "alice" "pay@example.com" H) as (Htr & _).
  exact Htr.
Defined.

End Addresses.

(** ** Funding, from the callback to the credit *)

Section Funding.
Import Store Handlers Flows Examples FlowExamples.

(** What the funding callback stored when it started a task. *)
Lemma pay_callback_task (cfg : Config) (env : PayEnv) (payID amountStr : string)
  (db db' : DB) (resp : Response) (tr : list Event) (t : CreditTask) :
  handleLNURLPayCallback cfg env payID amountStr db = (resp, db', tr, Some t) ->
  exists amount inv r,
    p_sscan env amountStr = Some amount /\ 0 < amount
    /\ p_create_invoice env = Ok inv
    /\ find_by_pay_id payID db = Some r
    /\ IsActive cfg (p_now env) (scanVoucher r) = true
    /\ task_pay_id t = payID
    /\ task_payment_hash t = PaymentHash inv
    /\ 0 < task_credited_msats t
    /\ resp = writeJSON 200 [("pr", JString (Invoice inv));
                             ("routes", JEmptyArray)]
    /\ db' = set_pay_invoices db
               (pay_invoices db
                ++ [{| pi_id := p_invoice_id env; pi_pay_id := payID;
                       pi_payment_hash := PaymentHash inv;
                       pi_amount_msats := amount;
                       pi_credited_msats := task_credited_msats t;
                       pi_paid := 0;
                       pi_created_at := unix_seconds (p_now env);
                       pi_paid_at := None |}]).
Proof.
  unfold handleLNURLPayCallback. intros H.
  destruct (String.eqb amountStr ""); [discriminate |].
  destruct (p_sscan env amountStr) as [amount |]; [| discriminate].
  destruct (Z.leb_spec amount 0) as [| Hpos]; [discriminate |].
  unfold GetVoucherByPayID, query_voucher in H.
  destruct (p_get_voucher_fault env); [discriminate |].
  destruct (find_by_pay_id payID db) as [r |] eqn:Hr; [| discriminate].
  destruct (IsActive cfg (p_now env) (scanVoucher r)) eqn:Hact;
    [| discriminate].
  cbn [negb] in H.
  destruct (Z.leb_spec (wrap64 (amount - feeMsats cfg amount)) 0) as [| Hc];
    [discriminate |].
  destruct (p_create_invoice env) as [inv | e]; [| discriminate].
  unfold InsertPayInvoice in H.
  destruct (_ || _); [discriminate |].
  unfold exec in H. destruct (p_insert_fault env); [discriminate |].
  injection H as <- <- <- <-.
  exists amount, inv, r. cbn. repeat split; try assumption; reflexivity.
Qed.

(** X24.  The funding callback changes the store only when it starts a
    task, and then by exactly one unpaid pay invoice that carries the
    voucher, the payment hash and the credited amount of the task, a
    positive amount; the voucher itself is not written before the payment
    is confirmed. *)
Theorem pay_callback_persists (cfg : Config) (env : PayEnv)
  (payID amountStr : string) (db db' : DB) (resp : Response)
  (tr : list Event) (task : option CreditTask) :
  handleLNURLPayCallback cfg env payID amountStr db = (resp, db', tr, task) ->
  vouchers db' = vouchers db
  /\ withdraw_sessions db' = withdraw_sessions db
  /\ (task = None -> db' = db)
  /\ (forall t, task = Some t ->
      exists amount row,
        p_sscan env amountStr = Some amount
        /\ pay_invoices db' = pay_invoices db ++ [row]
        /\ pi_pay_id row = task_pay_id t /\ task_pay_id t = payID
        /\ pi_payment_hash row = task_payment_hash t
        /\ pi_credited_msats row = task_credited_msats t
        /\ pi_amount_msats row = amount
        /\ 0 < task_credited_msats t
        /\ pi_paid row = 0).
Proof.
  intros H. destruct task as [t |].
  - destruct (pay_callback_task cfg env payID amountStr db db' resp tr t H)
      as (amount & inv & r & Hs & _ & _ & _ & _ & Hp & Hh & Hc & _ & ->).
    cbn. split; [reflexivity |]. split; [reflexivity |].
    split; [discriminate |]. intros t' Ht. injection Ht as <-.
    exists amount. eexists. split; [exact Hs |]. split; [reflexivity |].
    cbn. repeat split; auto.
  - assert (db' = db).
    { unfold handleLNURLPayCallback in H.
      destruct (String.eqb amountStr ""); [congruence |].
      destruct (p_sscan env amountStr) as [amount |]; [| congruence].
      destruct (amount <=? 0); [congruence |].
      destruct (GetVoucherByPayID _ payID db) as [v | e]; [| congruence].
      destruct (negb (IsActive cfg (p_now env) v)); [congruence |].
      destruct (wrap64 (amount - feeMsats cfg amount) <=? 0); [congruence |].
      destruct (p_create_invoice env) as [inv | e]; [| congruence].
      unfold InsertPayInvoice, exec in H.
      destruct (_ || _); [congruence |].
      destruct (p_insert_fault env); [congruence | discriminate]. }
    subst db'. repeat split; try reflexivity. intros t Ht. discriminate.
Qed.

Lemma pay_callback_persists_witness :
  handleLNURLPayCallback defaultConfig pay_env "p1" "50000" db_funded
  = (fst (fst (fst (handleLNURLPayCallback defaultConfig pay_env "p1" "50000"
                      db_funded))),
     snd (fst (fst (handleLNURLPayCallback defaultConfig pay_env "p1" "50000"
                      db_funded))),
     snd (fst (handleLNURLPayCallback defaultConfig pay_env "p1" "50000"
                 db_funded)),
     snd (handleLNURLPayCallback defaultConfig pay_env "p1" "50000" db_funded))
  /\ vouchers (snd (fst (fst (handleLNURLPayCallback defaultConfig pay_env "p1"
                               "50000" db_funded))))
     = vouchers db_funded.
Proof.
  assert (H : handleLNURLPayCallback defaultConfig pay_env "p1" "50000" db_funded
              = (fst (fst (fst (handleLNURLPayCallback defaultConfig pay_env
                                  "p1" "50000" db_funded))),
                 snd (fst (fst (handleLNURLPayCallback defaultConfig pay_env
                                  "p1" "50000" db_funded))),
                 snd (fst (handleLNURLPayCallback defaultConfig pay_env "p1"
                             "50000" db_funded)),
                 snd (handleLNURLPayCallback defaultConfig pay_env "p1" "50000"
                        db_funded))) by reflexivity.
  split; [exact H |].
  destruct (pay_callback_persists _ _ _ _ _ _ _ _ _ H) as (Hv & _).
  exact Hv.
Defined.

(** X25.  A funding goes through end to end: when the callback started a
    task and the payment is confirmed while the voucher is still active,
    the store not failing, the task raises the balance by the credited
    amount of the pay invoice, sets the funding time and marks that pay
    invoice paid, without any call to the gateway or another host. *)
Theorem funding_credits_voucher (cfg : Config) (env : PayEnv)
  (cenv : CreditEnv) (payID amountStr : string) (db db1 : DB)
  (resp : Response) (tr : list Event) (t : CreditTask) (r : VoucherRow) :
  handleLNURLPayCallback cfg env payID amountStr db = (resp, db1, tr, Some t) ->
  find_by_pay_id payID db = Some r ->
  c_wait cenv = None -> c_begin_fault cenv = None ->
  c_get_voucher_fault cenv = None -> c_credit_fault cenv = None ->
  c_mark_paid_fault cenv = None -> c_commit_fault cenv = None ->
  IsActive cfg (c_now cenv) (scanVoucher r) = true ->
  snd (creditTask cfg cenv t db1) = []
  /\ find_by_pay_id payID (fst (creditTask cfg cenv t db1))
     = Some (credited (task_credited_msats t) (c_now cenv) r)
  /\ total_paid_msats (credited (task_credited_msats t) (c_now cenv) r)
     = total_paid_msats r + task_credited_msats t
  /\ exists row,
       In row (pay_invoices (fst (creditTask cfg cenv t db1)))
       /\ pi_payment_hash row = task_payment_hash t
       /\ pi_pay_id row = payID
       /\ pi_credited_msats row = task_credited_msats t
       /\ pi_paid row = 1
       /\ pi_paid_at row = Some (unix_seconds (c_now cenv)).
Proof.
  intros H Hr W B G C M O Hact.
  destruct (pay_callback_task cfg env payID amountStr db db1 resp tr t H)
    as (amount & inv & r' & _ & _ & _ & Hr' & _ & Hp & Hh & _ & _ & ->).
  rewrite Hr in Hr'. injection Hr' as <-.
  assert (Hr1 : find_by_pay_id (task_pay_id t)
                  (set_pay_invoices db
                     (pay_invoices db
                      ++ [{| pi_id := p_invoice_id env; pi_pay_id := payID;
                             pi_payment_hash := PaymentHash inv;
                             pi_amount_msats := amount;
                             pi_credited_msats := task_credited_msats t;
                             pi_paid := 0;
                             pi_created_at := unix_seconds (p_now env);
                             pi_paid_at := None |}]))
                = Some r) by (rewrite Hp; exact Hr).
  rewrite (creditTask_active cfg cenv t _ r W B G C M O Hr1 Hact).
  cbn [fst snd]. split; [reflexivity |]. split.
  - rewrite <- Hp.
    exact (find_by_pay_id_update (task_pay_id t)
             (credited (task_credited_msats t) (c_now cenv)) _ r
             (fun _ => eq_refl) Hr1).
  - split; [reflexivity |]. eexists. split.
    + cbn. rewrite map_app. apply in_or_app. right. cbn. left. reflexivity.
    + cbn [pi_payment_hash]. rewrite Hh, String.eqb_refl. cbn. auto.
Qed.

Lemma funding_credits_voucher_witness :
  find_by_pay_id "p1" db_funded = Some row_example
  /\ IsActive defaultConfig (c_now (credit_env (1000 * Second)))
       (scanVoucher row_example) = true
  /\ find_by_pay_id "p1"
       (fst (creditTask defaultConfig (credit_env (1000 * Second))
               {| task_pay_id := "p1"; task_credited_msats := 47800;
                  task_payment_hash := "hash1" |}
               (snd (fst (fst (handleLNURLPayCallback defaultConfig pay_env
                                 "p1" "50000" db_funded))))))
     = Some (credited 47800 (1000 * Second) row_example).
Proof.
  assert (H1 : find_by_pay_id "p1" db_funded = Some row_example)
    by reflexivity.
  assert (H2 : IsActive defaultConfig (c_now (credit_env (1000 * Second)))
                 (scanVoucher row_example) = true) by reflexivity.
  split; [exact H1 |]. split; [exact H2 |].
  destruct (funding_credits_voucher defaultConfig pay_env
              (credit_env (1000 * Second)) "p1" "50000" db_funded
              (snd (fst (fst (handleLNURLPayCallback defaultConfig pay_env
                                "p1" "50000" db_funded))))
              (fst (fst (fst (handleLNURLPayCallback defaultConfig pay_env
                                "p1" "50000" db_funded))))
              (snd (fst (handleLNURLPayCallback defaultConfig pay_env
                           "p1" "50000" db_funded)))
              {| task_pay_id := "p1"; task_credited_msats := 47800;
                 task_payment_hash := "hash1" |}
              row_example eq_refl H1 eq_refl eq_refl eq_refl eq_refl eq_refl
              eq_refl H2) as (_ & Hf & _).
  exact Hf.
Defined.

End Funding.

(** ** The vouchers of a batch *)

Section Batches.
Import Store Handlers Flows Examples FlowExamples.

Lemma filter_map_all {A B : Type} (p : B -> bool) (f : A -> B) (l : list A) :
  (forall x, p (f x) = true) -> filter p (map f l) = map f l.
Proof.
  intros H. induction l as [| x l IH]; cbn; [reflexivity |].
  rewrite H, IH. reflexivity.
Qed.

Lemma filter_map_none {A B : Type} (p : B -> bool) (f : A -> B) (l : list A) :
  (forall x, p (f x) = false) -> filter p (map f l) = [].
Proof.
  intros H. induction l as [| x l IH]; cbn; [reflexivity |].
  rewrite H, IH. reflexivity.
Qed.

(** X26.  The vouchers of a batch are found by its creation hash: after a
    successful [InsertVouchers], [GetVouchersByCreationHash] for the hash
    of the batch returns what it returned before followed by the new
    vouchers, in the order of the ids, and for any other hash it returns
    what it returned before. *)
Theorem batch_found_by_hash (fault : option error) (now : Time)
  (payIDs withdrawIDs : list string) (creationHash address : string)
  (expirySecs : Z) (db db' : DB) :
  InsertVouchers fault now payIDs withdrawIDs creationHash address expirySecs db
  = (None, db') ->
  (exists before,
     GetVouchersByCreationHash None creationHash db = Ok before
     /\ GetVouchersByCreationHash None creationHash db'
        = Ok (before
              ++ map (fun ids =>
                        scanVoucher
                          (new_voucher now creationHash address expirySecs ids))
                   (combine payIDs withdrawIDs)))
  /\ (forall other, other <> creationHash ->
      GetVouchersByCreationHash None other db'
      = GetVouchersByCreationHash None other db).
Proof.
  intros H.
  pose proof (InsertVouchers_atomic_core fault now payIDs withdrawIDs
                creationHash address expirySecs db) as Hcore.
  rewrite H in Hcore. subst db'.
  unfold GetVouchersByCreationHash. cbn [vouchers set_vouchers]. split.
  - eexists. split; [reflexivity |].
    rewrite filter_app, map_app. do 2 f_equal.
    rewrite filter_map_all by (intros x; cbn; apply String.eqb_refl).
    apply map_map.
  - intros other Hne. rewrite filter_app.
    rewrite filter_map_none, app_nil_r; [reflexivity |].
    intros x. cbn. apply String.eqb_neq. congruence.
Qed.

Lemma batch_found_by_hash_witness :
  InsertVouchers None (1000 * Second) ["p3"; "p4"] ["w3"; "w4"] "h1"
    "alice@example.com" 2592000 db_funded
  = (None,
     run_op (OpInsertVouchers (1000 * Second) ["p3"; "p4"] ["w3"; "w4"] "h1"
               "alice@example.com" 2592000) db_funded)
  /\ GetVouchersByCreationHash None "h9"
       (run_op (OpInsertVouchers (1000 * Second) ["p3"; "p4"] ["w3"; "w4"] "h1"
                  "alice@example.com" 2592000) db_funded)
     = GetVouchersByCreationHash None "h9" db_funded.
Proof.
  assert (H : InsertVouchers None (1000 * Second) ["p3"; "p4"] ["w3"; "w4"]
                "h1" "alice@example.com" 2592000 db_funded
              = (None,
                 run_op (OpInsertVouchers (1000 * Second) ["p3"; "p4"]
                           ["w3"; "w4"] "h1" "alice@example.com" 2592000)
                   db_funded)) by reflexivity.
  split; [exact H |].
  destruct (batch_found_by_hash _ _ _ _ _ _ _ _ _ H) as (_ & Hother).
  apply Hother. discriminate.
Defined.

End Batches.
